(** * PitchPerfect AI: the scraping job engine, its rate limiter and its
    proxy rotator, embedded from the Python sources.

    - [Scraper]       src/scraper/gmaps_scraper.py
    - [Server]        server.py (job registry, progress callback, job runner)
    - [RateLimiter]   src/utils/rate_limiter.py
    - [ProxyRotation] src/utils/proxy_rotation.py

    Browser, network, clock and random generator are the environment: each
    function takes what it reads from them as an explicit argument. *)

From Stdlib Require Import ZArith QArith Qminmax Qpower Qround Qabs Lia Lqa.
From Stdlib Require Import Ascii String Sorted.
From stdpp Require Import gmap strings list pretty.

Local Open Scope nat_scope.

(* ===================================================================== *)
(** * The Google Maps scraper *)
(* ===================================================================== *)

Module Scraper.

(** The dict returned by [_extract_listing_info].  [text_content()] may be
    [None], so may the name; the other three fields are always strings. *)
Record Details := {
  name : option string;
  phone : string;
  website : string;
  email : string
}.

(** Python truthiness of a [str]. *)
Definition truthy (s : string) : bool :=
  match s with EmptyString => false | _ => true end.

(** Python truthiness of an [Optional[str]]. *)
Definition truthy_opt (o : option string) : bool :=
  match o with Some s => truthy s | None => false end.

(** [business_details['name']] inside an f-string. *)
Definition name_str (d : Details) : string :=
  match name d with Some s => s | None => "None" end.

(** One invocation of [progress_callback(progress, total, successful,
    message, new_lead=None)]. *)
Record Event := {
  ev_progress : nat;
  ev_total : nat;
  ev_successful : nat;
  ev_message : string;
  ev_new_lead : option Details
}.

Definition cb (p t s : nat) (m : string) : Event :=
  {| ev_progress := p; ev_total := t; ev_successful := s;
     ev_message := m; ev_new_lead := None |}.

Definition cb_lead (p t s : nat) (m : string) (d : Details) : Event :=
  {| ev_progress := p; ev_total := t; ev_successful := s;
     ev_message := m; ev_new_lead := Some d |}.

(** What one pass of the scroll loop reads from the page. *)
Record Obs := {
  obs_count : nat;          (* business_cards.count() *)
  obs_loading : bool;       (* spinner.count() > 0 *)
  obs_spinner_hides : bool  (* wait_for(state="hidden") returns in time *)
}.

(** What clicking listing [index] and reading its panel gives. *)
Inductive Outcome :=
| ClickRaises                       (* an exception inside the try block *)
| Extracted (d : option Details).   (* _extract_listing_info's result *)

(** The page as the scraper sees it.  [listings_found] is the outcome of
    [_wait_for_listings], [scroll_obs i] what the scroll loop reads after
    [i] scrolls have been made, [final_count] the recount after the loop.
    The one exception of the scraper that is modelled is the one it raises
    itself, "No business listings found"; failures of the browser (a
    navigation timeout, a closed page) are not. *)
Record Page := {
  listings_found : bool;
  scroll_obs : nat -> Obs;
  final_count : nat;
  listing : nat -> Outcome
}.

(** ** [_scroll_and_load] *)

Definition max_same_count : nat := 8.
Definition max_consecutive_no_new : nat := 10.
Definition scroll_limit : nat := 100.

Record ScrollState := {
  previous_count : Z;
  same_count_repeats : nat;
  scrolls : nat;
  consecutive_no_new_results : nat
}.

Definition scroll_init : ScrollState :=
  {| previous_count := (-1)%Z; same_count_repeats := 0; scrolls := 0;
     consecutive_no_new_results := 0 |}.

(** Which [break] left the loop. *)
Inductive Stop := NoNewResults | SameCountNoSpinner | ScrollLimit.

Definition spinner_events (o : Obs) : list Event :=
  if obs_loading o then
    cb 0 (obs_count o) 0 "Loading spinner detected, waiting for content to load..."
    :: (if obs_spinner_hides o
        then [cb 0 (obs_count o) 0 "Loading completed"]
        else [cb 0 (obs_count o) 0 "Loading timeout, continuing..."])
  else [].

Definition scroll_message (scrolls current_count : nat) : string :=
  "Scroll " +:+ pretty (scrolls + 1) +:+ ": Found " +:+ pretty current_count
  +:+ " listings (continuing until bottom)".

(** The counters after the [if current_count == previous_count] statement. *)
Definition compare_counts (st : ScrollState) (current_count : nat) : ScrollState :=
  if (Z.of_nat current_count =? previous_count st)%Z then
    {| previous_count := previous_count st;
       same_count_repeats := same_count_repeats st + 1;
       scrolls := scrolls st;
       consecutive_no_new_results := consecutive_no_new_results st + 1 |}
  else
    {| previous_count := previous_count st;
       same_count_repeats := 0;
       scrolls := scrolls st;
       consecutive_no_new_results := 0 |}.

(** One pass of the [while True] body: the callbacks made, and either the
    [break] taken or the state for the next pass. *)
Definition scroll_step (pg : Page) (st : ScrollState)
  : list Event * (Stop * ScrollState + ScrollState) :=
  let o := scroll_obs pg (scrolls st) in
  let current_count := obs_count o in
  let evs := cb 0 current_count 0 (scroll_message (scrolls st) current_count)
             :: spinner_events o in
  let st1 := compare_counts st current_count in
  if max_consecutive_no_new <=? consecutive_no_new_results st1 then
    (evs, inl (NoNewResults, st1))
  else if (max_same_count <=? same_count_repeats st1) && negb (obs_loading o) then
    (evs, inl (SameCountNoSpinner, st1))
  else
    let st2 := {| previous_count := Z.of_nat current_count;
                  same_count_repeats := same_count_repeats st1;
                  scrolls := scrolls st1 + 1;
                  consecutive_no_new_results := consecutive_no_new_results st1 |} in
    if scroll_limit <? scrolls st2 then (evs, inl (ScrollLimit, st2))
    else (evs, inr st2).

(** The loop, with [fuel] bounding the number of passes; [None] when the
    fuel runs out before a [break]. *)
Fixpoint scroll_loop (fuel : nat) (pg : Page) (st : ScrollState)
  : option (list Event * Stop * ScrollState) :=
  match fuel with
  | 0 => None
  | S fuel' =>
      match scroll_step pg st with
      | (evs, inl (why, st')) => Some (evs, why, st')
      | (evs, inr st') =>
          match scroll_loop fuel' pg st' with
          | Some (evs', why, st'') => Some (evs ++ evs', why, st'')
          | None => None
          end
      end
  end.

(** Number of passes of the loop body made by a finished loop: a pass left
    by one of the first two [break]s has not scrolled, the others have. *)
Definition iterations (why : Stop) (st : ScrollState) : nat :=
  match why with
  | ScrollLimit => scrolls st
  | _ => scrolls st + 1
  end.

(** The whole of [_scroll_and_load]: the loop, then the final recount.
    101 passes always reach a [break] (see [ScrollFacts.scroll_loop_total]). *)
Definition scroll_fuel : nat := 101.

Definition _scroll_and_load (pg : Page) : option (list Event * nat) :=
  match scroll_loop scroll_fuel pg scroll_init with
  | Some (evs, _, _) => Some (evs, final_count pg)
  | None => None
  end.

(** ** [_extract_all_listings] *)

Definition has_target_data (d : Details) : bool :=
  truthy (phone d) || truthy (website d) || truthy (email d).

Definition processing_message (index total : nat) : string :=
  "Processing listing " +:+ pretty (index + 1) +:+ "/" +:+ pretty total.

Definition processed_message (index total : nat) : string :=
  "Processed " +:+ pretty (index + 1) +:+ "/" +:+ pretty total +:+ " listings".

(** The state carried round the [for] loop. *)
Record ExtractState := {
  results : list Details;
  successful_extractions : nat
}.

(** The body of the [for index in range(total_listings)] loop. *)
Definition extract_step (pg : Page) (total index : nat) (st : ExtractState)
  : list Event * ExtractState :=
  let succ := successful_extractions st in
  let first := cb (index + 1) total succ (processing_message index total) in
  match listing pg index with
  | ClickRaises => ([first], st)
  | Extracted od =>
      let named := match od with
                   | Some d => if truthy_opt (name d) then Some d else None
                   | None => None
                   end in
      match named with
      | Some d =>
          if has_target_data d then
            let st' := {| results := results st ++ [d];
                          successful_extractions := succ + 1 |} in
            ([first;
              cb_lead (index + 1) total (succ + 1) ("Found lead: " +:+ name_str d) d;
              cb (index + 1) total (succ + 1) (processed_message index total)],
             st')
          else
            ([first;
              cb (index + 1) total succ ("No target data for: " +:+ name_str d);
              cb (index + 1) total succ (processed_message index total)],
             st)
      | None =>
          ([first;
            cb (index + 1) total succ
               ("Failed to extract details for listing " +:+ pretty (index + 1));
            cb (index + 1) total succ (processed_message index total)],
           st)
      end
  end.

(** The loop over the indices [index, index+1, ..., index+n-1]. *)
Fixpoint extract_from (pg : Page) (total index n : nat) (st : ExtractState)
  : list Event * ExtractState :=
  match n with
  | 0 => ([], st)
  | S n' =>
      let '(evs, st1) := extract_step pg total index st in
      let '(evs', st2) := extract_from pg total (index + 1) n' st1 in
      (evs ++ evs', st2)
  end.

Definition _extract_all_listings (pg : Page) (total_listings : nat)
  : list Event * list Details :=
  let '(evs, st) :=
    extract_from pg total_listings 0 total_listings
                 {| results := []; successful_extractions := 0 |} in
  (evs, results st).

(** ** [scrape_with_progress] *)

Inductive Result :=
| Returned (leads : list Details)
| Raised (what : string).

Definition navigation_events : list Event :=
  [cb 0 0 0 "Navigating to Google Maps...";
   cb 0 0 0 "Handling cookie consent...";
   cb 0 0 0 "Waiting for business listings to load..."].

Definition scrape_with_progress (pg : Page) : option (list Event * Result) :=
  if listings_found pg then
    match _scroll_and_load pg with
    | Some (scroll_evs, total_listings) =>
        let '(extract_evs, leads) := _extract_all_listings pg total_listings in
        Some (navigation_events
                ++ [cb 0 0 0 "Scrolling to load all results..."]
                ++ scroll_evs
                ++ [cb 0 total_listings 0
                       ("Starting to extract data from " +:+ pretty total_listings
                        +:+ " listings...")]
                ++ extract_evs,
              Returned leads)
    | None => None
    end
  else Some (navigation_events, Raised "No business listings found").

(** ** Notions used to state the properties of the scraper *)

(** The [break] and the final counters, without the callbacks. *)
Definition scroll_outcome (fuel : nat) (pg : Page) (st : ScrollState)
  : option (Stop * ScrollState) :=
  match scroll_loop fuel pg st with
  | Some (_, why, st') => Some (why, st')
  | None => None
  end.

(** Number of passes [_scroll_and_load] makes on a page. *)
Definition passes (pg : Page) : option nat :=
  match scroll_outcome scroll_fuel pg scroll_init with
  | Some (why, st) => Some (iterations why st)
  | None => None
  end.

(** The count read on pass [k] (passes are numbered from 1) is read again
    on every later pass. *)
Definition constant_from (pg : Page) (k : nat) : Prop :=
  forall i, k <= i -> obs_count (scroll_obs pg i)
                      = obs_count (scroll_obs pg (k - 1)).

(** Every pass up to pass [k] reads a count different from the one before. *)
Definition changing_until (pg : Page) (k : nat) : Prop :=
  forall i, 1 <= i < k -> obs_count (scroll_obs pg i)
                          <> obs_count (scroll_obs pg (i - 1)).

(** The spinner shows on pass [n]. *)
Definition loading_on (pg : Page) (n : nat) : bool :=
  obs_loading (scroll_obs pg (n - 1)).

(** The loop counters, the two stale counters being equal. *)
Definition counters (prev : Z) (c s : nat) : ScrollState :=
  {| previous_count := prev; same_count_repeats := c; scrolls := s;
     consecutive_no_new_results := c |}.

(** A dict that passes both tests of [_extract_all_listings]. *)
Definition accepted (d : Details) : bool :=
  truthy_opt (name d) && has_target_data d.

(** The dicts passed as new leads by a list of callbacks, in order. *)
Definition new_leads (evs : list Event) : list Details :=
  omap ev_new_lead evs.

(** Every callback of [evs] reports as successful [n] plus the number of
    new leads passed up to and including it. *)
Definition counts_leads (n : nat) (evs : list Event) : Prop :=
  forall k ev, evs !! k = Some ev ->
    ev_successful ev = n + length (new_leads (take (S k) evs)).

End Scraper.

(* ===================================================================== *)
(** * The scraper's phone number test, [_is_valid_phone] *)
(* ===================================================================== *)

Module Phone.

(** Texts are taken over the code points below 256.  There [\d] matches
    the ten ASCII digits, and [\s] what [str.isspace] accepts: tab to
    carriage return, the four separators 28 to 31, the space, NEL and the
    no-break space. *)
Definition is_digit (c : ascii) : bool :=
  let n := nat_of_ascii c in (48 <=? n) && (n <=? 57).

Definition is_space (c : ascii) : bool :=
  let n := nat_of_ascii c in
  ((9 <=? n) && (n <=? 13)) || ((28 <=? n) && (n <=? 32))
  || (n =? 133) || (n =? 160).

(** The class [[\s\-\(\)\.]]. *)
Definition separator (c : ascii) : bool :=
  is_space c || Ascii.eqb c "-" || Ascii.eqb c "(" || Ascii.eqb c ")"
  || Ascii.eqb c ".".

(** The class [[\d\s\-\(\)\.]]. *)
Definition phone_char (c : ascii) : bool :=
  is_digit c || separator c.

(** Regular expressions, as far as the patterns of the scraper go. *)
Inductive Regex :=
| Never
| Empty
| Class (p : ascii -> bool)
| Cat (r1 r2 : Regex)
| Or (r1 r2 : Regex)
| Star (r : Regex).

Definition Chr (c : ascii) : Regex := Class (Ascii.eqb c).
Definition Opt (r : Regex) : Regex := Or r Empty.
Definition Plus (r : Regex) : Regex := Cat r (Star r).

Fixpoint Times (n : nat) (r : Regex) : Regex :=
  match n with
  | 0 => Empty
  | S n' => Cat r (Times n' r)
  end.

Fixpoint nullable (r : Regex) : bool :=
  match r with
  | Never => false
  | Empty => true
  | Class _ => false
  | Cat r1 r2 => nullable r1 && nullable r2
  | Or r1 r2 => nullable r1 || nullable r2
  | Star _ => true
  end.

(** What is left of [r] to match after the character [c]. *)
Fixpoint deriv (c : ascii) (r : Regex) : Regex :=
  match r with
  | Never => Never
  | Empty => Never
  | Class p => if p c then Empty else Never
  | Cat r1 r2 =>
      if nullable r1 then Or (Cat (deriv c r1) r2) (deriv c r2)
      else Cat (deriv c r1) r2
  | Or r1 r2 => Or (deriv c r1) (deriv c r2)
  | Star r1 => Cat (deriv c r1) (Star r1)
  end.

(** [r] matches the whole of [s]. *)
Fixpoint matches (r : Regex) (s : string) : bool :=
  match s with
  | EmptyString => nullable r
  | String c s' => matches (deriv c r) s'
  end.

(** [s] without the newline it ends with, if it ends with one. *)
Fixpoint chop_newline (s : string) : option string :=
  match s with
  | EmptyString => None
  | String c EmptyString =>
      if Ascii.eqb c "010" then Some EmptyString else None
  | String c s' =>
      match chop_newline s' with
      | Some t => Some (String c t)
      | None => None
      end
  end.

(** [re.match("^r$", s)]: the [$] is the end of the text, or the place
    before a newline that ends the text. *)
Definition re_match (r : Regex) (s : string) : bool :=
  matches r s
  || match chop_newline s with
     | Some s' => matches r s'
     | None => false
     end.

(** The five entries of [phone_patterns]. *)
Definition digit : Regex := Class is_digit.

Definition international : Regex :=
  Cat (Opt (Chr "+")) (Plus (Class phone_char)).

Definition us_parentheses : Regex :=
  Cat (Chr "(") (Cat (Times 3 digit) (Cat (Chr ")")
    (Cat (Star (Class is_space))
       (Cat (Times 3 digit) (Cat (Chr "-") (Times 4 digit)))))).

Definition us_dashes : Regex :=
  Cat (Times 3 digit) (Cat (Chr "-")
    (Cat (Times 3 digit) (Cat (Chr "-") (Times 4 digit)))).

Definition phone_patterns : list Regex :=
  [international; us_parentheses; us_dashes; Times 10 digit; Times 11 digit].

(** [re.sub] of a class by the empty string, and the number of matches
    [re.findall] gives for a class. *)
Fixpoint remove_chars (p : ascii -> bool) (s : string) : string :=
  match s with
  | EmptyString => EmptyString
  | String c s' =>
      if p c then remove_chars p s' else String c (remove_chars p s')
  end.

Fixpoint count_chars (p : ascii -> bool) (s : string) : nat :=
  match s with
  | EmptyString => 0
  | String c s' => (if p c then 1 else 0) + count_chars p s'
  end.

(** [str.strip()]. *)
Fixpoint lstrip (s : string) : string :=
  match s with
  | EmptyString => EmptyString
  | String c s' => if is_space c then lstrip s' else s
  end.

Fixpoint rstrip (s : string) : string :=
  match s with
  | EmptyString => EmptyString
  | String c s' =>
      match rstrip s' with
      | EmptyString => if is_space c then EmptyString else String c EmptyString
      | t => String c t
      end
  end.

Definition strip (s : string) : string := rstrip (lstrip s).

Definition _is_valid_phone (text : string) : bool :=
  if negb (Scraper.truthy text) then false
  else
    let cleaned := remove_chars separator text in
    let digits := count_chars is_digit cleaned in
    if digits <? 7 then false
    else existsb (fun pattern => re_match pattern (strip text)) phone_patterns.

(** ** Notions used to state the properties of the validator *)

(** The strings a pattern stands for. *)
Inductive lang : Regex -> string -> Prop :=
| lang_empty : lang Empty EmptyString
| lang_class p c : p c = true -> lang (Class p) (String c EmptyString)
| lang_cat r1 r2 s1 s2 :
    lang r1 s1 -> lang r2 s2 -> lang (Cat r1 r2) (s1 +:+ s2)
| lang_or_l r1 r2 s : lang r1 s -> lang (Or r1 r2) s
| lang_or_r r1 r2 s : lang r2 s -> lang (Or r1 r2) s
| lang_star_nil r : lang (Star r) EmptyString
| lang_star_cons r s1 s2 :
    lang r s1 -> lang (Star r) s2 -> lang (Star r) (s1 +:+ s2).

(** Every class of the pattern lies within [P]. *)
Fixpoint within (P : ascii -> bool) (r : Regex) : Prop :=
  match r with
  | Class p => forall c, p c = true -> P c = true
  | Cat r1 r2 | Or r1 r2 => within P r1 /\ within P r2
  | Star r1 => within P r1
  | Never | Empty => True
  end.

Fixpoint all_chars (p : ascii -> bool) (s : string) : bool :=
  match s with
  | EmptyString => true
  | String c s' => p c && all_chars p s'
  end.

(** One or more digits and separators, after a plus sign or without. *)
Definition plain_number (s : string) : bool :=
  let body := match s with
              | String "+"%char s' => s'
              | _ => s
              end in
  Scraper.truthy body && all_chars phone_char body.

End Phone.

(* ===================================================================== *)
(** * The server: job registry, progress callback, job runner *)
(* ===================================================================== *)

Module Server.

(** The status strings ["pending"], ["running"], ["cancelled"],
    ["completed"], ["failed"]. *)
Inductive Status := Pending | Running | Cancelled | Completed | Failed.

Definition status_eqb (a b : Status) : bool :=
  match a, b with
  | Pending, Pending | Running, Running | Cancelled, Cancelled
  | Completed, Completed | Failed, Failed => true
  | _, _ => false
  end.

(** [datetime.utcnow()] as a number of seconds. *)
Definition Time := Z.

(** An entry of the dict [active_jobs]. *)
Record Job := {
  db_id : nat;
  status : Status;
  progress : nat;
  total_listings : nat;
  successful_extractions : nat;
  message : string;
  start_time : Time;
  loading_start_time : option Time;
  scraping_start_time : option Time;
  search_term : string
}.

(** A row of the table [ScrapingJob]. *)
Record ScrapingJob := {
  sj_status : Status;
  sj_progress : nat;
  sj_total_listings : nat;
  sj_successful_extractions : nat;
  sj_completed_at : option Time;
  sj_error_message : option string
}.

(** A row of the table [Lead]. *)
Record Lead := {
  lead_name : option string;
  lead_phone : string;
  lead_website : string;
  lead_email : string;
  lead_location : string;
  lead_business_type : string;
  lead_status : string
}.

Record Db := {
  job_rows : gmap nat ScrapingJob;
  lead_rows : list Lead
}.

(** The state the server functions act on: [active_jobs] and the database. *)
Record State := {
  active_jobs : gmap string Job;
  db : Db
}.

(** ** Strings *)

Definition lower_ascii (c : ascii) : ascii :=
  let n := nat_of_ascii c in
  if (65 <=? n) && (n <=? 90) then ascii_of_nat (n + 32) else c.

(** [str.lower()], on the ASCII letters. *)
Fixpoint lower (s : string) : string :=
  match s with
  | EmptyString => EmptyString
  | String c s' => String (lower_ascii c) (lower s')
  end.

(** [pat in s]. *)
Definition contains (pat s : string) : bool :=
  match String.index 0 pat s with Some _ => true | None => false end.

(** [s.split(" in ")[0] if " in " in s else ""]. *)
Definition business_type_of (s : string) : string :=
  match String.index 0 " in " s with
  | Some n => String.substring 0 n s
  | None => ""
  end.

(** ** Field updates *)

Definition with_status (st : Status) (m : string) (j : Job) : Job :=
  {| db_id := db_id j; status := st; progress := progress j;
     total_listings := total_listings j;
     successful_extractions := successful_extractions j;
     message := m; start_time := start_time j;
     loading_start_time := loading_start_time j;
     scraping_start_time := scraping_start_time j;
     search_term := search_term j |}.

Definition with_start (t : Time) (j : Job) : Job :=
  {| db_id := db_id j; status := status j; progress := progress j;
     total_listings := total_listings j;
     successful_extractions := successful_extractions j;
     message := message j; start_time := t;
     loading_start_time := loading_start_time j;
     scraping_start_time := scraping_start_time j;
     search_term := search_term j |}.

Definition with_phases (l s : option Time) (j : Job) : Job :=
  {| db_id := db_id j; status := status j; progress := progress j;
     total_listings := total_listings j;
     successful_extractions := successful_extractions j;
     message := message j; start_time := start_time j;
     loading_start_time := l; scraping_start_time := s;
     search_term := search_term j |}.

Definition with_counters (p t s : nat) (m : string) (j : Job) : Job :=
  {| db_id := db_id j; status := status j; progress := p;
     total_listings := t; successful_extractions := s;
     message := m; start_time := start_time j;
     loading_start_time := loading_start_time j;
     scraping_start_time := scraping_start_time j;
     search_term := search_term j |}.

Definition row_with_status (st : Status) (r : ScrapingJob) : ScrapingJob :=
  {| sj_status := st; sj_progress := sj_progress r;
     sj_total_listings := sj_total_listings r;
     sj_successful_extractions := sj_successful_extractions r;
     sj_completed_at := sj_completed_at r;
     sj_error_message := sj_error_message r |}.

Definition row_finished (st : Status) (t : Time) (r : ScrapingJob) : ScrapingJob :=
  {| sj_status := st; sj_progress := sj_progress r;
     sj_total_listings := sj_total_listings r;
     sj_successful_extractions := sj_successful_extractions r;
     sj_completed_at := Some t;
     sj_error_message := sj_error_message r |}.

Definition row_completed (t : Time) (n : nat) (r : ScrapingJob) : ScrapingJob :=
  {| sj_status := Completed; sj_progress := sj_progress r;
     sj_total_listings := sj_total_listings r;
     sj_successful_extractions := n;
     sj_completed_at := Some t;
     sj_error_message := sj_error_message r |}.

Definition row_failed (e : string) (r : ScrapingJob) : ScrapingJob :=
  {| sj_status := Failed; sj_progress := sj_progress r;
     sj_total_listings := sj_total_listings r;
     sj_successful_extractions := sj_successful_extractions r;
     sj_completed_at := sj_completed_at r;
     sj_error_message := Some e |}.

Definition row_with_counters (p t s : nat) (r : ScrapingJob) : ScrapingJob :=
  {| sj_status := sj_status r; sj_progress := p;
     sj_total_listings := t; sj_successful_extractions := s;
     sj_completed_at := sj_completed_at r;
     sj_error_message := sj_error_message r |}.

Definition alter_row (f : ScrapingJob -> ScrapingJob) (k : nat) (d : Db) : Db :=
  {| job_rows := alter f k (job_rows d); lead_rows := lead_rows d |}.

Definition add_lead (l : Lead) (d : Db) : Db :=
  {| job_rows := job_rows d; lead_rows := lead_rows d ++ [l] |}.

(** ** The endpoints and the job runner *)

(** [job_id in active_jobs and active_jobs[job_id]["status"] == "cancelled"]. *)
Definition is_cancelled (job_id : string) (s : State) : bool :=
  match active_jobs s !! job_id with
  | Some j => status_eqb (status j) Cancelled
  | None => false
  end.

(** [start_scraping]: the row the database stores under the key [id] it
    assigns, and the registry entry.  The entry starts as ["running"]. *)
Definition start_scraping (job_id term : string) (id : nat) (now : Time)
    (s : State) : State :=
  let row := {| sj_status := Pending; sj_progress := 0; sj_total_listings := 0;
                sj_successful_extractions := 0; sj_completed_at := None;
                sj_error_message := None |} in
  let j := {| db_id := id; status := Running; progress := 0;
              total_listings := 0; successful_extractions := 0;
              message := "Starting scraping job..."; start_time := now;
              loading_start_time := None; scraping_start_time := None;
              search_term := term |} in
  {| active_jobs := <[job_id := j]> (active_jobs s);
     db := {| job_rows := <[id := row]> (job_rows (db s));
              lead_rows := lead_rows (db s) |} |}.

(** [cancel_scraping_job].  A job id that is not in the registry is
    compared with the integer keys of the rows; a job id as
    [start_scraping] issues them, a uuid, equals none of them, the
    endpoint answers 404 and nothing changes.  (A job id that is a number
    in text would have the row of that key marked cancelled; job ids of
    that form are outside this model.) *)
Definition cancel_scraping_job (job_id : string) (now : Time) (s : State)
  : State :=
  match active_jobs s !! job_id with
  | None => s
  | Some j =>
      {| active_jobs :=
           <[job_id := with_status Cancelled "Job cancelled by user" j]>
             (active_jobs s);
         db := alter_row (row_finished Cancelled now) (db_id j) (db s) |}
  end.

Section WithFormat.

(** The float formatting [f"{x:.1f}"] of a duration. *)
Variable fmt_seconds : Z -> string.

(** The suffix [timing_info]; a duration of zero is falsy and left out. *)
Definition timing_info (now : Time) (j : Job) : string :=
  let part (label : string) (d : option Z) : string :=
    match d with
    | Some x => if (x =? 0)%Z then "" else label +:+ fmt_seconds x +:+ "s"
    | None => ""
    end in
  " (Total: " +:+ fmt_seconds (now - start_time j)%Z +:+ "s"
  +:+ part ", Loading: "
        (match loading_start_time j with
         | Some l => Some (l - start_time j)%Z | None => None end)
  +:+ part ", Scraping: "
        (match scraping_start_time j with
         | Some t => Some (now - t)%Z | None => None end)
  +:+ ")".

(** The [if]/[elif] that stamps the phase times. *)
Definition track_phases (now : Time) (msg : string) (j : Job) : Job :=
  if bool_decide (loading_start_time j = None)
     && contains "loading" (lower msg)
  then with_phases (Some now) (scraping_start_time j) j
  else if bool_decide (scraping_start_time j = None)
          && contains "processing" (lower msg)
  then with_phases (loading_start_time j) (Some now) j
  else j.

Definition lead_of (d : Scraper.Details) (j : Job) : Lead :=
  {| lead_name := Scraper.name d;
     lead_phone := Scraper.phone d;
     lead_website := Scraper.website d;
     lead_email := Scraper.email d;
     lead_location := search_term j;
     lead_business_type := business_type_of (search_term j);
     lead_status := "new" |}.

(** [update_progress_with_lead], called with the session [db]. *)
Definition update_progress_with_lead (job_id : string) (ev : Scraper.Event)
    (now : Time) (s : State) : State :=
  match active_jobs s !! job_id with
  | None => s
  | Some j =>
      if status_eqb (status j) Cancelled then s
      else
        let p := Scraper.ev_progress ev in
        let t := Scraper.ev_total ev in
        let n := Scraper.ev_successful ev in
        let msg := Scraper.ev_message ev in
        let j1 := track_phases now msg j in
        let base := if Scraper.truthy msg then msg
                    else "Processing " +:+ pretty p +:+ "/" +:+ pretty t
                         +:+ " listings..." in
        let j2 := with_counters p t n (base +:+ timing_info now j1) j1 in
        let d1 := alter_row (row_with_counters p t n) (db_id j2) (db s) in
        let d2 := match Scraper.ev_new_lead ev with
                  | Some d =>
                      match Scraper.name d with
                      | Some _ => add_lead (lead_of d j2) d1
                      | None => d1
                        (* leads.name is NOT NULL: the insert fails and
                           is rolled back *)
                      end
                  | None => d1
                  end in
        {| active_jobs := <[job_id := j2]> (active_jobs s); db := d2 |}
  end.

(** What the environment does around one callback: the clock it reads, and
    whether a cancel request was served while the scraper was waiting for
    the browser just before it. *)
Record Tick := {
  now : Time;
  cancel_request : bool
}.

Definition serve (job_id : string) (t : Tick) (s : State) : State :=
  if cancel_request t then cancel_scraping_job job_id (now t) s else s.

(** The callbacks of one scrape in order, callback number [k] at tick
    [ticks k]. *)
Fixpoint deliver (job_id : string) (ticks : nat -> Tick) (k : nat)
    (evs : list Scraper.Event) (s : State) : State :=
  match evs with
  | [] => s
  | ev :: evs' =>
      deliver job_id ticks (S k) evs'
        (update_progress_with_lead job_id ev (now (ticks k))
           (serve job_id (ticks k) s))
  end.

(** The environment of one run: the clock at the start, the ticks of the
    callbacks, and the tick of the browser teardown that ends the scrape. *)
Record Schedule := {
  started : Time;
  ticks : nat -> Tick;
  teardown : Tick
}.

(** How [run_scraping_job] ends: by returning, or with an exception raised
    inside its [except] block. *)
Inductive Exit := Returns | Escapes.

Definition mark (job_id : string) (st : Status) (m : string) (s : State)
  : State :=
  {| active_jobs := alter (with_status st m) job_id (active_jobs s);
     db := db s |}.

(** The [except Exception as e] block, for a job of the registry. *)
Definition on_exception (job_id : string) (e : string) (s : State)
  : State * Exit :=
  let s1 := mark job_id Failed ("Error: " +:+ e) s in
  match active_jobs s1 !! job_id with
  | None => (s1, Escapes)
  | Some j =>
      match job_rows (db s1) !! db_id j with
      | None => (s1, Escapes)
      | Some _ =>
          ({| active_jobs := active_jobs s1;
              db := alter_row (row_failed e) (db_id j) (db s1) |}, Returns)
      end
  end.

(** The first statements of [run_scraping_job]: the registry entry is set
    to ["running"] ... *)
Definition enter_running (job_id : string) (t : Time) (j : Job) (s : State)
  : State :=
  {| active_jobs :=
       <[job_id := with_start t
                     (with_status Running "Initializing scraper..." j)]>
         (active_jobs s);
     db := db s |}.

(** ... and so is its row. *)
Definition row_running (id : nat) (s : State) : State :=
  {| active_jobs := active_jobs s;
     db := alter_row (row_with_status Running) id (db s) |}.

(** The last statements of [run_scraping_job] after a scrape that returned
    [leads] and was not cancelled. *)
Definition complete (job_id : string) (id : nat) (t : Time)
    (leads : list Scraper.Details) (s : State) : State :=
  let s' := mark job_id Completed
              ("Completed! Found " +:+ pretty (length leads) +:+ " leads") s in
  {| active_jobs := active_jobs s';
     db := alter_row (row_completed t (length leads)) id (db s') |}.

(** [run_scraping_job].  [None] only if the scroll loop ran out of fuel. *)
Definition run_scraping_job (job_id : string) (sch : Schedule)
    (pg : Scraper.Page) (s : State) : option (State * Exit) :=
  match active_jobs s !! job_id with
  | None => Some (s, Escapes)
  | Some j =>
      let s1 := enter_running job_id (started sch) j s in
      match job_rows (db s1) !! db_id j with
      | None =>
          Some (on_exception job_id
                  "'NoneType' object has no attribute 'status'" s1)
      | Some _ =>
          let s2 := row_running (db_id j) s1 in
          if is_cancelled job_id s2 then Some (s2, Returns)
          else
            match Scraper.scrape_with_progress pg with
            | None => None
            | Some (evs, res) =>
                let s3 := deliver job_id (ticks sch) 0 evs s2 in
                let s4 := serve job_id (teardown sch) s3 in
                match res with
                | Scraper.Raised e => Some (on_exception job_id e s4)
                | Scraper.Returned leads =>
                    if is_cancelled job_id s4 then Some (s4, Returns)
                    else Some (complete job_id (db_id j)
                                 (now (teardown sch)) leads s4, Returns)
                end
            end
      end
  end.

End WithFormat.

(** ** Notions used to state the properties of the server *)

(** The registry entry of a job. *)
Definition job_of (job_id : string) (s : State) : option Job :=
  active_jobs s !! job_id.

Definition status_of (job_id : string) (s : State) : option Status :=
  status <$> job_of job_id s.

(** The entry [cancel_scraping_job] leaves behind. *)
Definition frozen (job_id : string) (j : Job) (s : State) : Prop :=
  job_of job_id s = Some j /\ status j = Cancelled
  /\ message j = "Job cancelled by user".

(** The job invariant of the data model. *)
Definition job_ok (j : Job) : Prop := progress j <= total_listings j.

Definition registry_ok (s : State) : Prop :=
  forall id j, active_jobs s !! id = Some j -> job_ok j.

Definition event_ok (ev : Scraper.Event) : Prop :=
  Scraper.ev_progress ev <= Scraper.ev_total ev.


(** ** The endpoint [start_scraping] *)

(** The body of a [ScrapingRequest]. *)
Record ScrapingRequest := {
  req_search_term : option string;
  req_business_type : option string;
  req_location : option string
}.

Inductive HTTPException := HTTP (status_code : nat).

(** The search term the [try] block settles on, or the exception it
    raises. *)
Definition resolve_search_term (r : ScrapingRequest)
  : HTTPException + string :=
  match req_search_term r, req_business_type r, req_location r with
  | Some t, bt, loc =>
      if Scraper.truthy t then inr t
      else match bt, loc with
           | Some b, Some l =>
               if Scraper.truthy b && Scraper.truthy l
               then inr (b +:+ " in " +:+ l) else inl (HTTP 400)
           | _, _ => inl (HTTP 400)
           end
  | None, Some b, Some l =>
      if Scraper.truthy b && Scraper.truthy l
      then inr (b +:+ " in " +:+ l) else inl (HTTP 400)
  | None, _, _ => inl (HTTP 400)
  end.

(** [except Exception as e: raise HTTPException(status_code=500, ...)]:
    the handler of the endpoint, which no [except HTTPException: raise]
    precedes. *)
Definition except_exception {A} (body : HTTPException + A)
  : HTTPException + A :=
  match body with
  | inl _ => inl (HTTP 500)
  | inr a => inr a
  end.

(** The endpoint with the job id [uuid4()] drew and the key [id] the
    database assigned: its answer (the job id and the key) or the
    exception it ends with, and the server afterwards. *)
Definition start_scraping_endpoint (r : ScrapingRequest) (job_id : string)
    (id : nat) (now : Time) (s : State)
  : (HTTPException + string * nat) * State :=
  match resolve_search_term r with
  | inr term =>
      (except_exception (inr (job_id, id)),
       start_scraping job_id term id now s)
  | inl e => (except_exception (inl e), s)
  end.

(** ** The endpoint [get_leads] *)

(** [OFFSET n] and [LIMIT n] of the query.  SQLite, the database of
    [get_database_url], reads a negative offset as zero and a negative
    limit as no limit. *)
Definition offset_rows {A} (n : Z) (l : list A) : list A :=
  drop (Z.to_nat n) l.

Definition limit_rows {A} (n : Z) (l : list A) : list A :=
  if (n <? 0)%Z then l else take (Z.to_nat n) l.

(** [if status: query = query.filter(Lead.status == status)]. *)
Definition status_filter (st : option string) (rows : list Lead)
  : list Lead :=
  if Scraper.truthy_opt st
  then List.filter (fun l => bool_decide (Some (lead_status l) = st)) rows
  else rows.

(** The answer of [get_leads]: the leads of the page and the block
    ["pagination"]. *)
Record LeadsPage := {
  lp_leads : list Lead;
  lp_page : Z;
  lp_limit : Z;
  lp_total : Z;
  lp_pages : Z
}.

(** An integer SQLite can hold.  Binding another one as [OFFSET] or
    [LIMIT] raises [OverflowError]. *)
Definition sqlite_int (n : Z) : bool :=
  (- 2 ^ 63 <=? n)%Z && (n <=? 2 ^ 63 - 1)%Z.

Inductive QueryError := OverflowError | ZeroDivisionError.

(** [get_leads], with [rows] the table as [order_by(Lead.scraped_at.desc())]
    reads it.  The query is run before the number of pages is computed,
    so the [OverflowError] of an offset or limit beyond 64 bits comes
    before the [ZeroDivisionError] of a limit of zero. *)
Definition get_leads (page limit : Z) (st : option string)
    (rows : list Lead) : QueryError + LeadsPage :=
  let query := status_filter st rows in
  let total := Z.of_nat (length query) in
  if negb (sqlite_int ((page - 1) * limit) && sqlite_int limit)
  then inl OverflowError
  else
    let leads := limit_rows limit (offset_rows ((page - 1) * limit) query) in
    if (limit =? 0)%Z then inl ZeroDivisionError
    else inr {| lp_leads := leads; lp_page := page; lp_limit := limit;
                lp_total := total;
                lp_pages := (total + limit - 1) / limit |}.

(** The leads on page [page]. *)
Definition page_leads (page limit : Z) (st : option string)
    (rows : list Lead) : list Lead :=
  match get_leads page limit st rows with
  | inr r => lp_leads r
  | inl _ => []
  end.

(** A cancel request is served at one of the first [n] ticks. *)
Definition cancelled_before (ticks : nat -> Tick) (n : nat) : Prop :=
  exists k, k < n /\ cancel_request (ticks k) = true.

(** The dicts among the new-lead arguments of a list of callbacks. *)
Definition forwarded (evs : list Scraper.Event) (d : Scraper.Details) : Prop :=
  exists ev, In ev evs /\ Scraper.ev_new_lead ev = Some d.

(** A dict the table of leads takes: its name is not [None]. *)
Definition savable (d : Scraper.Details) : bool :=
  match Scraper.name d with Some _ => true | None => false end.

(** A row saved from the dict [d]. *)
Definition row_of (d : Scraper.Details) (l : Lead) : Prop :=
  lead_name l = Scraper.name d /\ lead_phone l = Scraper.phone d
  /\ lead_website l = Scraper.website d /\ lead_email l = Scraper.email d.

(** The callback that opens a pass of the scroll loop or a step of the
    extraction loop. *)
Definition begins_step (ev : Scraper.Event) : bool :=
  String.prefix "Scroll " (Scraper.ev_message ev)
  || String.prefix "Processing listing " (Scraper.ev_message ev).

(** Number of passes and steps that begin at callback number [k] or later. *)
Definition steps_after (k : nat) (evs : list Scraper.Event) : nat :=
  length (List.filter begins_step (skipn k evs)).

(** No cancel request is served during the run. *)
Definition uninterrupted (sch : Schedule) : Prop :=
  (forall i, cancel_request (ticks sch i) = false)
  /\ cancel_request (teardown sch) = false.

(** Completed, cancelled or failed. *)
Definition terminal (st : Status) : bool :=
  match st with Completed | Cancelled | Failed => true | _ => false end.

(** The registry entry of the job and its row [id] both say [st]. *)
Definition agree (job_id : string) (id : nat) (st : Status) (s : State)
  : Prop :=
  exists j r, job_of job_id s = Some j /\ db_id j = id /\ status j = st
              /\ job_rows (db s) !! id = Some r /\ sj_status r = st.

(** A request that names a search term, or both a business type and a
    location. *)
Definition acceptable (r : ScrapingRequest) : bool :=
  Scraper.truthy_opt (req_search_term r)
  || (Scraper.truthy_opt (req_business_type r)
      && Scraper.truthy_opt (req_location r)).

(** The registry entry of the job and its row [id] both say status [st],
    progress [p] of [t] and [n] successful extractions. *)
Definition shows (job_id : string) (id : nat) (st : Status) (p t n : nat)
    (s : State) : Prop :=
  exists j r, job_of job_id s = Some j /\ db_id j = id /\ status j = st
    /\ progress j = p /\ total_listings j = t /\ successful_extractions j = n
    /\ job_rows (db s) !! id = Some r /\ sj_status r = st
    /\ sj_progress r = p /\ sj_total_listings r = t
    /\ sj_successful_extractions r = n.

End Server.

(* ===================================================================== *)
(** * The rate limiter *)
(* ===================================================================== *)

Module RateLimiter.

Local Open Scope Q_scope.

(** Floats are taken as rationals; [time.time()] is an argument. *)
Definition Qltb (x y : Q) : bool :=
  match x ?= y with Lt => true | _ => false end.

Record RateLimitConfig := {
  requests_per_period : Z;
  period_seconds : Z;
  burst_size : option Z;
  backoff_factor : Q;
  max_backoff : Q;
  jitter : bool
}.

(** The dataclass defaults: [burst_size=None], [backoff_factor=1.5],
    [max_backoff=300.0], [jitter=True]. *)
Definition mk_config (rpp period : Z) (burst : option Z) (bf : Q)
  : RateLimitConfig :=
  {| requests_per_period := rpp; period_seconds := period;
     burst_size := burst; backoff_factor := bf; max_backoff := 300;
     jitter := true |}.

Record RateLimiter := {
  config : RateLimitConfig;
  request_times : list Q;          (* the deque, oldest at the head *)
  last_request_time : Q;
  consecutive_failures : nat
}.

Definition init (c : RateLimitConfig) : RateLimiter :=
  {| config := c; request_times := []; last_request_time := 0;
     consecutive_failures := 0 |}.

(** [while self.request_times and self.request_times[0] < cutoff: popleft()]. *)
Fixpoint purge (cutoff : Q) (ts : list Q) : list Q :=
  match ts with
  | t :: ts' => if Qltb t cutoff then purge cutoff ts' else ts
  | [] => []
  end.

Definition with_times (ts : list Q) (rl : RateLimiter) : RateLimiter :=
  {| config := config rl; request_times := ts;
     last_request_time := last_request_time rl;
     consecutive_failures := consecutive_failures rl |}.

(** [can_make_request]: the answer, and the limiter with its deque purged. *)
Definition can_make_request (now : Q) (rl : RateLimiter) : bool * RateLimiter :=
  let cutoff := now - inject_Z (period_seconds (config rl)) in
  let ts := purge cutoff (request_times rl) in
  ((Z.of_nat (length ts) <? requests_per_period (config rl))%Z,
   with_times ts rl).

(** The exceptions [get_delay] can end in. *)
Inductive Error := IndexError | OverflowError.

(** The largest float, 2^1024 - 2^971.  ([backoff_factor] is a float, and
    so is its power.) *)
Definition float_max : Q := inject_Z (2 ^ 1024 - 2 ^ 971).

(** [x ** n] for a float [x] and an int [n >= 0]: the power, or [None] for
    the [OverflowError] of a power beyond the floats. *)
Definition float_pow (x : Q) (n : nat) : option Q :=
  let y := x ^ Z.of_nat n in
  if Qltb float_max (Qabs y) then None else Some y.

(** [min(backoff_factor ** consecutive_failures, max_backoff)]; [None] is
    the [OverflowError] of the power. *)
Definition backoff (c : RateLimitConfig) (failures : nat) : option Q :=
  match float_pow (backoff_factor c) failures with
  | Some p => Some (Qmin p (max_backoff c))
  | None => None
  end.

(** The last two statements of [get_delay]: the jitter, [u] being the draw
    of [random()] behind [random.uniform(0, delay * 0.1)], and
    [max(0, delay)]. *)
Definition with_jitter (c : RateLimitConfig) (u delay : Q) : Q :=
  let delay :=
    if jitter c then delay + (0 + (delay * (1 # 10) - 0) * u) else delay in
  Qmax 0 delay.

(** [get_delay].  [now1] and [now2] are its two readings of the clock.
    It ends in the [IndexError] of [request_times[0]] on an empty deque,
    or in the [OverflowError] of the power. *)
Definition get_delay (now1 now2 u : Q) (rl : RateLimiter)
  : (Error + Q) * RateLimiter :=
  let '(ok, rl') := can_make_request now1 rl in
  if ok then (inr 0, rl')
  else
    match request_times rl' with
    | [] => (inl IndexError, rl')
    | oldest_request :: _ =>
        let c := config rl' in
        let delay := (oldest_request + inject_Z (period_seconds c)) - now2 in
        if (0 <? consecutive_failures rl')%nat
        then
          match backoff c (consecutive_failures rl') with
          | Some b => (inr (with_jitter c u (Qmax delay b)), rl')
          | None => (inl OverflowError, rl')
          end
        else (inr (with_jitter c u delay), rl')
    end.

(** [record_request]. *)
Definition record_request (now : Q) (success : bool) (rl : RateLimiter)
  : RateLimiter :=
  {| config := config rl;
     request_times := request_times rl ++ [now];
     last_request_time := now;
     consecutive_failures :=
       if success then 0%nat else (consecutive_failures rl + 1)%nat |}.

Definition reset (rl : RateLimiter) : RateLimiter :=
  {| config := config rl; request_times := [];
     last_request_time := last_request_time rl;
     consecutive_failures := 0 |}.

(** [GlobalRateLimiter.default_configs]. *)
Definition default_configs (channel : string) : option RateLimitConfig :=
  if String.eqb channel "scraping" then Some (mk_config 10 60 (Some 3%Z) 2)
  else if String.eqb channel "email" then Some (mk_config 50 86400 None (3 # 2))
  else if String.eqb channel "analysis" then Some (mk_config 20 60 (Some 5%Z) (3 # 2))
  else if String.eqb channel "llm" then Some (mk_config 30 60 None (9 # 5))
  else None.

(** Timestamps older than the window, and those inside it. *)
Definition in_window (cutoff : Q) (t : Q) : bool := negb (Qltb t cutoff).

(** The deque holds clock readings in the order they were taken. *)
Definition ordered (ts : list Q) : Prop := Sorted Qle ts.


(** ** The rest of the module *)

(** [wait_if_needed]: the time slept ([time.sleep] is called only for a
    positive delay), or the exception of [get_delay]. *)
Definition wait_if_needed (now1 now2 u : Q) (rl : RateLimiter)
  : (Error + Q) * RateLimiter :=
  match get_delay now1 now2 u rl with
  | (inr delay, rl') => (inr (if Qltb 0 delay then delay else 0), rl')
  | (inl e, rl') => (inl e, rl')
  end.

(** The limiters of [GlobalRateLimiter], by name.  A limiter is a shared
    object: what [record_request] does to it is seen under its name. *)
Definition get_limiter (name : string) (cfg : option RateLimitConfig)
    (limiters : gmap string RateLimiter)
  : option RateLimiter * gmap string RateLimiter :=
  match limiters !! name with
  | Some rl => (Some rl, limiters)
  | None =>
      match (match cfg with
             | Some c => Some c
             | None => default_configs name
             end) with
      | Some c => (Some (init c), <[name := init c]> limiters)
      | None => (None, limiters)    (* ValueError *)
      end
  end.

(** [GlobalRateLimiter.record_request]; [None] is the [ValueError]. *)
Definition global_record_request (name : string) (now : Q) (success : bool)
    (limiters : gmap string RateLimiter) : option (gmap string RateLimiter) :=
  match get_limiter name None limiters with
  | (Some rl, limiters') =>
      Some (<[name := record_request now success rl]> limiters')
  | (None, _) => None
  end.

(** [GlobalRateLimiter.wait_for]: the time slept and the limiters, or
    [None] for an exception ([ValueError], [IndexError] or
    [OverflowError]). *)
Definition global_wait_for (name : string) (now1 now2 u : Q)
    (limiters : gmap string RateLimiter)
  : option (Q * gmap string RateLimiter) :=
  match get_limiter name None limiters with
  | (Some rl, limiters') =>
      match wait_if_needed now1 now2 u rl with
      | (inr slept, rl') => Some (slept, <[name := rl']> limiters')
      | (inl _, _) => None
      end
  | (None, _) => None
  end.

(** [adaptive_delay]; [u] is the draw of [random()] behind
    [random.uniform(-0.2, 0.2)]. *)
Definition adaptive_delay (base_delay : Q) (failure_count : Z) (max_delay u : Q)
  : Q :=
  if (failure_count =? 0)%Z then base_delay
  else
    let delay := base_delay * 2 ^ (Z.min failure_count 10) in
    let delay := Qmin delay max_delay in
    let jitter := (- (1 # 5) + ((1 # 5) - - (1 # 5)) * u) * delay in
    Qmax 0 (delay + jitter).

(** [smart_delay]; [u] is the draw behind [random.uniform(0.8, 1.2)]. *)
Definition smart_delay (min_delay max_delay success_rate u : Q) : Q :=
  let delay_range := max_delay - min_delay in
  let delay := min_delay + delay_range * (1 - success_rate) in
  let jitter := (4 # 5) + ((6 # 5) - (4 # 5)) * u in
  delay * jitter.

(** [SlidingWindowCounter]. *)
Record SlidingWindowCounter := {
  window_size : Z;
  requests : list Q
}.

(** [_cleanup] at clock reading [now]. *)
Definition _cleanup (now : Q) (w : SlidingWindowCounter) : SlidingWindowCounter :=
  {| window_size := window_size w;
     requests := purge (now - inject_Z (window_size w)) (requests w) |}.

(** [add_request(timestamp)]: [now1] is read when no timestamp is given,
    [now2] by [_cleanup]. *)
Definition add_request (timestamp : option Q) (now1 now2 : Q)
    (w : SlidingWindowCounter) : SlidingWindowCounter :=
  let t := match timestamp with Some t => t | None => now1 end in
  _cleanup now2 {| window_size := window_size w;
                   requests := requests w ++ [t] |}.

Definition get_count (now : Q) (w : SlidingWindowCounter)
  : nat * SlidingWindowCounter :=
  (length (requests (_cleanup now w)), _cleanup now w).

(** ** Notions used to state further properties *)

(** Number of timestamps of the deque no older than now - period_seconds. *)
Definition window_count (now : Q) (rl : RateLimiter) : nat :=
  length (List.filter
            (in_window (now - inject_Z (period_seconds (config rl))))
            (request_times rl)).

(** The states a limiter goes through when the calls of a function
    decorated with [rate_limited] come one after the other, none starting
    before the one before it has recorded its request: [wait_if_needed],
    then the request, then [record_request], under a clock that does not
    run backwards.  A call in which [get_delay] raises makes no request.
    [time.sleep] returns when the delay is over or later: [later due now3]
    says how the clock reading [now3] at which the request is recorded
    lies to the end [due] of the delay, [Qle] being all [time.sleep]
    promises.  [served later c rl t]: [rl] is such a state and [t] its
    last clock reading. *)
Inductive served (later : Q -> Q -> Prop) (c : RateLimitConfig)
  : RateLimiter -> Q -> Prop :=
| served_init t : served later c (init c) t
| served_next rl t now1 now2 u now3 delay rl' success :
    served later c rl t ->
    t <= now1 -> now1 <= now2 -> 0 <= u ->
    get_delay now1 now2 u rl = (inr delay, rl') ->
    later (now2 + delay) now3 ->
    served later c (record_request now3 success rl') now3
| served_raise rl t now1 now2 u e rl' :
    served later c rl t ->
    t <= now1 -> now1 <= now2 ->
    get_delay now1 now2 u rl = (inl e, rl') ->
    served later c rl' now2.

End RateLimiter.

(* ===================================================================== *)
(** * The proxy rotator *)
(* ===================================================================== *)

Module ProxyRotation.

Record ProxyRotator := {
  proxies : list string;
  last_update : Z;
  update_interval : Z
}.

(** The network and the random generator as the rotator uses them. *)
Record Net := {
  http_get : string -> option (list string);
    (* the stripped non-empty lines of a 200 response; None for another
       status or an exception *)
  proxy_alive : string -> bool;          (* test_proxy: the probe answers 200 *)
  sample_indices : nat -> nat -> list nat
    (* random.sample(population, k): the positions drawn from a population
       of the given size *)
}.

Definition proxy_sources : list string :=
  ["https://raw.githubusercontent.com/TheSpeedX/PROXY-List/master/http.txt";
   "https://raw.githubusercontent.com/clarketm/proxy-list/master/proxy-list-raw.txt";
   "https://raw.githubusercontent.com/sunny9577/proxy-scraper/master/proxies.txt"].

(** [str.split(':')]. *)
Fixpoint split_colon (cur : string) (s : string) : list string :=
  match s with
  | EmptyString => [String.rev cur]
  | String c s' =>
      if Ascii.eqb c ":"%char then String.rev cur :: split_colon "" s'
      else split_colon (String c cur) s'
  end.

(** Texts are taken over the code points below 256.  There
    [str.isdigit()] accepts the ten ASCII digits and the superscripts two,
    three and one (code points 178, 179 and 185). *)
Definition is_digit (c : ascii) : bool :=
  let n := nat_of_ascii c in
  ((48 <=? n) && (n <=? 57)) || (n =? 178) || (n =? 179) || (n =? 185).

(** [str.isdigit()]. *)
Fixpoint all_digits (s : string) : bool :=
  match s with
  | EmptyString => true
  | String c s' => is_digit c && all_digits s'
  end.

Definition isdigit (s : string) : bool :=
  match s with EmptyString => false | _ => all_digits s end.

(** [':' in proxy and len(proxy.split(':')) == 2] and [port.isdigit()]. *)
Definition valid_proxy (p : string) : bool :=
  match split_colon "" p with
  | [_; port] => isdigit port
  | _ => false
  end.

(** [_load_proxies]: the new state and the URLs it requested. *)
Definition _load_proxies (net : Net) (r : ProxyRotator)
  : ProxyRotator * list string :=
  let all_proxies :=
    flat_map (fun src => match http_get net src with
                         | Some ls => ls | None => [] end) proxy_sources in
  ({| proxies := List.map (fun p => "http://" +:+ p)
                   (List.filter valid_proxy all_proxies);
      last_update := last_update r;
      update_interval := update_interval r |},
   proxy_sources).

(** [ProxyRotator()]. *)
Definition init (net : Net) : ProxyRotator * list string :=
  _load_proxies net {| proxies := []; last_update := 0; update_interval := 3600 |}.

(** [get_working_proxy] at time [now] (which the method never reads): the
    proxy returned, the new state, and the source URLs requested. *)
Definition get_working_proxy (net : Net) (now : Z) (r : ProxyRotator)
  : option string * ProxyRotator * list string :=
  let '(r1, fetched) :=
    match proxies r with
    | [] => _load_proxies net r
    | _ => (r, [])
    end in
  let tested_proxies :=
    omap (fun i => proxies r1 !! i)
         (sample_indices net (length (proxies r1))
                         (Nat.min 10 (length (proxies r1)))) in
  (List.find (proxy_alive net) tested_proxies, r1, fetched).

(** What a time gate would ask for: the interval has elapsed. *)
Definition refresh_due (now : Z) (r : ProxyRotator) : bool :=
  (last_update r + update_interval r <=? now)%Z.

(** ** The rest of the class *)

(** [get_proxy]; [pick] is the position [random.choice] draws. *)
Definition get_proxy (net : Net) (pick : nat) (r : ProxyRotator)
  : option string * ProxyRotator * list string :=
  let '(r1, fetched) :=
    match proxies r with
    | [] => _load_proxies net r
    | _ => (r, [])
    end in
  (match proxies r1 with
   | [] => None
   | _ => proxies r1 !! (pick mod length (proxies r1))
   end, r1, fetched).

(** ** Notions used to state further properties *)

(** [':'.join(parts)]. *)
Fixpoint join_colon (parts : list string) : string :=
  match parts with
  | [] => ""
  | x :: rest =>
      match rest with
      | [] => x
      | _ => x +:+ ":" +:+ join_colon rest
      end
  end.

(** [':' not in s]. *)
Fixpoint colon_free (s : string) : bool :=
  match s with
  | EmptyString => true
  | String c s' => negb (Ascii.eqb c ":"%char) && colon_free s'
  end.

End ProxyRotation.

(* ===================================================================== *)
(** * Concrete pages, schedules and limiters used below *)
(* ===================================================================== *)

Module Examples.

Import Scraper.

(** A page that shows one more card after every scroll and whose spinner
    never goes away. *)
Definition growing_page : Page :=
  {| listings_found := true;
     scroll_obs := fun i => {| obs_count := i + 1; obs_loading := true;
                               obs_spinner_hides := false |};
     final_count := 102;
     listing := fun _ => ClickRaises |}.

(** A page with five cards from the start and no spinner. *)
Definition static_page : Page :=
  {| listings_found := true;
     scroll_obs := fun _ => {| obs_count := 5; obs_loading := false;
                               obs_spinner_hides := true |};
     final_count := 5;
     listing := fun _ => ClickRaises |}.

(** Three cards after the first scroll, five from the second on, with the
    spinner always showing. *)
Definition busy_page : Page :=
  {| listings_found := true;
     scroll_obs := fun i => {| obs_count := if i =? 0 then 3 else 5;
                               obs_loading := true;
                               obs_spinner_hides := false |};
     final_count := 5;
     listing := fun _ => ClickRaises |}.

(** A dict with nothing but a website, and a page listing just it. *)
Definition website_only : Details :=
  {| name := Some ""; phone := ""; website := "https://example.com";
     email := "" |}.

Definition one_listing (d : Details) : Page :=
  {| listings_found := true;
     scroll_obs := fun _ => {| obs_count := 1; obs_loading := false;
                               obs_spinner_hides := true |};
     final_count := 1;
     listing := fun _ => Extracted (Some d) |}.

(** A dict with a name and a website. *)
Definition named_site : Details :=
  {| name := Some "Acme Plumbing"; phone := "";
     website := "https://acme.example"; email := "" |}.

(** Three listings, each with a name and a website. *)
Definition three_listings : Page :=
  {| listings_found := true;
     scroll_obs := fun _ => {| obs_count := 3; obs_loading := false;
                               obs_spinner_hides := true |};
     final_count := 3;
     listing := fun _ => Extracted (Some named_site) |}.

(** A page on which [_wait_for_listings] finds nothing. *)
Definition no_listings : Page :=
  {| listings_found := false;
     scroll_obs := fun _ => {| obs_count := 0; obs_loading := false;
                               obs_spinner_hides := true |};
     final_count := 0;
     listing := fun _ => ClickRaises |}.

(** One second passes between callbacks; a cancel request is served just
    before callback number [k], if [k] is given. *)
Definition schedule (cancel_at : option nat) : Server.Schedule :=
  {| Server.started := 0%Z;
     Server.ticks := fun i =>
       {| Server.now := (Z.of_nat i + 1)%Z;
          Server.cancel_request :=
            match cancel_at with Some k => i =? k | None => false end |};
     Server.teardown :=
       {| Server.now := 1000%Z; Server.cancel_request := false |} |}.

Definition show_seconds (x : Z) : string := pretty x +:+ ".0".

Definition no_jobs : Server.State :=
  {| Server.active_jobs := ∅;
     Server.db := {| Server.job_rows := ∅; Server.lead_rows := [] |} |}.

(** The server just after [start_scraping] has registered one job. *)
Definition one_job : Server.State :=
  Server.start_scraping "job-1" "plumbers in Austin" 1 0%Z no_jobs.

(** A limiter of two requests a minute that has seen three failed requests,
    and one of the scraping channel that has seen none. *)
Definition busy_limiter : RateLimiter.RateLimiter :=
  {| RateLimiter.config := RateLimiter.mk_config 2 60 None 2;
     RateLimiter.request_times := [10; 50; 90]%Q;
     RateLimiter.last_request_time := 90%Q;
     RateLimiter.consecutive_failures := 3 |}.

Definition idle_limiter : RateLimiter.RateLimiter :=
  RateLimiter.init (RateLimiter.mk_config 10 60 (Some 3%Z) 2).

(** A rotator holding one proxy, loaded at time 0, and a network on which
    every source answers with one fresh proxy and every probe succeeds. *)
Definition cached_rotator : ProxyRotation.ProxyRotator :=
  {| ProxyRotation.proxies := ["http://10.0.0.1:8080"];
     ProxyRotation.last_update := 0;
     ProxyRotation.update_interval := 3600 |}.

Definition live_net : ProxyRotation.Net :=
  {| ProxyRotation.http_get := fun _ => Some ["10.0.0.2:3128"];
     ProxyRotation.proxy_alive := fun _ => true;
     ProxyRotation.sample_indices := fun _ k => seq 0 k |}.

(** A network on which every request fails. *)
Definition dead_net : ProxyRotation.Net :=
  {| ProxyRotation.http_get := fun _ => None;
     ProxyRotation.proxy_alive := fun _ => false;
     ProxyRotation.sample_indices := fun _ k => seq 0 k |}.

(** A limiter of one request per ten seconds after two requests made the
    way [rate_limited] makes them, recorded at times 1 and 12. *)
Definition twice_served : RateLimiter.RateLimiter :=
  RateLimiter.record_request 12 true
    (snd (RateLimiter.get_delay 2 2 0
            (RateLimiter.record_request 1 true
               (snd (RateLimiter.get_delay 0 0 0
                       (RateLimiter.init (RateLimiter.mk_config 1 10 None 2))))))).

(** A limiter of two requests a minute whose clock ran backwards between
    its two requests, and one whose window is full, after the given number
    of failures. *)
Definition stale_tail_limiter : RateLimiter.RateLimiter :=
  {| RateLimiter.config := RateLimiter.mk_config 2 60 None 2;
     RateLimiter.request_times := [100; 10]%Q;
     RateLimiter.last_request_time := 10%Q;
     RateLimiter.consecutive_failures := 0 |}.


(** The same limiter after two requests of which the second is recorded
    at the very moment its delay ends: times 0 and 10. *)
Definition on_time_served : RateLimiter.RateLimiter :=
  RateLimiter.record_request 10 true
    (snd (RateLimiter.get_delay 5 5 0
            (RateLimiter.record_request 0 true
               (snd (RateLimiter.get_delay 0 0 0
                       (RateLimiter.init (RateLimiter.mk_config 1 10 None 2))))))).

(** A limiter whose clock ran backwards between two requests. *)
Definition disordered_limiter : RateLimiter.RateLimiter :=
  {| RateLimiter.config := RateLimiter.mk_config 3 60 None 2;
     RateLimiter.request_times := [100; 10]%Q;
     RateLimiter.last_request_time := 10%Q;
     RateLimiter.consecutive_failures := 0 |}.

(** The callbacks a scrape of the page makes. *)
Definition events_of (pg : Page) : list Event :=
  match scrape_with_progress pg with
  | Some (evs, _) => evs
  | None => []
  end.

(** The server at the moment [run_scraping_job] calls the scraper. *)
Definition running_job : Server.State :=
  match Server.active_jobs one_job !! "job-1" with
  | Some j =>
      Server.row_running (Server.db_id j)
        (Server.enter_running "job-1" 0%Z j one_job)
  | None => one_job
  end.

(** The server when callback number [k] comes, a cancel request having
    been served just before it. *)
Definition cancelled_at (k : nat) (pg : Page) : Server.State :=
  Server.serve "job-1" (Server.ticks (schedule (Some k)) k)
    (Server.deliver show_seconds "job-1" (Server.ticks (schedule (Some k))) 0
       (firstn k (events_of pg)) running_job).

(** The server after a whole run of the job. *)
Definition after_run (cancel_at : option nat) (pg : Page)
  : option Server.State :=
  match Server.run_scraping_job show_seconds "job-1" (schedule cancel_at) pg
          one_job with
  | Some (s, _) => Some s
  | None => None
  end.

(** A page whose count goes back and forth between three and four, with no
    spinner. *)
Definition flickering_page : Page :=
  {| listings_found := true;
     scroll_obs := fun i => {| obs_count := if Nat.even i then 3 else 4;
                               obs_loading := false;
                               obs_spinner_hides := true |};
     final_count := 4;
     listing := fun _ => Extracted (Some named_site) |}.

(** A request that gives a business type and a location. *)
Definition typed_request : Server.ScrapingRequest :=
  {| Server.req_search_term := None;
     Server.req_business_type := Some "plumbers";
     Server.req_location := Some "Austin" |}.

(** A request that gives nothing. *)
Definition empty_request : Server.ScrapingRequest :=
  {| Server.req_search_term := None;
     Server.req_business_type := None;
     Server.req_location := None |}.

(** Three rows of the table of leads. *)
Definition lead_named (n : string) : Server.Lead :=
  {| Server.lead_name := Some n; Server.lead_phone := "";
     Server.lead_website := "https://" +:+ n +:+ ".example";
     Server.lead_email := ""; Server.lead_location := "plumbers in Austin";
     Server.lead_business_type := "plumbers"; Server.lead_status := "new" |}.

Definition three_rows : list Server.Lead :=
  [lead_named "acme"; lead_named "bolt"; lead_named "cody"].

(** The registry entry of the job of [one_job]. *)
Definition job_1 : Server.Job :=
  {| Server.db_id := 1; Server.status := Server.Running;
     Server.progress := 0; Server.total_listings := 0;
     Server.successful_extractions := 0;
     Server.message := "Starting scraping job...";
     Server.start_time := 0%Z;
     Server.loading_start_time := None;
     Server.scraping_start_time := None;
     Server.search_term := "plumbers in Austin" |}.

End Examples.

(* ===================================================================== *)
(** * Facts about the scroll loop *)
(* ===================================================================== *)

Module ScrollFacts.

Import Scraper.

Lemma scroll_outcome_S fuel pg st :
  scroll_outcome (S fuel) pg st =
  match snd (scroll_step pg st) with
  | inl r => Some r
  | inr st' => scroll_outcome fuel pg st'
  end.
Proof.
  unfold scroll_outcome; simpl.
  destruct (scroll_step pg st) as [evs [[why st']|st']]; simpl; [reflexivity|].
  destruct (scroll_loop fuel pg st') as [[[evs' why] st'']|]; reflexivity.
Qed.

(** A pass either breaks or goes on with one more scroll, at most 100. *)
Lemma scroll_step_cases pg st :
  match snd (scroll_step pg st) with
  | inl (ScrollLimit, st') => scrolls st' = scrolls st + 1 /\ 100 < scrolls st'
  | inl (_, st') => scrolls st' = scrolls st
  | inr st' => scrolls st' = scrolls st + 1 /\ scrolls st' <= 100
  end.
Proof.
  unfold scroll_step.
  set (st1 := compare_counts st _).
  assert (H1 : scrolls st1 = scrolls st).
  { unfold st1, compare_counts. destruct (_ =? _)%Z; reflexivity. }
  destruct (max_consecutive_no_new <=? _); simpl; [exact H1|].
  destruct (_ && _); simpl; [exact H1|].
  unfold scroll_limit.
  destruct (Nat.ltb_spec 100 (scrolls st1 + 1)); simpl; lia.
Qed.

(** With enough fuel to reach scroll 101 the loop takes a [break], after at
    most 101 passes. *)
Lemma scroll_outcome_total pg :
  forall fuel st, 101 <= scrolls st + fuel -> scrolls st <= 100 ->
  exists why st', scroll_outcome fuel pg st = Some (why, st')
                  /\ iterations why st' <= 101.
Proof.
  induction fuel as [|fuel IH]; intros st Hf Hs; [lia|].
  rewrite scroll_outcome_S.
  pose proof (scroll_step_cases pg st) as Hc.
  destruct (snd (scroll_step pg st)) as [[why st']|st'].
  - exists why, st'; split; [reflexivity|].
    destruct why; simpl; lia.
  - destruct Hc as [He Hle]. apply IH; lia.
Qed.

Lemma passes_total pg : exists n, passes pg = Some n /\ n <= 101.
Proof.
  destruct (scroll_outcome_total pg scroll_fuel scroll_init) as (why & st & H & Hn);
    [unfold scroll_fuel, scroll_init; simpl; lia .. |].
  unfold passes; rewrite H; eauto.
Qed.

Lemma scroll_loop_total pg :
  exists evs why st, scroll_loop scroll_fuel pg scroll_init = Some (evs, why, st).
Proof.
  destruct (scroll_outcome_total pg scroll_fuel scroll_init) as (why & st & H & _);
    [unfold scroll_fuel, scroll_init; simpl; lia .. |].
  unfold scroll_outcome in H.
  destruct (scroll_loop scroll_fuel pg scroll_init) as [[[evs w] s]|]; [|discriminate].
  eauto.
Qed.

(** C1.  On a page that shows a new card after every scroll and never hides
    its spinner, the scroll loop of [_scroll_and_load] leaves through the
    safety [break] only after its 101st pass, having scrolled 101 times:
    one more than the limit of 100 its own warning names. *)
Theorem scroll_limit_overshoot :
  scroll_outcome Scraper.scroll_fuel Examples.growing_page scroll_init
  = Some (ScrollLimit,
          {| previous_count := 101; same_count_repeats := 0; scrolls := 101;
             consecutive_no_new_results := 0 |})
  /\ passes Examples.growing_page = Some 101
  /\ scroll_limit < 101.
Proof. repeat split; vm_compute; reflexivity || lia. Qed.

(** ** Stale pages *)

Lemma step_changed pg prev c s :
  Z.of_nat (obs_count (scroll_obs pg s)) <> prev -> s < 100 ->
  snd (scroll_step pg (counters prev c s))
  = inr (counters (Z.of_nat (obs_count (scroll_obs pg s))) 0 (s + 1)).
Proof.
  intros Hne Hs. unfold scroll_step, compare_counts; simpl.
  destruct (Z.eqb_spec (Z.of_nat (obs_count (scroll_obs pg s))) prev) as [E|_];
    [contradiction|]; simpl.
  unfold scroll_limit. destruct (Nat.ltb_spec 100 (s + 1)); [lia|reflexivity].
Qed.

Lemma step_stale pg v c s :
  obs_count (scroll_obs pg s) = v ->
  snd (scroll_step pg (counters (Z.of_nat v) c s))
  = if 10 <=? c + 1 then inl (NoNewResults, counters (Z.of_nat v) (c + 1) s)
    else if (8 <=? c + 1) && negb (obs_loading (scroll_obs pg s))
    then inl (SameCountNoSpinner, counters (Z.of_nat v) (c + 1) s)
    else if 100 <? s + 1
    then inl (ScrollLimit, counters (Z.of_nat v) (c + 1) (s + 1))
    else inr (counters (Z.of_nat v) (c + 1) (s + 1)).
Proof.
  intros Hv.
  unfold scroll_step, compare_counts, counters, max_consecutive_no_new,
    max_same_count, scroll_limit.
  cbn [previous_count same_count_repeats scrolls consecutive_no_new_results].
  rewrite Hv, Z.eqb_refl.
  cbn [previous_count same_count_repeats scrolls consecutive_no_new_results].
  destruct (10 <=? c + 1); [reflexivity|].
  destruct ((8 <=? c + 1) && _); [reflexivity|].
  destruct (100 <? s + 1); reflexivity.
Qed.

(** Passes that each read a new count leave the counters at zero. *)
Lemma run_changing pg :
  forall m fuel prev c s,
    1 <= m -> s + m <= 100 ->
    Z.of_nat (obs_count (scroll_obs pg s)) <> prev ->
    (forall i, 1 <= i < m -> obs_count (scroll_obs pg (s + i))
                             <> obs_count (scroll_obs pg (s + i - 1))) ->
    scroll_outcome (m + fuel) pg (counters prev c s)
    = scroll_outcome fuel pg
        (counters (Z.of_nat (obs_count (scroll_obs pg (s + m - 1)))) 0 (s + m)).
Proof.
  induction m as [|m IH]; intros fuel prev c s Hm Hs Hne Hch; [lia|].
  change (S m + fuel) with (S (m + fuel)).
  rewrite scroll_outcome_S, step_changed by (auto; lia).
  destruct m as [|m].
  - simpl. replace (s + 1 - 1) with s by lia. reflexivity.
  - rewrite IH.
    + f_equal. f_equal; [do 3 f_equal; lia | lia].
    + lia.
    + lia.
    + specialize (Hch 1 ltac:(lia)).
      replace (s + 1 - 1) with s in Hch by lia. lia.
    + intros i Hi. specialize (Hch (S i) ltac:(lia)).
      assert (E1 : s + 1 + i = s + S i) by lia.
      assert (E2 : s + 1 + i - 1 = s + S i - 1) by lia.
      rewrite E2, E1. exact Hch.
Qed.

(** Passes that read the same count again, fewer than eight in all, go on. *)
Lemma run_stale pg v :
  forall j fuel c s,
    c + j < 8 -> s + j <= 100 ->
    (forall i, s <= i -> obs_count (scroll_obs pg i) = v) ->
    scroll_outcome (j + fuel) pg (counters (Z.of_nat v) c s)
    = scroll_outcome fuel pg (counters (Z.of_nat v) (c + j) (s + j)).
Proof.
  induction j as [|j IH]; intros fuel c s Hc Hs Hv.
  - simpl. rewrite !Nat.add_0_r. reflexivity.
  - change (S j + fuel) with (S (j + fuel)).
    rewrite scroll_outcome_S, step_stale by (apply Hv; lia).
    destruct (Nat.leb_spec 10 (c + 1)); [lia|].
    destruct (Nat.leb_spec 8 (c + 1)); [lia|]. simpl.
    destruct (Nat.ltb_spec 100 (s + 1)); [lia|].
    rewrite IH by (try lia; intros; apply Hv; lia).
    f_equal. f_equal; lia.
Qed.

(** What a pass that goes on leaves behind. *)
Lemma scroll_step_continues pg st st' :
  snd (scroll_step pg st) = inr st' ->
  previous_count st' = Z.of_nat (obs_count (scroll_obs pg (scrolls st)))
  /\ scrolls st' = scrolls st + 1 /\ scrolls st' <= 100.
Proof.
  intros H. pose proof (scroll_step_cases pg st) as Hc. rewrite H in Hc.
  split; [|exact Hc].
  revert H. unfold scroll_step.
  destruct (max_consecutive_no_new <=? _); simpl; [discriminate|].
  destruct (_ && _); simpl; [discriminate|].
  destruct (scroll_limit <? _); simpl; [discriminate|].
  intros [= <-]. reflexivity.
Qed.

(** After [m] passes the loop has either stopped or made [m] scrolls. *)
Lemma run_prefix pg :
  forall m fuel st,
    1 <= m ->
    (exists why st', scroll_outcome (m + fuel) pg st = Some (why, st')
                     /\ iterations why st' <= scrolls st + m)
    \/ (exists st', scroll_outcome (m + fuel) pg st = scroll_outcome fuel pg st'
                    /\ scrolls st' = scrolls st + m
                    /\ previous_count st'
                       = Z.of_nat (obs_count (scroll_obs pg (scrolls st + m - 1)))).
Proof.
  induction m as [|m IH]; intros fuel st Hm; [lia|].
  change (S m + fuel) with (S (m + fuel)).
  rewrite scroll_outcome_S.
  pose proof (scroll_step_cases pg st) as Hc.
  destruct (snd (scroll_step pg st)) as [[why st1]|st1] eqn:E.
  - left. exists why, st1. split; [reflexivity|].
    destruct why; simpl; lia.
  - apply scroll_step_continues in E as (Hp & Hs & _).
    destruct m as [|m].
    + right. exists st1. simpl. repeat split; [lia|].
      rewrite Hp. do 3 f_equal. lia.
    + destruct (IH fuel st1 ltac:(lia)) as [(why & st' & H & Hi)|(st' & H & Hs' & Hp')].
      * left. exists why, st'. split; [exact H|lia].
      * right. exists st'. split; [exact H|]. split; [lia|].
        rewrite Hp'. do 3 f_equal. lia.
Qed.

(** Once the count no longer changes, the tenth stale pass at the latest
    takes a [break]. *)
Lemma run_to_stop pg v :
  forall d fuel st,
    1 <= d <= fuel -> 10 <= consecutive_no_new_results st + d ->
    previous_count st = Z.of_nat v ->
    (forall i, scrolls st <= i -> obs_count (scroll_obs pg i) = v) ->
    exists why st', scroll_outcome fuel pg st = Some (why, st')
                    /\ iterations why st' <= scrolls st + d.
Proof.
  induction d as [|d IH]; intros fuel st Hd Hc Hp Hv; [lia|].
  destruct fuel as [|fuel]; [lia|].
  rewrite scroll_outcome_S.
  pose proof (scroll_step_cases pg st) as Hcs.
  destruct (snd (scroll_step pg st)) as [[why st1]|st1] eqn:E.
  - exists why, st1. split; [reflexivity|]. destruct why; simpl; lia.
  - assert (Hn : consecutive_no_new_results st1 = consecutive_no_new_results st + 1
                 /\ consecutive_no_new_results st1 < 10).
    { revert E. unfold scroll_step, compare_counts.
      rewrite Hp, (Hv (scrolls st)), Z.eqb_refl by lia.
      cbn [previous_count same_count_repeats scrolls consecutive_no_new_results].
      unfold max_consecutive_no_new.
      destruct (Nat.leb_spec 10 (consecutive_no_new_results st + 1));
        cbn [snd]; [discriminate|].
      destruct (_ && _); cbn [snd]; [discriminate|].
      destruct (scroll_limit <? _); cbn [snd]; [discriminate|].
      intros [= <-]. cbn [consecutive_no_new_results]. lia. }
    apply scroll_step_continues in E as (Hp1 & Hs1 & _).
    destruct (IH fuel st1) as (why & st' & H & Hi); try lia.
    + rewrite Hp1, (Hv (scrolls st)) by lia. reflexivity.
    + intros i Hi. apply Hv. lia.
    + exists why, st'. split; [exact H|lia].
Qed.

(** C2, as stated, fails.  The page with five cards from the start and no
    spinner stops changing after pass 1, yet the loop ends on pass 9, by the
    backup condition (eight stale passes and no spinner), not on pass
    1 + 10. *)
Lemma static_page_stops_early :
  1 <= 1 /\ constant_from Examples.static_page 1
  /\ passes Examples.static_page = Some 9
  /\ passes Examples.static_page <> Some (1 + max_consecutive_no_new).
Proof.
  split; [lia|]. split; [intros i _; reflexivity|].
  split; [vm_compute; reflexivity | vm_compute; discriminate].
Qed.

(** C2, amended.  If the count read on pass [k] is read again on every
    later pass, the loop ends on pass [k + 10] at the latest.  If moreover
    every pass up to [k] read a new count and [k + 10] is within the 101
    passes the loop can make, it ends on pass [k + 8] or [k + 9] when no
    spinner shows on that pass, and on pass [k + 10] when the spinner shows
    on both. *)
Theorem stale_page_stops pg k :
  1 <= k -> constant_from pg k ->
  (exists n, passes pg = Some n /\ n <= k + max_consecutive_no_new)
  /\ (changing_until pg k -> k + max_consecutive_no_new <= 101 ->
      passes pg = Some (if negb (loading_on pg (k + 8)) then k + 8
                        else if negb (loading_on pg (k + 9)) then k + 9
                        else k + 10)).
Proof.
  intros Hk Hconst. unfold max_consecutive_no_new. split.
  - destruct (le_lt_dec 101 (k + 10)) as [Hbig|Hsmall].
    { destruct (passes_total pg) as (n & Hn & Hle). exists n. split; [exact Hn|lia]. }
    unfold passes, scroll_fuel.
    replace 101 with (k + (101 - k)) by lia.
    destruct (run_prefix pg k (101 - k) scroll_init Hk)
      as [(why & st & H & Hi)|(st & H & Hs & Hp)].
    + rewrite H. exists (iterations why st). split; [reflexivity|].
      simpl in Hi. lia.
    + rewrite H. simpl in Hs, Hp.
      destruct (run_to_stop pg (obs_count (scroll_obs pg (k - 1))) 10 (101 - k) st)
        as (why & st' & H' & Hi);
        [lia | lia | exact Hp | intros i Hi; apply Hconst; lia |].
      rewrite H'. exists (iterations why st'). split; [reflexivity|lia].
  - intros Hch Hfit. unfold passes, scroll_fuel, loading_on.
    set (v := obs_count (scroll_obs pg (k - 1))).
    assert (Hv : forall i, k <= i -> obs_count (scroll_obs pg i) = v)
      by (intros; apply Hconst; lia).
    replace 101 with (k + (7 + (3 + (91 - k)))) by lia.
    change scroll_init with (counters (-1) 0 0).
    rewrite (run_changing pg k); [| lia | lia | lia |].
    2:{ intros i Hi. simpl. apply Hch. exact Hi. }
    simpl (0 + k). fold v.
    rewrite (run_stale pg v 7) by (try lia; exact Hv).
    change (3 + (91 - k)) with (S (S (S (91 - k)))).
    rewrite scroll_outcome_S, step_stale by (apply Hv; lia).
    replace (k + 8 - 1) with (k + 7) by lia.
    replace (k + 9 - 1) with (k + 8) by lia.
    change (10 <=? 0 + 7 + 1) with false. change (8 <=? 0 + 7 + 1) with true.
    cbv iota. rewrite andb_true_l.
    destruct (negb (obs_loading (scroll_obs pg (k + 7)))).
    { simpl. f_equal. lia. }
    destruct (Nat.ltb_spec 100 (k + 7 + 1)); [lia|].
    rewrite scroll_outcome_S, step_stale by (apply Hv; lia).
    change (10 <=? 0 + 7 + 1 + 1) with false. change (8 <=? 0 + 7 + 1 + 1) with true.
    cbv iota. rewrite andb_true_l.
    replace (k + 7 + 1) with (k + 8) by lia.
    destruct (negb (obs_loading (scroll_obs pg (k + 8)))).
    { simpl. f_equal. lia. }
    destruct (Nat.ltb_spec 100 (k + 8 + 1)); [lia|].
    rewrite scroll_outcome_S, step_stale by (apply Hv; lia).
    change (10 <=? 0 + 7 + 1 + 1 + 1) with true. cbv iota.
    simpl. f_equal. lia.
Qed.

(** The amended statement at work: three cards, then five for good, under
    a spinner that never hides; the loop ends on pass 2 + 10. *)
Lemma stale_page_stops_witness :
  passes Examples.busy_page = Some 12.
Proof.
  assert (Hc : constant_from Examples.busy_page 2).
  { intros i Hi. simpl. destruct i as [|[|i]]; [lia|lia|reflexivity]. }
  assert (Hu : changing_until Examples.busy_page 2).
  { intros i Hi. assert (i = 1) as -> by lia. simpl. discriminate. }
  exact (proj2 (stale_page_stops Examples.busy_page 2 ltac:(lia) Hc) Hu
               ltac:(unfold max_consecutive_no_new; lia)).
Defined.

End ScrollFacts.

(* ===================================================================== *)
(** * Facts about the extraction loop and [scrape_with_progress] *)
(* ===================================================================== *)

Module ExtractFacts.

Import Scraper.

(** What the callbacks of the step for listing [index] look like. *)
Lemma extract_step_events pg total index st ev :
  In ev (fst (extract_step pg total index st)) ->
  ev_progress ev = index + 1 /\ ev_total ev = total
  /\ (forall d, ev_new_lead ev = Some d ->
        listing pg index = Extracted (Some d) /\ accepted d = true).
Proof.
  unfold extract_step, accepted.
  destruct (listing pg index) as [|[d|]]; simpl.
  - intros [<-|[]]; simpl; repeat split; intros; discriminate.
  - destruct (truthy_opt (name d)) eqn:Hn.
    + destruct (has_target_data d) eqn:Ht; simpl;
        intros [<-|[<-|[<-|[]]]]; simpl; repeat split;
        try (intros; discriminate);
        match goal with H : Some _ = Some _ |- _ => injection H as <- end;
        [reflexivity | rewrite Hn, Ht; reflexivity].
    + simpl. intros [<-|[<-|[<-|[]]]]; simpl; repeat split; intros; discriminate.
  - intros [<-|[<-|[<-|[]]]]; simpl; repeat split; intros; discriminate.
Qed.

(** The leads collected by a step are accepted dicts. *)
Lemma extract_step_results pg total index st :
  exists new, results (snd (extract_step pg total index st)) = results st ++ new
              /\ (forall d, In d new -> accepted d = true).
Proof.
  unfold extract_step, accepted.
  destruct (listing pg index) as [|[d|]]; simpl;
    try (exists []; rewrite app_nil_r; split; [reflexivity|intros ? []]).
  destruct (truthy_opt (name d)) eqn:Hn;
    [destruct (has_target_data d) eqn:Ht|]; simpl;
    try (exists []; rewrite app_nil_r; split; [reflexivity|intros ? []]).
  exists [d]; split; [reflexivity|].
  intros d' [<-|[]]. rewrite Hn, Ht; reflexivity.
Qed.

(** Every callback of the loop is a callback of the step of some index. *)
Lemma extract_from_events pg total :
  forall n index st ev,
    In ev (fst (extract_from pg total index n st)) ->
    exists i st', index <= i < index + n
                  /\ In ev (fst (extract_step pg total i st')).
Proof.
  induction n as [|n IH]; intros index st ev; simpl; [intros []|].
  destruct (extract_step pg total index st) as [evs st1] eqn:E1.
  destruct (extract_from pg total (index + 1) n st1) as [evs' st2] eqn:E2.
  simpl. rewrite in_app_iff. intros [H|H].
  - exists index, st. split; [lia|]. rewrite E1; exact H.
  - destruct (IH (index + 1) st1 ev) as (i & st' & Hi & Hin).
    + rewrite E2; exact H.
    + exists i, st'. split; [lia|exact Hin].
Qed.

(** The loop makes the step of every index of its range. *)
Lemma extract_from_covers pg total :
  forall n index st i,
    index <= i < index + n ->
    exists st', incl (fst (extract_step pg total i st'))
                     (fst (extract_from pg total index n st))
                /\ incl (results (snd (extract_step pg total i st')))
                        (results (snd (extract_from pg total index n st))).
Proof.
  induction n as [|n IH]; intros index st i Hi; [lia|]. simpl.
  destruct (extract_step pg total index st) as [evs st1] eqn:E1.
  destruct (extract_from pg total (index + 1) n st1) as [evs' st2] eqn:E2.
  simpl.
  assert (Hgrow : forall m k s, incl (results s)
                    (results (snd (extract_from pg total k m s)))).
  { clear. induction m as [|m IHm]; intros k s; simpl; [apply incl_refl|].
    destruct (extract_step pg total k s) as [e1 s1] eqn:F1.
    specialize (IHm (k + 1) s1).
    destruct (extract_from pg total (k + 1) m s1) as [e2 s2]. simpl in *.
    destruct (extract_step_results pg total k s) as (new & Hnew & _).
    rewrite F1 in Hnew. simpl in Hnew.
    intros d Hd. apply IHm. rewrite Hnew. apply in_or_app; left; exact Hd. }
  destruct (Nat.eq_dec i index) as [->|Hne].
  - exists st. rewrite E1. simpl. split.
    + apply incl_appl, incl_refl.
    + specialize (Hgrow n (index + 1) st1). rewrite E2 in Hgrow. exact Hgrow.
  - destruct (IH (index + 1) st1 i ltac:(lia)) as (st' & Hev & Hres).
    rewrite E2 in Hev, Hres. simpl in Hev, Hres.
    exists st'. split; [apply incl_appr; exact Hev|exact Hres].
Qed.

Lemma extract_from_results pg total :
  forall n index st,
    exists new, results (snd (extract_from pg total index n st)) = results st ++ new
                /\ (forall d, In d new -> accepted d = true).
Proof.
  induction n as [|n IH]; intros index st; simpl.
  - exists []; rewrite app_nil_r; split; [reflexivity|intros ? []].
  - destruct (extract_step_results pg total index st) as (n1 & H1 & A1).
    destruct (extract_step pg total index st) as [evs st1].
    destruct (IH (index + 1) st1) as (n2 & H2 & A2).
    destruct (extract_from pg total (index + 1) n st1) as [evs' st2].
    simpl in *. exists (n1 ++ n2). split.
    + rewrite H2, H1, app_assoc. reflexivity.
    + intros d Hd. apply in_app_or in Hd as [Hd|Hd]; auto.
Qed.

(** [scrape_with_progress] always ends: it returns its leads, or raises
    when no listing is found. *)
Lemma scrape_total pg :
  exists evs res, scrape_with_progress pg = Some (evs, res).
Proof.
  unfold scrape_with_progress, _scroll_and_load.
  destruct (listings_found pg); [|eauto].
  destruct (ScrollFacts.scroll_loop_total pg) as (evs & why & st & ->).
  destruct (_extract_all_listings pg (final_count pg)); eauto.
Qed.

(** The callbacks of the scroll loop report no progress. *)
Lemma scroll_loop_events pg :
  forall fuel st evs why st' ev,
    scroll_loop fuel pg st = Some (evs, why, st') -> In ev evs ->
    ev_progress ev = 0 /\ ev_new_lead ev = None.
Proof.
  induction fuel as [|fuel IH]; intros st evs why st' ev; simpl; [discriminate|].
  assert (Hstep : forall e, In e (fst (scroll_step pg st)) ->
                            ev_progress e = 0 /\ ev_new_lead e = None).
  { intros e. unfold scroll_step.
    set (o := scroll_obs pg (scrolls st)).
    assert (Hsp : In e (cb 0 (obs_count o) 0 (scroll_message (scrolls st) (obs_count o))
                        :: spinner_events o)
                  -> ev_progress e = 0 /\ ev_new_lead e = None).
    { unfold spinner_events.
      destruct (obs_loading o); [destruct (obs_spinner_hides o)|]; simpl;
        intuition (subst; auto). }
    destruct (max_consecutive_no_new <=? _); [exact Hsp|].
    destruct (_ && _); [exact Hsp|].
    destruct (scroll_limit <? _); exact Hsp. }
  destruct (scroll_step pg st) as [e1 [[w s1]|s1]]; simpl in Hstep.
  - intros [= <- <- <-]. apply Hstep.
  - destruct (scroll_loop fuel pg s1) as [[[e2 w] s2]|] eqn:E; [|discriminate].
    intros [= <- <- <-] Hin. apply in_app_or in Hin as [Hin|Hin]; [auto|].
    eapply IH; eauto.
Qed.

(** The parts of a finished scrape. *)
Lemma scrape_events pg evs res ev :
  scrape_with_progress pg = Some (evs, res) -> In ev evs ->
  (ev_progress ev = 0 /\ ev_new_lead ev = None)
  \/ (exists i st, i < final_count pg
                   /\ In ev (fst (extract_step pg (final_count pg) i st))).
Proof.
  unfold scrape_with_progress, _scroll_and_load, _extract_all_listings.
  destruct (listings_found pg).
  - destruct (scroll_loop scroll_fuel pg scroll_init) as [[[se w] s]|] eqn:E;
      [|discriminate].
    destruct (extract_from pg (final_count pg) 0 (final_count pg) _)
      as [ee est] eqn:Ex.
    intros [= <- <-] Hin.
    simpl in Hin.
    destruct Hin as [<-|[<-|[<-|[<-|Hin]]]]; [left; split; reflexivity ..|].
    apply in_app_or in Hin as [Hin|[<-|Hin]].
    + left. eapply scroll_loop_events; eauto.
    + left. split; reflexivity.
    + right.
      destruct (extract_from_events pg (final_count pg) (final_count pg) 0
                  {| results := []; successful_extractions := 0 |} ev)
        as (i & st & Hi & Hs); [rewrite Ex; exact Hin|].
      exists i, st. split; [lia|exact Hs].
  - intros [= <- <-] Hin. left. simpl in Hin. intuition (subst; auto).
Qed.

End ExtractFacts.

(* ===================================================================== *)
(** * Facts about the progress callback and the job runner *)
(* ===================================================================== *)

Module ServerFacts.

Import Server.

Section Facts.

Variable fmt : Z -> string.

Lemma status_eqb_eq a b : status_eqb a b = true <-> a = b.
Proof. destruct a, b; simpl; split; congruence. Qed.

Lemma with_status_frozen j :
  status j = Cancelled -> message j = "Job cancelled by user" ->
  with_status Cancelled "Job cancelled by user" j = j.
Proof. destruct j; simpl; intros -> ->; reflexivity. Qed.

(** *** The callback on a cancelled job *)

Lemma update_cancelled job_id ev now s :
  is_cancelled job_id s = true ->
  update_progress_with_lead fmt job_id ev now s = s.
Proof.
  unfold is_cancelled, update_progress_with_lead.
  destruct (active_jobs s !! job_id) as [j|]; [|reflexivity].
  intros ->. reflexivity.
Qed.

Lemma frozen_is_cancelled job_id j s :
  frozen job_id j s -> is_cancelled job_id s = true.
Proof.
  intros (Hj & Hs & _). unfold is_cancelled. unfold job_of in Hj.
  rewrite Hj, Hs. reflexivity.
Qed.

Lemma cancel_freezes job_id now s j :
  job_of job_id s = Some j ->
  frozen job_id (with_status Cancelled "Job cancelled by user" j)
         (cancel_scraping_job job_id now s)
  /\ lead_rows (db (cancel_scraping_job job_id now s)) = lead_rows (db s).
Proof.
  unfold job_of, cancel_scraping_job, frozen, job_of. intros ->. simpl.
  rewrite lookup_insert_eq. auto.
Qed.

Lemma serve_frozen job_id t s j :
  frozen job_id j s ->
  frozen job_id j (serve job_id t s)
  /\ lead_rows (db (serve job_id t s)) = lead_rows (db s).
Proof.
  intros Hf. unfold serve. destruct (cancel_request t); [|auto].
  destruct Hf as (Hj & Hs & Hm).
  destruct (cancel_freezes job_id (now t) s j Hj) as [Hf' Hl].
  rewrite (with_status_frozen j Hs Hm) in Hf'. auto.
Qed.

(** Once the entry is frozen, no later callback or cancel request changes
    it, and no lead is saved. *)
Lemma deliver_frozen job_id ticks j :
  forall evs k s,
    frozen job_id j s ->
    frozen job_id j (deliver fmt job_id ticks k evs s)
    /\ lead_rows (db (deliver fmt job_id ticks k evs s)) = lead_rows (db s).
Proof.
  induction evs as [|ev evs IH]; intros k s Hf; simpl; [auto|].
  destruct (serve_frozen job_id (ticks k) s j Hf) as [Hf1 Hl1].
  rewrite (update_cancelled job_id ev _ _ (frozen_is_cancelled _ _ _ Hf1)).
  destruct (IH (S k) _ Hf1) as [Hf2 Hl2]. split; [exact Hf2|congruence].
Qed.

(** *** Which jobs the registry holds *)

Lemma update_job_some job_id ev now s id :
  is_Some (active_jobs s !! id) ->
  is_Some (active_jobs (update_progress_with_lead fmt job_id ev now s) !! id).
Proof.
  unfold update_progress_with_lead.
  destruct (active_jobs s !! job_id) as [j|] eqn:E; [|auto].
  destruct (status_eqb (status j) Cancelled); [auto|]. simpl.
  intros H. destruct (decide (job_id = id)) as [->|Hne].
  - rewrite lookup_insert_eq. eauto.
  - rewrite lookup_insert_ne by exact Hne. exact H.
Qed.

Lemma serve_job_some job_id t s id :
  is_Some (active_jobs s !! id) ->
  is_Some (active_jobs (serve job_id t s) !! id).
Proof.
  unfold serve, cancel_scraping_job. destruct (cancel_request t); [|auto].
  destruct (active_jobs s !! job_id) as [j|] eqn:E; [|auto]. simpl.
  intros H. destruct (decide (job_id = id)) as [->|Hne].
  - rewrite lookup_insert_eq. eauto.
  - rewrite lookup_insert_ne by exact Hne. exact H.
Qed.

Lemma deliver_job_some job_id ticks id :
  forall evs k s,
    is_Some (active_jobs s !! id) ->
    is_Some (active_jobs (deliver fmt job_id ticks k evs s) !! id).
Proof.
  induction evs as [|ev evs IH]; intros k s H; simpl; [exact H|].
  apply IH, update_job_some, serve_job_some, H.
Qed.

Lemma deliver_app job_id ticks :
  forall l1 l2 k s,
    deliver fmt job_id ticks k (l1 ++ l2) s
    = deliver fmt job_id ticks (k + length l1) l2
        (deliver fmt job_id ticks k l1 s).
Proof.
  induction l1 as [|e l1 IH]; intros l2 k s; simpl.
  - rewrite Nat.add_0_r. reflexivity.
  - rewrite IH. f_equal. lia.
Qed.

(** A cancel request served before one of the callbacks leaves the entry
    frozen at the end of the scrape. *)
Lemma deliver_cancelled_before job_id ticks evs s :
  is_Some (job_of job_id s) ->
  cancelled_before ticks (length evs) ->
  exists j, frozen job_id j (deliver fmt job_id ticks 0 evs s).
Proof.
  intros Hs (k & Hk & Hc).
  rewrite <- (firstn_skipn k evs), deliver_app.
  assert (Hlen : length (firstn k evs) = k) by (rewrite firstn_length_le; lia).
  rewrite Hlen. simpl.
  destruct (skipn k evs) as [|ev rest] eqn:E.
  { assert (length (skipn k evs) = 0) by (rewrite E; reflexivity).
    rewrite length_skipn in H. lia. }
  simpl.
  set (s1 := deliver fmt job_id ticks 0 (firstn k evs) s).
  destruct (deliver_job_some job_id ticks job_id (firstn k evs) 0 s Hs) as [j Hj].
  fold s1 in Hj.
  exists (with_status Cancelled "Job cancelled by user" j).
  assert (Hf : frozen job_id (with_status Cancelled "Job cancelled by user" j)
                 (serve job_id (ticks k) s1)).
  { unfold serve. rewrite Hc. apply cancel_freezes. exact Hj. }
  rewrite (update_cancelled job_id ev _ _ (frozen_is_cancelled _ _ _ Hf)).
  apply deliver_frozen. exact Hf.
Qed.

(** *** Lead rows *)

Lemma row_of_lead_of d j : row_of d (lead_of d j).
Proof. repeat split. Qed.

Lemma update_lead_rows job_id ev now s :
  exists added,
    lead_rows (db (update_progress_with_lead fmt job_id ev now s))
    = lead_rows (db s) ++ added
    /\ (forall l, In l added ->
          exists d, Scraper.ev_new_lead ev = Some d /\ row_of d l).
Proof.
  unfold update_progress_with_lead.
  destruct (active_jobs s !! job_id) as [j|];
    [|exists []; rewrite app_nil_r; split; [reflexivity|intros ? []]].
  destruct (status_eqb (status j) Cancelled);
    [exists []; rewrite app_nil_r; split; [reflexivity|intros ? []]|].
  destruct (Scraper.ev_new_lead ev) as [d|];
    [destruct (Scraper.name d) eqn:En|]; simpl.
  - eexists [_]. split; [reflexivity|].
    intros l [<-|[]]. exists d. split; [reflexivity|apply row_of_lead_of].
  - exists []; rewrite app_nil_r; split; [reflexivity|intros ? []].
  - exists []; rewrite app_nil_r; split; [reflexivity|intros ? []].
Qed.

Lemma serve_lead_rows job_id t s :
  lead_rows (db (serve job_id t s)) = lead_rows (db s).
Proof.
  unfold serve, cancel_scraping_job.
  destruct (cancel_request t); [|reflexivity].
  destruct (active_jobs s !! job_id); reflexivity.
Qed.

Lemma deliver_lead_rows job_id ticks :
  forall evs k s,
    exists added,
      lead_rows (db (deliver fmt job_id ticks k evs s)) = lead_rows (db s) ++ added
      /\ (forall l, In l added -> exists d, forwarded evs d /\ row_of d l).
Proof.
  induction evs as [|ev evs IH]; intros k s; simpl.
  - exists []; rewrite app_nil_r; split; [reflexivity|intros ? []].
  - destruct (update_lead_rows job_id ev (now (ticks k)) (serve job_id (ticks k) s))
      as (a1 & H1 & A1).
    destruct (IH (S k) (update_progress_with_lead fmt job_id ev (now (ticks k))
                          (serve job_id (ticks k) s))) as (a2 & H2 & A2).
    exists (a1 ++ a2). split.
    + rewrite H2, H1, serve_lead_rows, app_assoc. reflexivity.
    + intros l Hl. apply in_app_or in Hl as [Hl|Hl].
      * destruct (A1 l Hl) as (d & Hd & Hr). exists d. split; [|exact Hr].
        exists ev. split; [left; reflexivity|exact Hd].
      * destruct (A2 l Hl) as (d & (e & He & Hd) & Hr). exists d.
        split; [|exact Hr]. exists e. split; [right; exact He|exact Hd].
Qed.

Lemma on_exception_lead_rows job_id e s :
  lead_rows (db (fst (on_exception job_id e s))) = lead_rows (db s).
Proof.
  unfold on_exception.
  destruct (active_jobs (mark job_id Failed _ s) !! job_id) as [j|]; [|reflexivity].
  destruct (job_rows (db (mark job_id Failed _ s)) !! db_id j); reflexivity.
Qed.

(** The rows a whole run saves come from dicts the scraper forwarded. *)
Lemma run_lead_rows job_id sch pg s s' ex :
  run_scraping_job fmt job_id sch pg s = Some (s', ex) ->
  exists evs res added,
    Scraper.scrape_with_progress pg = Some (evs, res)
    /\ lead_rows (db s') = lead_rows (db s) ++ added
    /\ (forall l, In l added -> exists d, forwarded evs d /\ row_of d l).
Proof.
  destruct (ExtractFacts.scrape_total pg) as (evs & res & Hscrape).
  intros Hrun. exists evs, res.
  assert (Hnone : lead_rows (db s') = lead_rows (db s) ->
                  exists added, Scraper.scrape_with_progress pg = Some (evs, res)
                    /\ lead_rows (db s') = lead_rows (db s) ++ added
                    /\ (forall l, In l added ->
                          exists d, forwarded evs d /\ row_of d l)).
  { intros ->. exists []. rewrite app_nil_r.
    split; [exact Hscrape|]. split; [reflexivity|intros ? []]. }
  revert Hrun. unfold run_scraping_job.
  destruct (active_jobs s !! job_id) as [j|];
    [|intros [= <- <-]; apply Hnone; reflexivity].
  cbn [db enter_running].
  destruct (job_rows (db s) !! db_id j).
  2:{ intros [= Hex]. apply Hnone.
      rewrite (surjective_pairing (on_exception _ _ _)) in Hex.
      injection Hex as <- _. rewrite on_exception_lead_rows. reflexivity. }
  match goal with |- context [is_cancelled job_id ?st] => set (s2 := st) end.
  destruct (is_cancelled job_id s2);
    [intros [= <- <-]; apply Hnone; reflexivity|].
  rewrite Hscrape.
  destruct (deliver_lead_rows job_id (ticks sch) evs 0 s2) as (added & Ha & Hfw).
  assert (H4 : lead_rows (db (serve job_id (teardown sch)
                                (deliver fmt job_id (ticks sch) 0 evs s2)))
               = lead_rows (db s) ++ added).
  { rewrite serve_lead_rows, Ha. reflexivity. }
  intros Hrun. exists added. split; [reflexivity|]. split; [|exact Hfw].
  destruct res as [leads|e].
  - destruct (is_cancelled job_id _); injection Hrun as <- _; exact H4.
  - rewrite (surjective_pairing (on_exception _ _ _)) in Hrun.
    injection Hrun as <- _. rewrite on_exception_lead_rows. exact H4.
Qed.

(** *** The job invariant *)

Lemma update_registry_ok job_id ev now s :
  event_ok ev -> registry_ok s ->
  registry_ok (update_progress_with_lead fmt job_id ev now s).
Proof.
  intros Hev Hs. unfold update_progress_with_lead.
  destruct (active_jobs s !! job_id) as [j|]; [|exact Hs].
  destruct (status_eqb (status j) Cancelled); [exact Hs|].
  intros id j'. simpl. destruct (decide (job_id = id)) as [->|Hne].
  - rewrite lookup_insert_eq. intros [= <-]. exact Hev.
  - rewrite lookup_insert_ne by exact Hne. apply Hs.
Qed.

Lemma serve_registry_ok job_id t s :
  registry_ok s -> registry_ok (serve job_id t s).
Proof.
  intros Hs. unfold serve, cancel_scraping_job.
  destruct (cancel_request t); [|exact Hs].
  destruct (active_jobs s !! job_id) as [j|] eqn:E; [|exact Hs].
  intros id j'. simpl. destruct (decide (job_id = id)) as [->|Hne].
  - rewrite lookup_insert_eq. intros [= <-]. exact (Hs _ _ E).
  - rewrite lookup_insert_ne by exact Hne. apply Hs.
Qed.

Lemma deliver_registry_ok job_id ticks :
  forall evs k s,
    Forall event_ok evs -> registry_ok s ->
    registry_ok (deliver fmt job_id ticks k evs s).
Proof.
  induction evs as [|ev evs IH]; intros k s Hev Hs; simpl; [exact Hs|].
  inversion Hev; subst.
  apply IH; [assumption|]. apply update_registry_ok; [assumption|].
  apply serve_registry_ok, Hs.
Qed.

Lemma mark_registry_ok job_id st m s :
  registry_ok s -> registry_ok (mark job_id st m s).
Proof.
  intros Hs id j'. unfold mark. simpl.
  destruct (decide (job_id = id)) as [->|Hne].
  - rewrite lookup_alter_eq.
    destruct (active_jobs s !! id) as [j|] eqn:E; [|discriminate].
    intros [= <-]. exact (Hs _ _ E).
  - rewrite lookup_alter_ne by exact Hne. apply Hs.
Qed.

Lemma on_exception_registry_ok job_id e s :
  registry_ok s -> registry_ok (fst (on_exception job_id e s)).
Proof.
  intros Hs. unfold on_exception.
  pose proof (mark_registry_ok job_id Failed ("Error: " +:+ e) s Hs) as Hm.
  destruct (active_jobs (mark job_id Failed _ s) !! job_id) as [j|]; [|exact Hm].
  destruct (job_rows (db (mark job_id Failed _ s)) !! db_id j); exact Hm.
Qed.

Lemma run_registry_ok job_id sch pg s s' ex :
  registry_ok s ->
  run_scraping_job fmt job_id sch pg s = Some (s', ex) ->
  registry_ok s'.
Proof.
  intros Hs. unfold run_scraping_job.
  destruct (active_jobs s !! job_id) as [j|] eqn:Ej; [|intros [= <- _]; exact Hs].
  assert (H1 : registry_ok (enter_running job_id (started sch) j s)).
  { intros id j'. unfold enter_running. simpl.
    destruct (decide (job_id = id)) as [->|Hne].
    - rewrite lookup_insert_eq. intros [= <-]. exact (Hs _ _ Ej).
    - rewrite lookup_insert_ne by exact Hne. apply Hs. }
  destruct (job_rows _ !! db_id j).
  2:{ intros [= Hex]. rewrite (surjective_pairing (on_exception _ _ _)) in Hex.
      injection Hex as <- _. apply on_exception_registry_ok, H1. }
  assert (H2 : registry_ok (row_running (db_id j)
                              (enter_running job_id (started sch) j s)))
    by exact H1.
  destruct (is_cancelled job_id _); [intros [= <- _]; exact H2|].
  destruct (Scraper.scrape_with_progress pg) as [[evs res]|] eqn:Hscrape;
    [|discriminate].
  assert (Hev : Forall event_ok evs).
  { apply List.Forall_forall. intros ev Hin.
    destruct (ExtractFacts.scrape_events pg evs res ev Hscrape Hin)
      as [[Hp _]|(i & st & Hi & Hstep)].
    - unfold event_ok. rewrite Hp. lia.
    - apply ExtractFacts.extract_step_events in Hstep as (Hp & Ht & _).
      unfold event_ok. rewrite Hp, Ht. lia. }
  pose proof (serve_registry_ok job_id (teardown sch) _
                (deliver_registry_ok job_id (ticks sch) evs 0 _ Hev H2)) as H4.
  destruct res as [leads|e].
  - destruct (is_cancelled job_id _); intros [= <- _]; [exact H4|].
    unfold complete. apply (mark_registry_ok job_id Completed _ _ H4).
  - intros [= Hex]. rewrite (surjective_pairing (on_exception _ _ _)) in Hex.
    injection Hex as <- _. apply on_exception_registry_ok, H4.
Qed.

(** *** A job nobody cancels *)

Lemma track_phases_status now msg j :
  status (track_phases now msg j) = status j
  /\ search_term (track_phases now msg j) = search_term j.
Proof.
  unfold track_phases.
  destruct (_ && _); [split; reflexivity|].
  destruct (_ && _); split; reflexivity.
Qed.

Lemma update_running job_id ev now s j :
  job_of job_id s = Some j -> status j <> Cancelled ->
  (exists j', job_of job_id (update_progress_with_lead fmt job_id ev now s)
              = Some j' /\ status j' = status j)
  /\ (forall d, Scraper.ev_new_lead ev = Some d -> Scraper.name d <> None ->
        exists l, In l (lead_rows (db (update_progress_with_lead fmt job_id ev now s)))
                  /\ row_of d l).
Proof.
  unfold job_of, update_progress_with_lead. intros -> Hst.
  destruct (status_eqb (status j) Cancelled) eqn:E;
    [apply status_eqb_eq in E; contradiction|].
  simpl. split.
  - rewrite lookup_insert_eq. eexists; split; [reflexivity|].
    simpl. apply track_phases_status.
  - intros d -> Hn. destruct (Scraper.name d) eqn:En; [|congruence].
    simpl. eexists; split;
      [apply in_or_app; right; left; reflexivity|].
    unfold row_of, lead_of. simpl. rewrite En. repeat split.
Qed.

Lemma deliver_saves job_id ticks :
  (forall i, cancel_request (ticks i) = false) ->
  forall evs k s j,
    job_of job_id s = Some j -> status j <> Cancelled ->
    (exists j', job_of job_id (deliver fmt job_id ticks k evs s) = Some j'
                /\ status j' = status j)
    /\ (forall d, forwarded evs d -> Scraper.name d <> None ->
          exists l, In l (lead_rows (db (deliver fmt job_id ticks k evs s)))
                    /\ row_of d l).
Proof.
  intros Hquiet. induction evs as [|ev evs IH]; intros k s j Hj Hst; simpl.
  - split; [eauto|]. intros d (e & [] & _).
  - assert (Hserve : serve job_id (ticks k) s = s)
      by (unfold serve; rewrite Hquiet; reflexivity).
    rewrite Hserve.
    destruct (update_running job_id ev (now (ticks k)) s j Hj Hst)
      as [(j1 & Hj1 & Hs1) Hrow].
    destruct (IH (S k) _ j1 Hj1 ltac:(congruence)) as [(j2 & Hj2 & Hs2) Hrest].
    split; [exists j2; split; [exact Hj2|congruence]|].
    intros d (e & [<-|Hin] & Hd) Hn.
    + destruct (Hrow d Hd Hn) as (l & Hl & Hr).
      destruct (deliver_lead_rows job_id ticks evs (S k)
                  (update_progress_with_lead fmt job_id ev (now (ticks k)) s))
        as (added & -> & _).
      exists l. split; [apply in_or_app; left; exact Hl|exact Hr].
    + apply Hrest; [exists e; split; assumption|exact Hn].
Qed.

Lemma is_cancelled_status job_id s j :
  job_of job_id s = Some j ->
  is_cancelled job_id s = status_eqb (status j) Cancelled.
Proof. unfold job_of, is_cancelled. intros ->. reflexivity. Qed.

(** A run that is never cancelled, of a scrape that returns, saves a row
    for every dict the scraper forwarded and ends completed. *)
Lemma run_saves job_id sch pg s j evs leads :
  job_of job_id s = Some j ->
  is_Some (job_rows (db s) !! db_id j) ->
  (forall i, cancel_request (ticks sch i) = false) ->
  cancel_request (teardown sch) = false ->
  Scraper.scrape_with_progress pg = Some (evs, Scraper.Returned leads) ->
  exists s', run_scraping_job fmt job_id sch pg s = Some (s', Returns)
             /\ status_of job_id s' = Some Completed
             /\ (forall d, forwarded evs d -> Scraper.name d <> None ->
                   exists l, In l (lead_rows (db s')) /\ row_of d l).
Proof.
  intros Hj [row Hrow] Hquiet Htd Hscrape.
  unfold run_scraping_job. unfold job_of in Hj. rewrite Hj.
  cbn [db enter_running]. rewrite Hrow.
  set (s2 := row_running (db_id j) (enter_running job_id (started sch) j s)).
  assert (Hj2 : job_of job_id s2
                = Some (with_start (started sch)
                          (with_status Running "Initializing scraper..." j)))
    by (unfold job_of, s2; simpl; apply lookup_insert_eq).
  rewrite (is_cancelled_status job_id s2 _ Hj2). simpl.
  rewrite Hscrape.
  destruct (deliver_saves job_id (ticks sch) Hquiet evs 0 s2 _ Hj2 ltac:(discriminate))
    as [(j3 & Hj3 & Hs3) Hrows].
  assert (Hserve : serve job_id (teardown sch)
                     (deliver fmt job_id (ticks sch) 0 evs s2)
                   = deliver fmt job_id (ticks sch) 0 evs s2)
    by (unfold serve; rewrite Htd; reflexivity).
  rewrite Hserve, (is_cancelled_status job_id _ _ Hj3), Hs3. simpl.
  eexists. split; [reflexivity|]. split.
  - unfold status_of, job_of, complete, mark. simpl.
    rewrite lookup_alter_eq. unfold job_of in Hj3. rewrite Hj3. reflexivity.
  - exact Hrows.
Qed.

End Facts.

End ServerFacts.

(* ===================================================================== *)
(** * Which items reach the callback and the database *)
(* ===================================================================== *)

Module LeadFacts.

Import Scraper.
Import ExtractFacts.

(** An accepted dict is forwarded by the step that extracts it. *)
Lemma extract_step_forwards pg total index st d :
  listing pg index = Extracted (Some d) -> accepted d = true ->
  In (cb_lead (index + 1) total (successful_extractions st + 1)
        ("Found lead: " +:+ name_str d) d)
     (fst (extract_step pg total index st))
  /\ In d (results (snd (extract_step pg total index st))).
Proof.
  unfold accepted, extract_step. intros -> Hacc.
  apply andb_prop in Hacc as [-> ->]. simpl. split.
  - right; left; reflexivity.
  - apply in_or_app; right; left; reflexivity.
Qed.

(** When listings are found the scrape returns what the extraction loop
    collected, after the callbacks of navigation and scrolling. *)
Lemma scrape_found pg :
  listings_found pg = true ->
  exists pre,
    scrape_with_progress pg
    = Some (pre ++ fst (_extract_all_listings pg (final_count pg)),
            Returned (snd (_extract_all_listings pg (final_count pg)))).
Proof.
  intros Hf. unfold scrape_with_progress, _scroll_and_load. rewrite Hf.
  destruct (ScrollFacts.scroll_loop_total pg) as (se & why & st & ->).
  destruct (_extract_all_listings pg (final_count pg)) as [ee leads]. simpl.
  eexists (_ :: _ :: _ :: _ :: se ++ [_]).
  simpl. rewrite <- app_assoc. reflexivity.
Qed.

(** Whatever is forwarded was accepted. *)
Lemma forwarded_accepted pg evs res d :
  scrape_with_progress pg = Some (evs, res) ->
  Server.forwarded evs d -> accepted d = true.
Proof.
  intros Hs (ev & Hin & Hd).
  destruct (scrape_events pg evs res ev Hs Hin) as [[_ Hn]|(i & st & _ & Hstep)].
  - congruence.
  - apply extract_step_events in Hstep as (_ & _ & Hlead).
    apply (Hlead d Hd).
Qed.

(** C10.  An item whose name is empty is counted as processed and nothing
    else: its step makes the three callbacks "Processing", "Failed to
    extract" and "Processed", none with a lead, and leaves the results as
    they were, whatever its phone, website and email.  Hence every dict
    forwarded by a scrape, and every lead row a job run saves, has a
    non-empty name. *)
Theorem nameless_item_not_forwarded :
  (forall pg total index st d,
      listing pg index = Extracted (Some d) ->
      truthy_opt (name d) = false ->
      extract_step pg total index st
      = ([cb (index + 1) total (successful_extractions st)
             (processing_message index total);
          cb (index + 1) total (successful_extractions st)
             ("Failed to extract details for listing " +:+ pretty (index + 1));
          cb (index + 1) total (successful_extractions st)
             (processed_message index total)],
         st))
  /\ (forall pg evs res d,
        scrape_with_progress pg = Some (evs, res) ->
        Server.forwarded evs d -> truthy_opt (name d) = true)
  /\ (forall fmt job_id sch pg s s' ex,
        Server.run_scraping_job fmt job_id sch pg s = Some (s', ex) ->
        exists added,
          Server.lead_rows (Server.db s')
          = Server.lead_rows (Server.db s) ++ added
          /\ forall l, In l added -> truthy_opt (Server.lead_name l) = true).
Proof.
  split; [|split].
  - intros pg total index st d Hl Hn. unfold extract_step.
    rewrite Hl, Hn. reflexivity.
  - intros pg evs res d Hs Hf.
    pose proof (forwarded_accepted pg evs res d Hs Hf) as Ha.
    apply andb_prop in Ha as [Hn _]. exact Hn.
  - intros fmt job_id sch pg s s' ex Hrun.
    destruct (ServerFacts.run_lead_rows fmt job_id sch pg s s' ex Hrun)
      as (evs & res & added & Hs & Hrows & Hfrom).
    exists added. split; [exact Hrows|].
    intros l Hl. destruct (Hfrom l Hl) as (d & Hf & (Hname & _)).
    rewrite Hname.
    pose proof (forwarded_accepted pg evs res d Hs Hf) as Ha.
    apply andb_prop in Ha as [Hn _]. exact Hn.
Qed.

Lemma nameless_item_not_forwarded_witness :
  fst (extract_step (Examples.one_listing Examples.website_only) 1 0
         {| results := []; successful_extractions := 0 |})
  = [cb 1 1 0 "Processing listing 1/1";
     cb 1 1 0 "Failed to extract details for listing 1";
     cb 1 1 0 "Processed 1/1 listings"]
  /\ truthy_opt (name Examples.named_site) = true
  /\ match Server.run_scraping_job Examples.show_seconds "job-1"
             (Examples.schedule None)
             (Examples.one_listing Examples.named_site) Examples.one_job with
     | Some (s', _) =>
         exists added,
           Server.lead_rows (Server.db s') = [] ++ added
           /\ forall l, In l added -> truthy_opt (Server.lead_name l) = true
     | None => False
     end.
Proof.
  destruct nameless_item_not_forwarded as (H1 & H2 & H3). split; [|split].
  - rewrite (H1 (Examples.one_listing Examples.website_only) 1 0 _
               Examples.website_only eq_refl eq_refl).
    reflexivity.
  - eapply (H2 (Examples.one_listing Examples.named_site));
      [vm_compute; reflexivity|].
    exists (cb_lead 1 1 1 "Found lead: Acme Plumbing" Examples.named_site).
    split; [|reflexivity].
    repeat (first [left; reflexivity | right]).
  - destruct (Server.run_scraping_job _ _ _ _ _) as [[s' ex]|] eqn:E;
      [|vm_compute in E; discriminate].
    exact (H3 _ _ _ _ _ _ _ E).
Defined.

(** C5, as stated, fails.  The dict with a website and no name, phone or
    email is never passed to the callback as a lead, is not among the
    leads returned, and no row is saved for it. *)
Lemma website_only_item_dropped :
  name Examples.website_only = Some ""
  /\ phone Examples.website_only = "" /\ email Examples.website_only = ""
  /\ truthy (website Examples.website_only) = true
  /\ (exists evs,
        scrape_with_progress (Examples.one_listing Examples.website_only)
        = Some (evs, Returned [])
        /\ Forall (fun ev => ev_new_lead ev = None) evs)
  /\ (exists s',
        Server.run_scraping_job Examples.show_seconds "job-1"
          (Examples.schedule None)
          (Examples.one_listing Examples.website_only) Examples.one_job
        = Some (s', Server.Returns)
        /\ Server.lead_rows (Server.db s') = []).
Proof.
  repeat (split; [reflexivity|]). split.
  - eexists. split; [vm_compute; reflexivity|].
    repeat (constructor; [reflexivity|]). constructor.
  - eexists. split; [vm_compute; reflexivity|]. reflexivity.
Qed.

(** C5, amended.  A dict whose phone, website and email are all empty is
    never passed to the callback as a lead and no row is saved for it.  A
    dict with a non-empty name and a non-empty website is forwarded: the
    scrape passes it to the callback as a lead and returns it, and a run
    that no cancel request interrupts saves a row for it. *)
Theorem contact_item_forwarding :
  (forall pg evs res d,
      scrape_with_progress pg = Some (evs, res) ->
      Server.forwarded evs d -> has_target_data d = true)
  /\ (forall fmt job_id sch pg s s' ex,
        Server.run_scraping_job fmt job_id sch pg s = Some (s', ex) ->
        exists added,
          Server.lead_rows (Server.db s')
          = Server.lead_rows (Server.db s) ++ added
          /\ forall l, In l added ->
               truthy (Server.lead_phone l) || truthy (Server.lead_website l)
               || truthy (Server.lead_email l) = true)
  /\ (forall pg index d,
        listings_found pg = true -> index < final_count pg ->
        listing pg index = Extracted (Some d) ->
        truthy_opt (name d) = true -> truthy (website d) = true ->
        exists evs leads,
          scrape_with_progress pg = Some (evs, Returned leads)
          /\ Server.forwarded evs d /\ In d leads
          /\ forall fmt job_id sch s j,
               Server.job_of job_id s = Some j ->
               is_Some (Server.job_rows (Server.db s) !! Server.db_id j) ->
               (forall i, Server.cancel_request (Server.ticks sch i) = false) ->
               Server.cancel_request (Server.teardown sch) = false ->
               exists s' l,
                 Server.run_scraping_job fmt job_id sch pg s
                 = Some (s', Server.Returns)
                 /\ In l (Server.lead_rows (Server.db s'))
                 /\ Server.row_of d l).
Proof.
  split; [|split].
  - intros pg evs res d Hs Hf.
    pose proof (forwarded_accepted pg evs res d Hs Hf) as Ha.
    apply andb_prop in Ha as [_ Ht]. exact Ht.
  - intros fmt job_id sch pg s s' ex Hrun.
    destruct (ServerFacts.run_lead_rows fmt job_id sch pg s s' ex Hrun)
      as (evs & res & added & Hs & Hrows & Hfrom).
    exists added. split; [exact Hrows|].
    intros l Hl. destruct (Hfrom l Hl) as (d & Hf & (_ & Hp & Hw & He)).
    rewrite Hp, Hw, He.
    pose proof (forwarded_accepted pg evs res d Hs Hf) as Ha.
    apply andb_prop in Ha as [_ Ht]. exact Ht.
  - intros pg index d Hfound Hidx Hl Hn Hw.
    assert (Hacc : accepted d = true).
    { unfold accepted, has_target_data. rewrite Hn, Hw, orb_true_r. reflexivity. }
    destruct (scrape_found pg Hfound) as (pre & Hscrape).
    unfold _extract_all_listings in Hscrape.
    destruct (extract_from_covers pg (final_count pg) (final_count pg) 0
                {| results := []; successful_extractions := 0 |} index
                ltac:(lia)) as (st & Hev & Hres).
    destruct (extract_step_forwards pg (final_count pg) index st d Hl Hacc)
      as [Hin Hd].
    destruct (extract_from pg (final_count pg) 0 (final_count pg) _)
      as [ee est]. simpl in Hscrape, Hev, Hres.
    assert (Hfw : Server.forwarded (pre ++ ee) d).
    { eexists. split; [apply in_or_app; right; apply Hev, Hin|reflexivity]. }
    exists (pre ++ ee), (results est).
    split; [exact Hscrape|]. split; [exact Hfw|]. split; [apply Hres, Hd|].
    intros fmt job_id sch s j Hj Hrow Hquiet Htd.
    destruct (ServerFacts.run_saves fmt job_id sch pg s j _ _ Hj Hrow Hquiet
                Htd Hscrape) as (s' & Hrun & _ & Hrows).
    assert (Hnamed : name d <> None)
      by (intros E; rewrite E in Hn; discriminate).
    destruct (Hrows d Hfw Hnamed) as (l & Hl' & Hr).
    exists s', l. auto.
Qed.

Lemma contact_item_forwarding_witness :
  has_target_data Examples.named_site = true
  /\ match Server.run_scraping_job Examples.show_seconds "job-1"
             (Examples.schedule None)
             (Examples.one_listing Examples.named_site) Examples.one_job with
     | Some (s', _) =>
         exists added,
           Server.lead_rows (Server.db s') = [] ++ added
           /\ forall l, In l added ->
                truthy (Server.lead_phone l) || truthy (Server.lead_website l)
                || truthy (Server.lead_email l) = true
     | None => False
     end
  /\ exists s' l,
       Server.run_scraping_job Examples.show_seconds "job-1"
         (Examples.schedule None)
         (Examples.one_listing Examples.named_site) Examples.one_job
       = Some (s', Server.Returns)
       /\ In l (Server.lead_rows (Server.db s'))
       /\ Server.row_of Examples.named_site l.
Proof.
  destruct contact_item_forwarding as (H1 & H2 & H3). split; [|split].
  - eapply (H1 (Examples.one_listing Examples.named_site));
      [vm_compute; reflexivity|].
    exists (cb_lead 1 1 1 "Found lead: Acme Plumbing" Examples.named_site).
    split; [|reflexivity].
    repeat (first [left; reflexivity | right]).
  - destruct (Server.run_scraping_job _ _ _ _ _) as [[s' ex]|] eqn:E;
      [|vm_compute in E; discriminate].
    exact (H2 _ _ _ _ _ _ _ E).
  - destruct (H3 (Examples.one_listing Examples.named_site) 0
                Examples.named_site eq_refl ltac:(simpl; lia) eq_refl eq_refl
                eq_refl) as (evs & leads & _ & _ & _ & Hrun).
    refine (Hrun Examples.show_seconds "job-1" (Examples.schedule None)
              Examples.one_job _ _ _ _ _).
    + vm_compute. reflexivity.
    + vm_compute. eexists. reflexivity.
    + intros i. reflexivity.
    + reflexivity.
Defined.

End LeadFacts.

(* ===================================================================== *)
(** * Cancellation, terminal statuses and the progress invariant *)
(* ===================================================================== *)

Module JobFacts.

Import Server.
Import ServerFacts.

(** Every step of the extraction loop opens with its "Processing" callback. *)
Lemma extract_step_begins pg total index st :
  In (Scraper.cb (index + 1) total (Scraper.successful_extractions st)
        (Scraper.processing_message index total))
     (fst (Scraper.extract_step pg total index st)).
Proof.
  unfold Scraper.extract_step.
  destruct (Scraper.listing pg index) as [|[d|]]; simpl; [auto| |auto].
  destruct (Scraper.truthy_opt (Scraper.name d));
    [destruct (Scraper.has_target_data d)|]; simpl; auto.
Qed.

Lemma scrape_events_ok pg evs res :
  Scraper.scrape_with_progress pg = Some (evs, res) -> Forall event_ok evs.
Proof.
  intros Hscrape. apply List.Forall_forall. intros ev Hin.
  destruct (ExtractFacts.scrape_events pg evs res ev Hscrape Hin)
    as [[Hp _]|(i & st & Hi & Hstep)].
  - unfold event_ok. rewrite Hp. lia.
  - apply ExtractFacts.extract_step_events in Hstep as (Hp & Ht & _).
    unfold event_ok. rewrite Hp, Ht. lia.
Qed.

Lemma start_registry_ok job_id term id now s :
  registry_ok s -> registry_ok (start_scraping job_id term id now s).
Proof.
  intros Hs i j. unfold start_scraping. simpl.
  destruct (decide (job_id = i)) as [->|Hne].
  - rewrite lookup_insert_eq. intros [= <-]. unfold job_ok. simpl. lia.
  - rewrite lookup_insert_ne by exact Hne. apply Hs.
Qed.

(** C6, as stated, fails.  With three listings on the page, a cancel
    request served just before the first pass of the scroll loop (callback
    number 4) is followed by nine passes and three extraction steps, and
    one served just before the first extraction step (callback number 14)
    by all three steps: neither loop looks at the job's status. *)
Lemma cancelled_job_keeps_going :
  is_cancelled "job-1" (Examples.cancelled_at 4 Examples.three_listings) = true
  /\ steps_after 4 (Examples.events_of Examples.three_listings) = 12
  /\ is_cancelled "job-1" (Examples.cancelled_at 14 Examples.three_listings) = true
  /\ steps_after 14 (Examples.events_of Examples.three_listings) = 3
  /\ ~ steps_after 14 (Examples.events_of Examples.three_listings) <= 1.
Proof.
  assert (H : steps_after 14 (Examples.events_of Examples.three_listings) = 3)
    by (vm_compute; reflexivity).
  repeat split; try (vm_compute; reflexivity). rewrite H. lia.
Qed.

(** C6, amended.  The cancelled status is looked at in two places only.
    The progress callback returns at once for a cancelled job: after a
    cancel request no later callback changes the job's entry or saves a
    lead.  And [run_scraping_job] looks once more when the scraper has
    returned: if a cancel request was served during the scrape it leaves
    the job cancelled.  The loops of the scraper never look: every listing
    gets its extraction step. *)
Theorem cancellation_seen_by_callback_only :
  (forall fmt job_id t s j ticks k evs,
      job_of job_id s = Some j ->
      job_of job_id (deliver fmt job_id ticks k evs
                       (cancel_scraping_job job_id t s))
      = job_of job_id (cancel_scraping_job job_id t s)
      /\ lead_rows (db (deliver fmt job_id ticks k evs
                          (cancel_scraping_job job_id t s)))
         = lead_rows (db s))
  /\ (forall fmt job_id sch pg s j evs leads,
        job_of job_id s = Some j ->
        is_Some (job_rows (db s) !! db_id j) ->
        Scraper.scrape_with_progress pg = Some (evs, Scraper.Returned leads) ->
        cancelled_before (ticks sch) (length evs)
        \/ cancel_request (teardown sch) = true ->
        exists s', run_scraping_job fmt job_id sch pg s = Some (s', Returns)
                   /\ status_of job_id s' = Some Cancelled)
  /\ (forall pg,
        Scraper.listings_found pg = true ->
        exists evs leads,
          Scraper.scrape_with_progress pg = Some (evs, Scraper.Returned leads)
          /\ forall index, index < Scraper.final_count pg ->
               exists n,
                 In (Scraper.cb (index + 1) (Scraper.final_count pg) n
                       (Scraper.processing_message index (Scraper.final_count pg)))
                    evs).
Proof.
  split; [|split].
  - intros fmt job_id t s j ticks k evs Hj.
    destruct (cancel_freezes job_id t s j Hj) as [Hf Hl].
    destruct (deliver_frozen fmt job_id ticks _ evs k _ Hf) as [(Hj' & _) Hl'].
    destruct Hf as (Hj0 & _). split; congruence.
  - intros fmt job_id sch pg s j evs leads Hj [row Hrow] Hscrape Hcancel.
    unfold run_scraping_job. unfold job_of in Hj. rewrite Hj.
    cbn [db enter_running]. rewrite Hrow.
    set (s2 := row_running (db_id j) (enter_running job_id (started sch) j s)).
    assert (Hj2 : job_of job_id s2
                  = Some (with_start (started sch)
                            (with_status Running "Initializing scraper..." j)))
      by (unfold job_of, s2; simpl; apply lookup_insert_eq).
    rewrite (is_cancelled_status job_id s2 _ Hj2). simpl.
    rewrite Hscrape.
    assert (Hfrozen : exists j', frozen job_id j'
                        (serve job_id (teardown sch)
                           (deliver fmt job_id (ticks sch) 0 evs s2))).
    { destruct Hcancel as [Hbefore|Htd].
      - destruct (deliver_cancelled_before fmt job_id (ticks sch) evs s2
                    ltac:(rewrite Hj2; eauto) Hbefore) as (j' & Hf).
        exists j'. apply serve_frozen, Hf.
      - destruct (deliver_job_some fmt job_id (ticks sch) job_id evs 0 s2
                    ltac:(unfold job_of in Hj2; rewrite Hj2; eauto)) as [j' Hj'].
        exists (with_status Cancelled "Job cancelled by user" j').
        unfold serve. rewrite Htd. apply cancel_freezes. exact Hj'. }
    destruct Hfrozen as (j' & Hf).
    rewrite (frozen_is_cancelled _ _ _ Hf).
    eexists. split; [reflexivity|].
    destruct Hf as (Hj' & Hs' & _). unfold status_of. rewrite Hj'. simpl.
    rewrite Hs'. reflexivity.
  - intros pg Hfound.
    destruct (LeadFacts.scrape_found pg Hfound) as (pre & Hscrape).
    eexists _, _. split; [exact Hscrape|].
    intros index Hidx. unfold Scraper._extract_all_listings.
    destruct (ExtractFacts.extract_from_covers pg (Scraper.final_count pg)
                (Scraper.final_count pg) 0
                {| Scraper.results := []; Scraper.successful_extractions := 0 |}
                index ltac:(lia)) as (st & Hev & _).
    destruct (Scraper.extract_from pg _ 0 _ _) as [ee est]. simpl in *.
    exists (Scraper.successful_extractions st).
    apply in_or_app. right. apply Hev, extract_step_begins.
Qed.

Lemma cancellation_seen_by_callback_only_witness :
  (job_of "job-1"
     (deliver Examples.show_seconds "job-1"
        (ticks (Examples.schedule None)) 0
        (Examples.events_of Examples.three_listings)
        (cancel_scraping_job "job-1" 5%Z Examples.one_job))
   = job_of "job-1" (cancel_scraping_job "job-1" 5%Z Examples.one_job)
   /\ lead_rows (db (deliver Examples.show_seconds "job-1"
                       (ticks (Examples.schedule None)) 0
                       (Examples.events_of Examples.three_listings)
                       (cancel_scraping_job "job-1" 5%Z Examples.one_job)))
      = [])
  /\ (exists s',
        run_scraping_job Examples.show_seconds "job-1"
          (Examples.schedule (Some 14)) Examples.three_listings Examples.one_job
        = Some (s', Returns)
        /\ status_of "job-1" s' = Some Cancelled)
  /\ (exists evs leads,
        Scraper.scrape_with_progress Examples.three_listings
        = Some (evs, Scraper.Returned leads)
        /\ forall index, index < 3 ->
             exists n, In (Scraper.cb (index + 1) 3 n
                             (Scraper.processing_message index 3)) evs).
Proof.
  destruct cancellation_seen_by_callback_only as (H1 & H2 & H3).
  split; [|split].
  - eapply (H1 Examples.show_seconds "job-1" 5%Z Examples.one_job).
    vm_compute. reflexivity.
  - eapply (H2 Examples.show_seconds "job-1" (Examples.schedule (Some 14))
              Examples.three_listings Examples.one_job).
    + vm_compute. reflexivity.
    + vm_compute. eexists. reflexivity.
    + vm_compute. reflexivity.
    + left. exists 14. split; [vm_compute; lia|reflexivity].
  - exact (H3 Examples.three_listings eq_refl).
Defined.

(** C7.  A job cancelled while the scraper is still navigating, on a page
    where no listing is then found, is cancelled when the scraper raises
    and failed when [run_scraping_job] is done: the [except] block does
    not look at the status.  And a completed job becomes cancelled when a
    cancel request comes for it afterwards. *)
Theorem terminal_status_overwritten :
  status_of "job-1" (Examples.cancelled_at 1 Examples.no_listings)
  = Some Cancelled
  /\ status_of "job-1" <$> Examples.after_run (Some 1) Examples.no_listings
     = Some (Some Failed)
  /\ status_of "job-1" <$> Examples.after_run None Examples.three_listings
     = Some (Some Completed)
  /\ status_of "job-1"
       <$> (cancel_scraping_job "job-1" 2000%Z
              <$> Examples.after_run None Examples.three_listings)
     = Some (Some Cancelled).
Proof. repeat split; vm_compute; reflexivity. Qed.

(** C8.  Every callback a scrape makes reports a progress that is at most
    its total; and the entries of the registry keep progress at most
    total_listings through [start_scraping], through each call of the
    callback, through the callbacks of a scrape up to any point, with
    cancel requests served in between, and through a whole run. *)
Theorem progress_within_total :
  (forall pg, exists evs res,
      Scraper.scrape_with_progress pg = Some (evs, res)
      /\ Forall event_ok evs)
  /\ (forall job_id term id now s,
        registry_ok s -> registry_ok (start_scraping job_id term id now s))
  /\ (forall fmt job_id ev now s,
        event_ok ev -> registry_ok s ->
        registry_ok (update_progress_with_lead fmt job_id ev now s))
  /\ (forall fmt job_id ticks pg evs res n s,
        Scraper.scrape_with_progress pg = Some (evs, res) ->
        registry_ok s ->
        registry_ok (deliver fmt job_id ticks 0 (firstn n evs) s))
  /\ (forall fmt job_id sch pg s s' ex,
        registry_ok s ->
        run_scraping_job fmt job_id sch pg s = Some (s', ex) ->
        registry_ok s').
Proof.
  split; [|split; [|split; [|split]]].
  - intros pg. destruct (ExtractFacts.scrape_total pg) as (evs & res & H).
    exists evs, res. split; [exact H|]. apply (scrape_events_ok pg evs res H).
  - apply start_registry_ok.
  - apply update_registry_ok.
  - intros fmt job_id ticks pg evs res n s Hscrape Hs.
    apply deliver_registry_ok; [|exact Hs].
    pose proof (scrape_events_ok pg evs res Hscrape) as Hok.
    apply List.Forall_forall. intros ev Hin.
    rewrite List.Forall_forall in Hok. apply Hok.
    rewrite <- (firstn_skipn n evs). apply in_or_app. left. exact Hin.
  - intros fmt job_id sch pg s s' ex Hs Hrun.
    exact (run_registry_ok fmt job_id sch pg s s' ex Hs Hrun).
Qed.

Lemma progress_within_total_witness :
  registry_ok Examples.one_job
  /\ registry_ok
       (update_progress_with_lead Examples.show_seconds "job-1"
          (Scraper.cb 2 3 1 "Processing listing 2/3") 20%Z Examples.one_job)
  /\ registry_ok
       (deliver Examples.show_seconds "job-1"
          (ticks (Examples.schedule (Some 14))) 0
          (firstn 16 (Examples.events_of Examples.three_listings))
          Examples.one_job)
  /\ match Examples.after_run (Some 14) Examples.three_listings with
     | Some s' => registry_ok s'
     | None => False
     end.
Proof.
  destruct progress_within_total as (_ & H2 & H3 & H4 & H5).
  assert (H0 : registry_ok Examples.no_jobs).
  { intros id j. unfold Examples.no_jobs. simpl. rewrite lookup_empty.
    discriminate. }
  assert (H1 : registry_ok Examples.one_job) by (apply H2, H0).
  split; [exact H1|]. split; [|split].
  - apply H3; [unfold event_ok; simpl; lia|exact H1].
  - eapply (H4 _ _ _ Examples.three_listings); [vm_compute; reflexivity|exact H1].
  - unfold Examples.after_run.
    destruct (run_scraping_job _ _ _ _ _) as [[s' ex]|] eqn:E;
      [|vm_compute in E; discriminate].
    exact (H5 _ _ _ _ _ _ _ H1 E).
Defined.

End JobFacts.

(* ===================================================================== *)
(** * Facts about the rate limiter *)
(* ===================================================================== *)

Module RateLimiterFacts.

Import RateLimiter.

Local Open Scope Q_scope.

Lemma Qltb_lt x y : Qltb x y = true <-> x < y.
Proof.
  unfold Qltb. rewrite Qlt_alt.
  destruct (x ?= y); split; congruence.
Qed.

Lemma Qltb_ge x y : Qltb x y = false <-> y <= x.
Proof.
  rewrite <- Bool.not_true_iff_false, Qltb_lt. split.
  - apply Qnot_lt_le.
  - apply Qle_not_lt.
Qed.

(** On an ordered deque, popping from the head removes exactly the
    timestamps older than the cutoff. *)
Lemma purge_filter cutoff ts :
  ordered ts -> purge cutoff ts = List.filter (in_window cutoff) ts.
Proof.
  intros Hs. apply Sorted_StronglySorted in Hs;
    [|intros x y z; apply Qle_trans].
  induction Hs as [|t ts Hs IH Hall]; simpl; [reflexivity|].
  unfold in_window at 1. destruct (Qltb t cutoff) eqn:E; simpl; [exact IH|].
  f_equal. apply Qltb_ge in E.
  clear IH Hs. induction Hall as [|x xs Hx Hall IH]; simpl; [reflexivity|].
  unfold in_window at 1.
  assert (Hx' : Qltb x cutoff = false)
    by (apply Qltb_ge; eapply Qle_trans; eauto).
  rewrite Hx'. simpl. f_equal. exact IH.
Qed.

Lemma purge_ordered cutoff ts : ordered ts -> ordered (purge cutoff ts).
Proof.
  unfold ordered. induction ts as [|t ts IH]; simpl; intros Hs; [constructor|].
  destruct (Qltb t cutoff); [|exact Hs].
  apply IH. inversion Hs; assumption.
Qed.

(** A clock that does not run backwards keeps the deque ordered. *)
Lemma record_request_ordered now success rl :
  ordered (request_times rl) ->
  (forall t, In t (request_times rl) -> t <= now) ->
  ordered (request_times (record_request now success rl)).
Proof.
  unfold ordered, record_request. simpl.
  induction (request_times rl) as [|t ts IH]; simpl; intros Hs Hle.
  - repeat constructor.
  - inversion Hs as [|? ? Hs' Hhd]; subst. constructor.
    + apply IH; [exact Hs'|]. intros x Hx. apply Hle. right; exact Hx.
    + destruct ts as [|t' ts']; simpl.
      * constructor. apply Hle. left; reflexivity.
      * constructor. inversion Hhd; assumption.
Qed.

(** The four channels are configured with a positive quota, a positive
    period and a backoff factor above one. *)
Lemma default_configs_sound channel c :
  default_configs channel = Some c ->
  (0 < requests_per_period c)%Z /\ (0 < period_seconds c)%Z
  /\ 1 < backoff_factor c.
Proof.
  unfold default_configs.
  repeat (destruct (String.eqb channel _);
          [intros [= <-]; repeat split|]).
  discriminate.
Qed.

(** C3, as stated, fails.  On a deque whose clock ran backwards,
    [100; 10] read at time 120 with a period of 60 and a quota of two,
    [can_make_request] pops from the head only: it leaves the expired
    timestamp 10 where it is and answers false with one timestamp in the
    window.  And with a quota of zero it answers false on an empty
    window. *)
Lemma can_make_request_keeps_expired :
  (let rl := Examples.stale_tail_limiter in
   let cutoff := 120 - inject_Z (period_seconds (config rl)) in
   request_times (snd (can_make_request 120 rl)) = [100; 10]
   /\ 10 < cutoff
   /\ List.filter (in_window cutoff) (request_times rl) = [100]
   /\ (Z.of_nat (length (List.filter (in_window cutoff) (request_times rl)))
       < requests_per_period (config rl))%Z
   /\ fst (can_make_request 120 rl) = false
   /\ ~ (fst (can_make_request 120 rl) = true
         <-> (Z.of_nat (length (List.filter (in_window cutoff)
                                  (request_times rl)))
              < requests_per_period (config rl))%Z))
  /\ (request_times (snd (can_make_request 0 (init (mk_config 0 60 None 2))))
      = []
      /\ fst (can_make_request 0 (init (mk_config 0 60 None 2))) = false).
Proof.
  split; [|split; reflexivity].
  cbv zeta. split; [reflexivity|]. split; [reflexivity|].
  split; [reflexivity|]. split; [simpl; lia|]. split; [reflexivity|].
  intros [_ H]. assert (E : false = true) by (apply H; simpl; lia).
  discriminate E.
Qed.

(** C3, amended.  On a deque that holds its timestamps in the order they
    were taken, [can_make_request] removes exactly the timestamps older
    than now - period_seconds and answers true iff fewer than
    requests_per_period are left: false when exactly requests_per_period
    are left, and true, the quota being positive, when none is left. *)
Theorem can_make_request_spec :
  (forall rl now,
      ordered (request_times rl) ->
      let cutoff := now - inject_Z (period_seconds (config rl)) in
      let ok := fst (can_make_request now rl) in
      let left := request_times (snd (can_make_request now rl)) in
      left = List.filter (in_window cutoff) (request_times rl)
      /\ (forall t, In t left <-> In t (request_times rl) /\ ~ t < cutoff)
      /\ (ok = true
          <-> (Z.of_nat (length left) < requests_per_period (config rl))%Z)
      /\ (Z.of_nat (length left) = requests_per_period (config rl) ->
          ok = false)
      /\ ((0 < requests_per_period (config rl))%Z -> left = [] -> ok = true))
  /\ (forall channel c,
        default_configs channel = Some c ->
        (0 < requests_per_period c)%Z).
Proof.
  split; [|intros channel c H; apply (default_configs_sound channel c H)].
  intros rl now Hs cutoff ok left.
  assert (Hleft : left = List.filter (in_window cutoff) (request_times rl))
    by (apply purge_filter, Hs).
  assert (Hok : ok = (Z.of_nat (length left) <? requests_per_period (config rl))%Z)
    by reflexivity.
  split; [exact Hleft|]. split; [|split; [|split]].
  - intros t. rewrite Hleft, filter_In. unfold in_window.
    rewrite Bool.negb_true_iff, Qltb_ge. split; intros [Hin Hc]; split; auto.
    + apply Qle_not_lt, Hc.
    + apply Qnot_lt_le, Hc.
  - rewrite Hok. apply Z.ltb_lt.
  - intros He. rewrite Hok, He. apply Z.ltb_irrefl.
  - intros Hpos He. rewrite Hok, He. simpl. apply Z.ltb_lt, Hpos.
Qed.

Lemma can_make_request_spec_witness :
  fst (can_make_request 100 Examples.busy_limiter) = false
  /\ fst (can_make_request 100 Examples.idle_limiter) = true
  /\ (0 < requests_per_period (config Examples.idle_limiter))%Z.
Proof.
  destruct can_make_request_spec as [Hspec Hdefault].
  split; [|split].
  - assert (Ho : ordered (request_times Examples.busy_limiter)).
    { unfold ordered. simpl. repeat constructor; unfold Qle; simpl; lia. }
    destruct (Hspec Examples.busy_limiter 100 Ho) as (_ & _ & _ & Hfull & _).
    apply Hfull. reflexivity.
  - assert (Ho : ordered (request_times Examples.idle_limiter))
      by constructor.
    destruct (Hspec Examples.idle_limiter 100 Ho) as (_ & _ & _ & _ & Hempty).
    apply Hempty; [simpl; lia|reflexivity].
  - apply (Hdefault "scraping"). reflexivity.
Defined.


(** ** The power and its cap *)


Lemma float_pow_overflow x n :
  float_max < Qabs (x ^ Z.of_nat n) -> float_pow x n = None.
Proof.
  intros H. unfold float_pow. apply Qltb_lt in H. rewrite H. reflexivity.
Qed.


Lemma backoff_overflow c n :
  float_max < Qabs (backoff_factor c ^ Z.of_nat n) -> backoff c n = None.
Proof. intros H. unfold backoff. rewrite (float_pow_overflow _ _ H). reflexivity. Qed.









End RateLimiterFacts.

(* ===================================================================== *)
(** * Facts about the proxy rotator *)
(* ===================================================================== *)

Module ProxyFacts.

Import ProxyRotation.

(** A rotator with a proxy in its list downloads nothing, at any time. *)
Lemma cached_list_kept net now r :
  proxies r <> [] ->
  snd (get_working_proxy net now r) = []
  /\ snd (fst (get_working_proxy net now r)) = r.
Proof.
  unfold get_working_proxy. destruct (proxies r) eqn:E; [congruence|].
  intros _. simpl. split; reflexivity.
Qed.

(** A rotator with an empty list downloads on every call, at any time. *)
Lemma empty_list_reloaded net now r :
  proxies r = [] -> snd (get_working_proxy net now r) = proxy_sources.
Proof. unfold get_working_proxy. intros ->. reflexivity. Qed.

(** When every download fails the answer is [None]. *)
Lemma failed_refresh_gives_none net now r :
  proxies r = [] -> (forall src, http_get net src = None) ->
  fst (fst (get_working_proxy net now r)) = None.
Proof.
  unfold get_working_proxy, _load_proxies. intros -> Hnone.
  unfold proxy_sources. simpl. rewrite !Hnone. simpl.
  induction (sample_indices net 0 0) as [|i l IH]; simpl; [reflexivity|].
  exact IH.
Qed.

(** C9.  Two hours after its last load, with the update interval of one
    hour long elapsed, a rotator that holds a proxy answers from its list
    and requests none of the source lists, though all of them would
    answer; [last_update] stays 0.  A rotator with an empty list requests
    the sources whatever the time, and answers [None] when they fail. *)
Theorem proxy_list_not_time_gated :
  refresh_due 7200 Examples.cached_rotator = true
  /\ get_working_proxy Examples.live_net 7200 Examples.cached_rotator
     = (Some "http://10.0.0.1:8080", Examples.cached_rotator, [])
  /\ last_update (fst (init Examples.live_net)) = 0%Z
  /\ get_working_proxy Examples.dead_net 1
       (fst (init Examples.dead_net))
     = (None, fst (init Examples.dead_net), proxy_sources).
Proof. repeat split; vm_compute; reflexivity. Qed.

End ProxyFacts.

(* ===================================================================== *)
(** * Further facts about the rate limiter *)
(* ===================================================================== *)

Module RateLimiterUse.

Import RateLimiter.
Import RateLimiterFacts.

Local Open Scope Q_scope.

Lemma in_window_later now now' period t :
  now <= now' ->
  in_window (now' - inject_Z period) t = true ->
  in_window (now - inject_Z period) t = true.
Proof.
  unfold in_window. rewrite !Bool.negb_true_iff, !Qltb_ge. intros. lra.
Qed.

Lemma filter_length_mono {A} (p q : A -> bool) (l : list A) :
  (forall x, p x = true -> q x = true) ->
  (length (List.filter p l) <= length (List.filter q l))%nat.
Proof.
  intros Hpq. induction l as [|x l IH]; simpl; [lia|].
  destruct (p x) eqn:Hp.
  - rewrite (Hpq x Hp). simpl. lia.
  - destruct (q x); simpl; lia.
Qed.

Lemma filter_length_le {A} (p : A -> bool) (l : list A) :
  (length (List.filter p l) <= length l)%nat.
Proof.
  induction l as [|x l IH]; simpl; [lia|]. destruct (p x); simpl; lia.
Qed.

(** The window only loses timestamps as time goes on. *)
Lemma window_count_later now now' rl :
  now <= now' -> (window_count now' rl <= window_count now rl)%nat.
Proof.
  intros H. unfold window_count. apply filter_length_mono.
  intros t. apply in_window_later, H.
Qed.

(** Popping from the head never removes a timestamp of the window. *)
Lemma purge_keeps_window cutoff ts :
  (length (List.filter (in_window cutoff) ts) <= length (purge cutoff ts))%nat
  /\ (forall t, In t ts -> in_window cutoff t = true -> In t (purge cutoff ts)).
Proof.
  induction ts as [|x ts [IHl IHi]]; simpl; [split; [lia|tauto]|].
  unfold in_window at 1. destruct (Qltb x cutoff) eqn:E; simpl.
  - split; [exact IHl|]. intros t [<-|Hin] Hw; [|auto].
    unfold in_window in Hw. rewrite E in Hw. discriminate.
  - split; [|tauto].
    pose proof (filter_length_le (in_window cutoff) ts). lia.
Qed.

Lemma with_jitter_nonneg c u d : 0 <= with_jitter c u d.
Proof. unfold with_jitter. apply Q.le_max_l. Qed.

Lemma with_jitter_covers c u base wait :
  0 <= u -> wait <= base -> wait <= with_jitter c u base.
Proof.
  intros Hu Hb. unfold with_jitter.
  destruct (Qlt_le_dec base 0) as [Hneg|Hpos].
  - eapply Qle_trans; [|apply Q.le_max_l]. lra.
  - eapply Qle_trans; [|apply Q.le_max_r].
    destruct (jitter c); [|exact Hb].
    assert (0 <= base * (1 # 10) * u).
    { apply Qmult_le_0_compat; [|exact Hu].
      apply Qmult_le_0_compat; [exact Hpos|discriminate]. }
    lra.
Qed.

(** The delay of a full window is at least the wait for its oldest
    timestamp to leave it. *)
Lemma delay_covers_wait now1 now2 u rl d oldest rest :
  0 <= u ->
  fst (can_make_request now1 rl) = false ->
  request_times (snd (can_make_request now1 rl)) = oldest :: rest ->
  fst (get_delay now1 now2 u rl) = inr d ->
  oldest + inject_Z (period_seconds (config rl)) - now2 <= d.
Proof.
  intros Hu Hfull Hold. unfold get_delay. unfold can_make_request in *.
  simpl in Hfull, Hold. rewrite Hfull.
  cbn [fst snd with_times request_times config consecutive_failures].
  rewrite Hold.
  set (wait := oldest + inject_Z (period_seconds (config rl)) - now2).
  destruct (0 <? consecutive_failures rl)%nat.
  - destruct (backoff (config rl) (consecutive_failures rl)) as [bk|];
      [|discriminate].
    intros [= <-]. apply with_jitter_covers; [exact Hu|apply Q.le_max_l].
  - intros [= <-]. apply with_jitter_covers; [exact Hu|apply Qle_refl].
Qed.

Lemma Forall_le_trans (ts : list Q) a b :
  (forall x, In x ts -> x <= a) -> a <= b -> forall x, In x ts -> x <= b.
Proof. intros H Hab x Hx. eapply Qle_trans; [apply H, Hx|exact Hab]. Qed.

Lemma purge_In cutoff ts t : In t (purge cutoff ts) -> In t ts.
Proof.
  induction ts as [|x ts IH]; simpl; [tauto|].
  destruct (Qltb x cutoff); [right; auto|tauto].
Qed.

Lemma get_delay_snd now1 now2 u rl :
  snd (get_delay now1 now2 u rl) = snd (can_make_request now1 rl).
Proof.
  unfold get_delay.
  destruct (can_make_request now1 rl) as [ok rl1]. cbn [snd].
  destruct ok; [reflexivity|].
  destruct (request_times rl1); [reflexivity|].
  destruct (0 <? consecutive_failures rl1)%nat; [|reflexivity].
  destruct (backoff _ _); reflexivity.
Qed.

Lemma get_delay_state now1 now2 u rl d rl' :
  get_delay now1 now2 u rl = (inr d, rl') ->
  rl' = snd (can_make_request now1 rl) /\ 0 <= d
  /\ (fst (can_make_request now1 rl) = false ->
      exists oldest rest, request_times rl' = oldest :: rest).
Proof.
  intros H. pose proof (get_delay_snd now1 now2 u rl) as Hs.
  rewrite H in Hs. cbn [snd] in Hs. split; [exact Hs|].
  revert H. unfold get_delay.
  destruct (can_make_request now1 rl) as [ok rl1]. cbn [fst snd] in *.
  destruct ok.
  - intros [= <- _]. split; [apply Qle_refl|discriminate].
  - destruct (request_times rl1) as [|oldest rest] eqn:E; [discriminate|].
    subst rl'. rewrite E.
    destruct (0 <? consecutive_failures rl1)%nat;
      [destruct (backoff _ _); [|discriminate]|];
      intros [= <-]; (split; [apply with_jitter_nonneg|eauto]).
Qed.

Lemma filter_filter_length {A} (p q : A -> bool) (l : list A) :
  (length (List.filter p (List.filter q l)) <= length (List.filter p l))%nat.
Proof.
  induction l as [|x l IH]; simpl; [lia|].
  destruct (q x); simpl; destruct (p x); simpl; lia.
Qed.

(** X1.  The calls of a function decorated with [rate_limited], made one
    after the other under a clock that does not run backwards.  If every
    request is recorded at a clock reading strictly later than the end of
    the delay [get_delay] gave it, the limiter's deque stays in clock
    order and no window of period_seconds that ends at or after the last
    request holds more than requests_per_period of its timestamps.  Both
    conditions are needed.  A request recorded at the very end of its
    delay, which is all [time.sleep] promises, leaves two timestamps in
    the window of a limiter of one request per period; and so do two
    calls of which the second asks for its delay before the first has
    recorded its request. *)
Theorem gated_requests_keep_quota :
  (forall c rl t,
      (0 <= requests_per_period c)%Z ->
      served Qlt c rl t ->
      config rl = c
      /\ ordered (request_times rl)
      /\ (forall x, In x (request_times rl) -> x <= t)
      /\ (forall now, t <= now ->
            (Z.of_nat (window_count now rl) <= requests_per_period c)%Z))
  /\ (served Qle (mk_config 1 10 None 2) Examples.on_time_served 10
      /\ window_count 10 Examples.on_time_served = 2%nat)
  /\ (let rl0 := init (mk_config 1 10 None 2) in
      let rl1 := snd (get_delay 0 0 0 rl0) in
      let rl2 := snd (get_delay 1 1 0 rl1) in
      fst (get_delay 0 0 0 rl0) = inr 0
      /\ fst (get_delay 1 1 0 rl1) = inr 0
      /\ window_count 3 (record_request 3 true (record_request 2 true rl2))
         = 2%nat).
Proof.
  split; [|split].
  2:{ split; [|reflexivity]. unfold Examples.on_time_served.
      set (c := mk_config 1 10 None 2).
      set (rl1 := record_request 0 true (snd (get_delay 0 0 0 (init c)))).
      assert (H1 : served Qle c rl1 0).
      { apply (served_next Qle c (init c) 0 0 0 0 0 0 _ true);
          [apply served_init|apply Qle_refl ..|reflexivity
          |vm_compute; discriminate]. }
      eapply (served_next Qle c rl1 0 5 5 0 10 _ _ true H1).
      - discriminate.
      - apply Qle_refl.
      - apply Qle_refl.
      - reflexivity.
      - vm_compute. discriminate. }
  2:{ repeat split. }
  intros c rl t Hq Hs.
  assert (Hinv : config rl = c /\ ordered (request_times rl)
                 /\ (forall x, In x (request_times rl) -> x <= t)
                 /\ (Z.of_nat (window_count t rl) <= requests_per_period c)%Z).
  2:{ destruct Hinv as (Hc & Ho & Hle & Hw). repeat split; auto.
      intros now Hnow. pose proof (window_count_later t now rl Hnow). lia. }
  induction Hs as [t|rl t now1 now2 u now3 d rl' success Hs IH H1 H2 Hu Hd H3
                   |rl t now1 now2 u e rl' Hs IH H1 H2 Hd].
  - repeat split; simpl; [constructor | tauto | unfold window_count; simpl; lia].
  - destruct IH as (Hc & Ho & Hle & Hw).
    pose proof (window_count_later t now1 rl H1) as Hw1.
    destruct (get_delay_state _ _ _ _ _ _ Hd) as (Hrl' & Hd0 & Hfull).
    assert (Hts : request_times rl'
                  = List.filter (in_window (now1 - inject_Z (period_seconds (config rl))))
                      (request_times rl)).
    { rewrite Hrl'. simpl. apply purge_filter, Ho. }
    assert (Hcfg : config rl' = config rl) by (rewrite Hrl'; reflexivity).
    assert (Hlen : length (request_times rl') = window_count now1 rl)
      by (rewrite Hts; reflexivity).
    assert (Ho' : ordered (request_times rl'))
      by (rewrite Hrl'; simpl; apply purge_ordered, Ho).
    assert (Hle' : forall x, In x (request_times rl') -> x <= now3).
    { intros x Hx. rewrite Hts in Hx. apply filter_In in Hx as [Hx _].
      pose proof (Hle x Hx). lra. }
    repeat split.
    + simpl. congruence.
    + apply (record_request_ordered now3 success rl' Ho' Hle').
    + simpl. intros x Hx. apply in_app_or in Hx as [Hx|[<-|[]]];
        [apply Hle', Hx|apply Qle_refl].
    + unfold window_count. simpl. rewrite List.filter_app, length_app.
      rewrite Hcfg.
      set (cut3 := now3 - inject_Z (period_seconds (config rl))).
      assert (Hone : (length (List.filter (in_window cut3) [now3]) <= 1)%nat)
        by (simpl; destruct (in_window cut3 now3); simpl; lia).
      destruct (fst (can_make_request now1 rl)) eqn:Hok.
      * assert (Z.of_nat (length (request_times rl'))
                < requests_per_period (config rl))%Z.
        { rewrite Hrl'. apply Z.ltb_lt. exact Hok. }
        pose proof (filter_length_le (in_window cut3) (request_times rl')).
        rewrite <- Hc. lia.
      * destruct (Hfull eq_refl) as (oldest & rest & Hold).
        assert (Hwait : oldest + inject_Z (period_seconds (config rl)) - now2 <= d).
        { apply (delay_covers_wait now1 now2 u rl d oldest rest Hu Hok).
          - rewrite <- Hrl'. exact Hold.
          - rewrite Hd. reflexivity. }
        assert (Hout : in_window cut3 oldest = false).
        { unfold in_window. rewrite Bool.negb_false_iff. apply Qltb_lt.
          unfold cut3. lra. }
        rewrite Hold in *. simpl. rewrite Hout.
        pose proof (filter_length_le (in_window cut3) rest).
        simpl in Hlen, Hone. lia.
  - destruct IH as (Hc & Ho & Hle & Hw).
    pose proof (get_delay_snd now1 now2 u rl) as Hrl'.
    rewrite Hd in Hrl'. cbn [snd] in Hrl'. subst rl'.
    cbn [can_make_request snd with_times config request_times].
    rewrite (purge_filter _ _ Ho).
    repeat split.
    + exact Hc.
    + rewrite <- (purge_filter _ _ Ho). apply purge_ordered, Ho.
    + intros x Hx. apply filter_In in Hx as [Hx _].
      pose proof (Hle x Hx). lra.
    + pose proof (window_count_later t now2 rl ltac:(lra)) as Hw2.
      unfold window_count in *.
      cbn [can_make_request snd with_times config request_times].
      pose proof (filter_filter_length
                    (in_window (now2 - inject_Z (period_seconds (config rl))))
                    (in_window (now1 - inject_Z (period_seconds (config rl))))
                    (request_times rl)).
      lia.
Qed.

Lemma gated_requests_keep_quota_witness :
  (Z.of_nat (window_count 12 Examples.twice_served) <= 1)%Z
  /\ ordered (request_times Examples.twice_served).
Proof.
  assert (Hs : served Qlt (mk_config 1 10 None 2) Examples.twice_served 12).
  { unfold Examples.twice_served.
    set (c := mk_config 1 10 None 2).
    set (rl1 := record_request 1 true (snd (get_delay 0 0 0 (init c)))).
    assert (H1 : served Qlt c rl1 1).
    { apply (served_next Qlt c (init c) 0 0 0 0 1 0 _ true);
        [apply served_init|apply Qle_refl ..|reflexivity|reflexivity]. }
    eapply (served_next Qlt c rl1 1 2 2 0 12 _ _ true H1).
    - discriminate.
    - apply Qle_refl.
    - apply Qle_refl.
    - reflexivity.
    - reflexivity. }
  assert (Hq : (0 <= requests_per_period (mk_config 1 10 None 2))%Z)
    by (simpl; lia).
  destruct (proj1 gated_requests_keep_quota _ _ _ Hq Hs) as (_ & Ho & _ & Hw).
  split; [apply (Hw 12), Qle_refl|exact Ho].
Defined.



(** X3.  Whatever the order of the deque, [can_make_request] keeps every
    timestamp that is still inside the window, so it never says yes while
    the window holds requests_per_period timestamps or more. *)
Theorem can_make_request_never_overadmits now rl :
  (forall t, In t (request_times rl) ->
      in_window (now - inject_Z (period_seconds (config rl))) t = true ->
      In t (request_times (snd (can_make_request now rl))))
  /\ (fst (can_make_request now rl) = true ->
      (Z.of_nat (window_count now rl) < requests_per_period (config rl))%Z).
Proof.
  unfold can_make_request, window_count. simpl.
  destruct (purge_keeps_window (now - inject_Z (period_seconds (config rl)))
              (request_times rl)) as [Hlen Hin].
  split; [exact Hin|]. intros H. apply Z.ltb_lt in H. lia.
Qed.

Lemma can_make_request_never_overadmits_witness :
  (Z.of_nat (window_count 120 Examples.disordered_limiter) < 3)%Z.
Proof.
  apply (proj2 (can_make_request_never_overadmits 120
                  Examples.disordered_limiter)).
  reflexivity.
Defined.

(** X4.  [adaptive_delay] with a non-negative base and cap: for a failure
    count other than zero the result lies within 20% of
    min(base_delay * 2 ** min(failure_count, 10), max_delay), hence never
    above 1.2 * max_delay; the failure count matters up to ten only; and
    for a failure count of zero the result is base_delay itself, with no
    cap and no jitter. *)
Theorem adaptive_delay_bounds base fc maxd u :
  0 <= base -> 0 <= maxd -> 0 <= u -> u <= 1 ->
  let capped := Qmin (base * 2 ^ Z.min fc 10) maxd in
  (fc <> 0%Z ->
     (4 # 5) * capped <= adaptive_delay base fc maxd u
     /\ adaptive_delay base fc maxd u <= (6 # 5) * capped
     /\ adaptive_delay base fc maxd u <= (6 # 5) * maxd)
  /\ ((10 <= fc)%Z ->
      adaptive_delay base fc maxd u = adaptive_delay base 10 maxd u)
  /\ adaptive_delay base 0 maxd u = base.
Proof.
  intros Hb Hm Hu0 Hu1 capped. split; [|split].
  - intros Hfc. unfold adaptive_delay.
    destruct (Z.eqb_spec fc 0) as [->|_]; [contradiction|].
    fold capped.
    assert (Hc0 : 0 <= capped).
    { unfold capped. apply Q.min_glb; [|exact Hm].
      apply Qmult_le_0_compat; [exact Hb|]. apply Qpower_0_le. discriminate. }
    assert (Hcm : capped <= maxd) by apply Q.le_min_r.
    assert (Hcu : 0 <= capped * u) by (apply Qmult_le_0_compat; assumption).
    assert (Hcu1 : capped * u <= capped).
    { apply Qle_trans with (capped * 1); [|rewrite Qmult_1_r; apply Qle_refl].
      rewrite (Qmult_comm capped u), (Qmult_comm capped 1).
      apply Qmult_le_compat_r; assumption. }
    set (x := capped + (- (1 # 5) + ((1 # 5) - - (1 # 5)) * u) * capped).
    assert (Hx : x == (4 # 5) * capped + (2 # 5) * (capped * u))
      by (unfold x; ring).
    assert (Hmax : Qmax 0 x == x) by (apply Q.max_r; lra).
    rewrite Hmax, Hx. repeat split; lra.
  - intros Hfc. unfold adaptive_delay.
    destruct (Z.eqb_spec fc 0) as [->|_]; [lia|].
    rewrite (Z.min_r fc 10) by lia. reflexivity.
  - reflexivity.
Qed.

Lemma adaptive_delay_bounds_witness :
  adaptive_delay 1 3 300 (1 # 2) <= (6 # 5) * 300
  /\ adaptive_delay 1 12 300 (1 # 2) = adaptive_delay 1 10 300 (1 # 2).
Proof.
  destruct (adaptive_delay_bounds 1 3 300 (1 # 2)) as (Hb & _ & _);
    try discriminate.
  destruct (adaptive_delay_bounds 1 12 300 (1 # 2)) as (_ & Hten & _);
    try discriminate.
  split; [apply Hb; discriminate|apply Hten; lia].
Defined.

(** X5.  [smart_delay] with 0 <= min_delay <= max_delay and a success rate
    between 0 and 1 returns a delay between 0.8 * min_delay and
    1.2 * max_delay. *)
Theorem smart_delay_bounds lo hi rate u :
  0 <= lo -> lo <= hi -> 0 <= rate -> rate <= 1 -> 0 <= u -> u <= 1 ->
  (4 # 5) * lo <= smart_delay lo hi rate u
  /\ smart_delay lo hi rate u <= (6 # 5) * hi.
Proof.
  intros Hlo Hhi Hr0 Hr1 Hu0 Hu1. unfold smart_delay.
  set (delay := lo + (hi - lo) * (1 - rate)).
  set (j := (4 # 5) + ((6 # 5) - (4 # 5)) * u).
  assert (Hp : 0 <= (hi - lo) * (1 - rate))
    by (apply Qmult_le_0_compat; lra).
  assert (Hp' : (hi - lo) * (1 - rate) <= (hi - lo) * 1).
  { rewrite (Qmult_comm (hi - lo) (1 - rate)), (Qmult_comm (hi - lo) 1).
    apply Qmult_le_compat_r; lra. }
  assert (Hd0 : lo <= delay) by (unfold delay; lra).
  assert (Hd1 : delay <= hi) by (unfold delay; lra).
  assert (Hj0 : (4 # 5) <= j) by (unfold j; lra).
  assert (Hj1 : j <= (6 # 5)) by (unfold j; lra).
  split.
  - apply Qle_trans with (lo * j).
    + rewrite (Qmult_comm (4 # 5) lo), (Qmult_comm lo j), (Qmult_comm lo (4#5)).
      apply Qmult_le_compat_r; lra.
    + apply Qmult_le_compat_r; lra.
  - apply Qle_trans with (hi * j).
    + apply Qmult_le_compat_r; lra.
    + rewrite (Qmult_comm hi j), (Qmult_comm (6 # 5) hi), (Qmult_comm hi (6#5)).
      apply Qmult_le_compat_r; lra.
Qed.

Lemma smart_delay_bounds_witness :
  (4 # 5) * 1 <= smart_delay 1 3 (1 # 2) (1 # 4)
  /\ smart_delay 1 3 (1 # 2) (1 # 4) <= (6 # 5) * 3.
Proof. apply smart_delay_bounds; discriminate. Defined.

Lemma purge_idem cutoff ts : purge cutoff (purge cutoff ts) = purge cutoff ts.
Proof.
  induction ts as [|x ts IH]; simpl; [reflexivity|].
  destruct (Qltb x cutoff) eqn:E; [exact IH|]. simpl. rewrite E. reflexivity.
Qed.

(** X6.  [SlidingWindowCounter.get_count] never counts fewer requests than
    the window holds, counts exactly those when the timestamps are in
    order, and gives the same count when asked again at the same time; a
    request added without a timestamp is counted as long as the clock has
    not moved on by more than the window size. *)
Theorem sliding_window_counts :
  (forall now w,
      let cutoff := now - inject_Z (window_size w) in
      (length (List.filter (in_window cutoff) (requests w))
       <= fst (get_count now w))%nat
      /\ (ordered (requests w) ->
          fst (get_count now w)
          = length (List.filter (in_window cutoff) (requests w)))
      /\ get_count now (snd (get_count now w)) = get_count now w)
  /\ (forall now1 now2 w,
        now2 - inject_Z (window_size w) <= now1 ->
        (1 <= fst (get_count now2 (add_request None now1 now2 w)))%nat).
Proof.
  split.
  - intros now w cutoff. unfold get_count, _cleanup. simpl. fold cutoff.
    split; [apply purge_keeps_window|]. split.
    + intros Ho. rewrite (purge_filter cutoff _ Ho). reflexivity.
    + rewrite purge_idem. reflexivity.
  - intros now1 now2 w Hw. unfold get_count, add_request, _cleanup. simpl.
    set (cutoff := now2 - inject_Z (window_size w)) in *.
    rewrite purge_idem.
    assert (Hin : In now1 (purge cutoff (requests w ++ [now1]))).
    { apply purge_keeps_window.
      - apply in_or_app. right. left. reflexivity.
      - unfold in_window. rewrite Bool.negb_true_iff. apply Qltb_ge. exact Hw. }
    destruct (purge cutoff (requests w ++ [now1])); [destruct Hin|simpl; lia].
Qed.

Lemma sliding_window_counts_witness :
  fst (get_count 100 {| window_size := 60; requests := [10; 50; 90] |}) = 2%nat
  /\ (1 <= fst (get_count 101
                  (add_request None 100 101
                     {| window_size := 60; requests := [] |})))%nat.
Proof.
  destruct sliding_window_counts as [Hcount Hadd]. split.
  - destruct (Hcount 100 {| window_size := 60; requests := [10; 50; 90] |})
      as (_ & Hexact & _).
    rewrite Hexact; [reflexivity|].
    unfold ordered. simpl. repeat constructor; unfold Qle; simpl; lia.
  - apply Hadd. discriminate.
Defined.

(** X7.  The named limiters of [GlobalRateLimiter].  A limiter that exists
    is returned as it is, whatever configuration the call passes.  A
    missing one is created fresh from the configuration passed, or, if
    none is passed, from the default of that name, and stored under the
    name; the call fails only when there is neither, and then changes
    nothing.  Recording a request under one name changes the limiter of
    that name alone. *)
Theorem named_limiters_independent :
  (forall name cfg limiters rl,
      limiters !! name = Some rl ->
      get_limiter name cfg limiters = (Some rl, limiters))
  /\ (forall name cfg limiters,
        limiters !! name = None ->
        (forall c, cfg = Some c ->
           get_limiter name cfg limiters
           = (Some (init c), <[name := init c]> limiters))
        /\ (forall c, cfg = None -> default_configs name = Some c ->
              get_limiter name cfg limiters
              = (Some (init c), <[name := init c]> limiters))
        /\ (cfg = None -> default_configs name = None ->
            get_limiter name cfg limiters = (None, limiters))
        /\ (fst (get_limiter name cfg limiters) = None
            <-> cfg = None /\ default_configs name = None))
  /\ (forall name cfg limiters rl limiters',
        get_limiter name cfg limiters = (Some rl, limiters') ->
        limiters' !! name = Some rl
        /\ forall cfg', get_limiter name cfg' limiters' = (Some rl, limiters'))
  /\ (forall name now success limiters limiters',
        global_record_request name now success limiters = Some limiters' ->
        (exists rl, fst (get_limiter name None limiters) = Some rl
                    /\ limiters' !! name
                       = Some (record_request now success rl))
        /\ forall other, other <> name ->
             limiters' !! other = limiters !! other).
Proof.
  split; [|split; [|split]].
  - intros name cfg limiters rl H. unfold get_limiter. rewrite H. reflexivity.
  - intros name cfg limiters H. unfold get_limiter. rewrite H.
    split; [intros c ->; reflexivity|].
    split; [intros c -> ->; reflexivity|].
    split; [intros -> ->; reflexivity|].
    destruct cfg as [c|]; simpl.
    + split; [discriminate|intros [[=] _]].
    + destruct (default_configs name); simpl;
        split; try discriminate; auto. intros [_ [=]].
  - intros name cfg limiters rl limiters'. unfold get_limiter.
    destruct (limiters !! name) as [rl0|] eqn:E.
    + intros [= <- <-]. split; [exact E|]. intros cfg'. rewrite E. reflexivity.
    + destruct (match cfg with Some c => Some c | None => default_configs name end)
        as [c|]; [|discriminate].
      intros [= <- <-]. split; [apply lookup_insert_eq|].
      intros cfg'. rewrite lookup_insert_eq. reflexivity.
  - intros name now success limiters limiters'. unfold global_record_request.
    destruct (get_limiter name None limiters) as [[rl|] l1] eqn:E; [|discriminate].
    intros [= <-]. split.
    + exists rl. split; [reflexivity|apply lookup_insert_eq].
    + intros other Hne. rewrite lookup_insert_ne by (symmetry; exact Hne).
      revert E. unfold get_limiter.
      destruct (limiters !! name); [intros [= _ <-]; reflexivity|].
      destruct (default_configs name); [|discriminate].
      intros [= _ <-]. rewrite lookup_insert_ne by (symmetry; exact Hne).
      reflexivity.
Qed.

Lemma named_limiters_independent_witness :
  match global_record_request "email" 7 false
          {[ "llm" := Examples.idle_limiter ]} with
  | Some limiters' => limiters' !! "llm" = Some Examples.idle_limiter
  | None => False
  end
  /\ fst (get_limiter "sms" None ∅) = None
  /\ get_limiter "sms" (Some (mk_config 1 1 None 1)) ∅
     = (Some (init (mk_config 1 1 None 1)),
        {[ "sms" := init (mk_config 1 1 None 1) ]})
  /\ get_limiter "email" None ∅
     = (Some (init (mk_config 50 86400 None (3 # 2))),
        {[ "email" := init (mk_config 50 86400 None (3 # 2)) ]}).
Proof.
  destruct named_limiters_independent as (_ & Hnew & _ & Hrec).
  split; [|split; [|split]].
  - destruct (global_record_request _ _ _ _) as [limiters'|] eqn:H;
      [|vm_compute in H; discriminate].
    destruct (Hrec _ _ _ _ _ H) as [_ Hother].
    rewrite (Hother "llm"); [|discriminate]. reflexivity.
  - apply (proj2 (proj2 (proj2 (Hnew "sms" None ∅ (lookup_empty _))))).
    split; reflexivity.
  - apply (proj1 (Hnew "sms" (Some (mk_config 1 1 None 1)) ∅
                    (lookup_empty _))).
    reflexivity.
  - apply (proj1 (proj2 (Hnew "email" None ∅ (lookup_empty _))));
      reflexivity.
Defined.

End RateLimiterUse.

(* ===================================================================== *)
(** * Further facts about the proxy rotator *)
(* ===================================================================== *)

Module ProxyUse.

Import ProxyRotation.

Lemma rev_app_append s1 : forall s2 t,
  String.rev_app s1 s2 +:+ t = String.rev_app s1 (s2 +:+ t).
Proof.
  induction s1 as [|c s1 IH]; intros s2 t; simpl; [reflexivity|].
  rewrite IH. reflexivity.
Qed.

Lemma append_empty_r s : s +:+ "" = s.
Proof.
  induction s as [|c s IH]; [reflexivity|].
  change (String c s +:+ "") with (String c (s +:+ "")). f_equal. exact IH.
Qed.

Lemma split_colon_nonempty s : forall cur, split_colon cur s <> [].
Proof.
  induction s as [|c s IH]; intros cur; simpl; [discriminate|].
  destruct (Ascii.eqb c ":"); [discriminate|apply IH].
Qed.

(** Joining the parts with colons gives the string back. *)
Lemma split_colon_join s : forall cur,
  join_colon (split_colon cur s) = String.rev cur +:+ s.
Proof.
  induction s as [|c s IH]; intros cur; simpl.
  - symmetry. apply append_empty_r.
  - destruct (Ascii.eqb_spec c ":") as [->|Hne].
    + pose proof (split_colon_nonempty s "") as Hn.
      specialize (IH ""). cbn [join_colon].
      destruct (split_colon "" s) as [|y ys] eqn:E; [contradiction|].
      rewrite IH. reflexivity.
    + rewrite IH. unfold String.rev. simpl.
      rewrite !rev_app_append. reflexivity.
Qed.

Lemma colon_free_rev_app s1 : forall s2,
  colon_free s1 = true -> colon_free s2 = true ->
  colon_free (String.rev_app s1 s2) = true.
Proof.
  induction s1 as [|c s1 IH]; intros s2 H1 H2; simpl in *; [exact H2|].
  apply andb_prop in H1 as [Hc H1]. apply IH; [exact H1|].
  simpl. rewrite Hc, H2. reflexivity.
Qed.

Lemma split_colon_parts s : forall cur,
  colon_free cur = true ->
  Forall (fun part => colon_free part = true) (split_colon cur s).
Proof.
  induction s as [|c s IH]; intros cur Hcur; simpl.
  - constructor; [|constructor]. apply colon_free_rev_app; [exact Hcur|reflexivity].
  - destruct (Ascii.eqb c ":") eqn:E.
    + constructor; [|apply IH; reflexivity].
      apply colon_free_rev_app; [exact Hcur|reflexivity].
    + apply IH. simpl. rewrite E, Hcur. reflexivity.
Qed.

(** What a line that passes the filter of [_load_proxies] looks like. *)
Lemma valid_proxy_shape line :
  valid_proxy line = true ->
  exists host port, line = host +:+ ":" +:+ port
                    /\ colon_free host = true /\ isdigit port = true.
Proof.
  unfold valid_proxy. intros H.
  pose proof (split_colon_join line "") as Hj.
  pose proof (split_colon_parts line "" eq_refl) as Hp.
  destruct (split_colon "" line) as [|host [|port [|x xs]]]; try discriminate.
  exists host, port. split; [symmetry; exact Hj|]. split; [|exact H].
  inversion Hp; assumption.
Qed.

Lemma is_digit_spec c :
  is_digit c = true
  <-> (let n := nat_of_ascii c in
       48 <= n <= 57 \/ n = 178 \/ n = 179 \/ n = 185).
Proof.
  unfold is_digit. cbv zeta.
  rewrite !orb_true_iff, andb_true_iff, !Nat.leb_le, !Nat.eqb_eq. tauto.
Qed.

Lemma isdigit_spec port :
  isdigit port = true
  <-> port <> ""
      /\ Forall (fun c => let n := nat_of_ascii c in
                         48 <= n <= 57 \/ n = 178 \/ n = 179 \/ n = 185)
                (list_ascii_of_string port).
Proof.
  assert (Hall : forall s, all_digits s = true
                   <-> Forall (fun c => let n := nat_of_ascii c in
                                        48 <= n <= 57 \/ n = 178 \/ n = 179
                                        \/ n = 185)
                         (list_ascii_of_string s)).
  { induction s as [|c s IH]; simpl.
    - split; [constructor|reflexivity].
    - rewrite andb_true_iff, IH, is_digit_spec. split.
      + intros [Hc Hs]. constructor; assumption.
      + intros H. inversion H; subst. split; assumption. }
  unfold isdigit. destruct port as [|c port].
  - split; [discriminate|intros [H _]; congruence].
  - rewrite Hall. split; [intros H; split; [discriminate|exact H]|tauto].
Qed.

(** X8.  On answers of code points below 256.  Every proxy in the list
    after [_load_proxies] has the form http://host:port, with a host free
    of colons and a port that [str.isdigit()] accepts: one or more
    characters, each an ASCII digit or one of the superscripts two, three
    and one.  Every such line of a source that answered is in the list,
    whether or not the other sources failed. *)
Theorem loaded_proxies_well_formed net r :
  (forall p, In p (proxies (fst (_load_proxies net r))) ->
     exists host port,
       p = "http://" +:+ host +:+ ":" +:+ port
       /\ colon_free host = true /\ isdigit port = true)
  /\ (forall port,
        isdigit port = true
        <-> port <> ""
            /\ Forall (fun c => let n := nat_of_ascii c in
                               48 <= n <= 57 \/ n = 178 \/ n = 179
                               \/ n = 185)
                      (list_ascii_of_string port))
  /\ (forall source lines line,
        In source proxy_sources -> http_get net source = Some lines ->
        In line lines -> valid_proxy line = true ->
        In ("http://" +:+ line) (proxies (fst (_load_proxies net r)))).
Proof.
  unfold _load_proxies. cbn [fst proxies]. split; [|split; [apply isdigit_spec|]].
  - intros p Hp. apply in_map_iff in Hp as (line & <- & Hin).
    apply filter_In in Hin as [_ Hv].
    destruct (valid_proxy_shape line Hv) as (host & port & -> & Hh & Hd).
    exists host, port. auto.
  - intros source lines line Hs Hg Hl Hv.
    apply in_map. apply filter_In. split; [|exact Hv].
    apply in_flat_map. exists source. split; [exact Hs|].
    rewrite Hg. exact Hl.
Qed.

Lemma loaded_proxies_well_formed_witness :
  In "http://10.0.0.2:3128"
     (proxies (fst (_load_proxies Examples.live_net Examples.cached_rotator)))
  /\ exists host port,
       "http://10.0.0.2:3128" = "http://" +:+ host +:+ ":" +:+ port
       /\ colon_free host = true /\ isdigit port = true.
Proof.
  destruct (loaded_proxies_well_formed Examples.live_net Examples.cached_rotator)
    as (Hshape & _ & Hin).
  assert (H : In "http://10.0.0.2:3128"
                (proxies (fst (_load_proxies Examples.live_net
                                 Examples.cached_rotator)))).
  { apply (Hin "https://raw.githubusercontent.com/TheSpeedX/PROXY-List/master/http.txt"
               ["10.0.0.2:3128"] "10.0.0.2:3128").
    - left. reflexivity.
    - reflexivity.
    - left. reflexivity.
    - reflexivity. }
  split; [exact H|apply Hshape, H].
Defined.

(** X9.  A proxy returned by [get_working_proxy] is in the rotator's list
    and answered the probe; when none is returned, no probe was answered:
    every proxy that was drawn failed it.  [get_proxy] returns a proxy of
    the list, and none only when the list is empty even after a reload. *)
Theorem returned_proxy_is_listed net now pick r :
  (forall p, fst (fst (get_working_proxy net now r)) = Some p ->
     In p (proxies (snd (fst (get_working_proxy net now r))))
     /\ proxy_alive net p = true)
  /\ (fst (fst (get_working_proxy net now r)) = None ->
      forall i p,
        In i (sample_indices net
                (length (proxies (snd (fst (get_working_proxy net now r)))))
                (Nat.min 10
                   (length (proxies (snd (fst (get_working_proxy net now r)))))))
        -> proxies (snd (fst (get_working_proxy net now r))) !! i = Some p ->
        proxy_alive net p = false)
  /\ (forall p, fst (fst (get_proxy net pick r)) = Some p ->
        In p (proxies (snd (fst (get_proxy net pick r)))))
  /\ (fst (fst (get_proxy net pick r)) = None
      <-> proxies (snd (fst (get_proxy net pick r))) = []).
Proof.
  split; [|split; [|split]].
  - unfold get_working_proxy.
    destruct (match proxies r with [] => _load_proxies net r | _ => (r, []) end)
      as [r1 fetched]. simpl.
    intros p Hf. apply find_some in Hf as [Hin Ha]. split; [|exact Ha].
    apply list_elem_of_In, list_elem_of_omap in Hin as (i & _ & Hi).
    apply list_elem_of_In. eapply list_elem_of_lookup_2. exact Hi.
  - unfold get_working_proxy.
    destruct (match proxies r with [] => _load_proxies net r | _ => (r, []) end)
      as [r1 fetched]. simpl.
    intros Hf i p Hi Hp. eapply find_none; [exact Hf|].
    apply list_elem_of_In, list_elem_of_omap. exists i.
    split; [apply list_elem_of_In, Hi|exact Hp].
  - unfold get_proxy.
    destruct (match proxies r with [] => _load_proxies net r | _ => (r, []) end)
      as [r1 fetched]. simpl.
    destruct (proxies r1) as [|x xs] eqn:E; [discriminate|].
    intros p Hp. apply list_elem_of_In. eapply list_elem_of_lookup_2. exact Hp.
  - unfold get_proxy.
    destruct (match proxies r with [] => _load_proxies net r | _ => (r, []) end)
      as [r1 fetched]. simpl.
    destruct (proxies r1) as [|x xs] eqn:E; [tauto|].
    split; [|discriminate]. intros Hn.
    apply lookup_ge_None in Hn.
    pose proof (Nat.mod_upper_bound pick (length (x :: xs)) ltac:(simpl; lia)).
    lia.
Qed.

Lemma returned_proxy_is_listed_witness :
  In "http://10.0.0.1:8080" (proxies Examples.cached_rotator)
  /\ Examples.live_net.(proxy_alive) "http://10.0.0.1:8080" = true.
Proof.
  destruct (returned_proxy_is_listed Examples.live_net 7200 0
              Examples.cached_rotator) as (Hlive & _).
  exact (Hlive "http://10.0.0.1:8080" eq_refl).
Defined.

End ProxyUse.

(* ===================================================================== *)
(** * The scraper as a whole: leads, counts and the length of the scroll *)
(* ===================================================================== *)

Module ScraperUse.

Import Scraper.

Lemma new_leads_app l1 l2 :
  new_leads (l1 ++ l2) = new_leads l1 ++ new_leads l2.
Proof. apply omap_app. Qed.

Lemma counts_leads_app n l1 l2 :
  counts_leads n l1 ->
  counts_leads (n + length (new_leads l1)) l2 ->
  counts_leads n (l1 ++ l2).
Proof.
  intros H1 H2 k ev Hk.
  destruct (Nat.lt_ge_cases k (length l1)) as [Hlt|Hge].
  - rewrite lookup_app_l in Hk by exact Hlt.
    rewrite take_app_le by lia. apply H1, Hk.
  - rewrite lookup_app_r in Hk by exact Hge.
    rewrite take_app_ge by lia.
    replace (S k - length l1) with (S (k - length l1)) by lia.
    rewrite new_leads_app, length_app, (H2 _ _ Hk). lia.
Qed.

Lemma new_leads_quiet l :
  (forall ev, In ev l -> ev_new_lead ev = None) -> new_leads l = [].
Proof.
  induction l as [|e l IH]; intros H; [reflexivity|].
  unfold new_leads in *. simpl. rewrite (H e (or_introl eq_refl)).
  apply IH. intros ev Hin. apply H. right. exact Hin.
Qed.

(** Callbacks that pass no lead and report no success. *)
Lemma counts_leads_quiet l :
  (forall ev, In ev l -> ev_successful ev = 0 /\ ev_new_lead ev = None) ->
  new_leads l = [] /\ counts_leads 0 l.
Proof.
  intros H. split; [apply new_leads_quiet; intros ev Hin; apply H, Hin|].
  intros k ev Hk.
  rewrite new_leads_quiet.
  - apply list_elem_of_lookup_2, list_elem_of_In in Hk.
    destruct (H ev Hk) as [-> _]. reflexivity.
  - intros e Hin. apply H.
    rewrite <- (take_drop (S k) l). apply in_or_app. left. exact Hin.
Qed.

Lemma extract_step_counts pg total index st :
  counts_leads (successful_extractions st)
    (fst (extract_step pg total index st))
  /\ successful_extractions (snd (extract_step pg total index st))
     = successful_extractions st
       + length (new_leads (fst (extract_step pg total index st)))
  /\ results (snd (extract_step pg total index st))
     = results st ++ new_leads (fst (extract_step pg total index st))
  /\ length (new_leads (fst (extract_step pg total index st))) <= 1.
Proof.
  unfold extract_step, counts_leads, new_leads.
  destruct (listing pg index) as [|[d|]]; cbn [fst snd].
  - split; [|simpl; rewrite app_nil_r; auto with arith].
    intros [|k] ev; simpl; [intros [= <-]; simpl; lia|discriminate].
  - destruct (truthy_opt (name d));
      [destruct (has_target_data d)|]; cbn [fst snd];
      (split; [|simpl; rewrite ?app_nil_r; auto with arith]);
      intros [|[|[|k]]] ev; simpl; try discriminate;
      intros [= <-]; simpl; lia.
  - split; [|simpl; rewrite app_nil_r; auto with arith].
    intros [|[|[|k]]] ev; simpl; try discriminate; intros [= <-]; simpl; lia.
Qed.

Lemma extract_from_counts pg total :
  forall n index st,
    counts_leads (successful_extractions st)
      (fst (extract_from pg total index n st))
    /\ successful_extractions (snd (extract_from pg total index n st))
       = successful_extractions st
         + length (new_leads (fst (extract_from pg total index n st)))
    /\ results (snd (extract_from pg total index n st))
       = results st ++ new_leads (fst (extract_from pg total index n st))
    /\ length (new_leads (fst (extract_from pg total index n st))) <= n.
Proof.
  induction n as [|n IH]; intros index st; simpl.
  - split; [intros [|k] ev; discriminate|].
    simpl. rewrite app_nil_r. auto with arith.
  - destruct (extract_step_counts pg total index st) as (C1 & S1 & R1 & L1).
    destruct (extract_step pg total index st) as [evs st1].
    destruct (IH (index + 1) st1) as (C2 & S2 & R2 & L2).
    destruct (extract_from pg total (index + 1) n st1) as [evs' st2].
    cbn [fst snd] in *.
    rewrite new_leads_app, length_app.
    split; [|split; [|split]].
    + apply counts_leads_app; [exact C1|]. rewrite <- S1. exact C2.
    + lia.
    + rewrite R2, R1, app_assoc. reflexivity.
    + lia.
Qed.

Lemma scroll_loop_quiet pg :
  forall fuel st evs why st' ev,
    scroll_loop fuel pg st = Some (evs, why, st') -> In ev evs ->
    ev_successful ev = 0 /\ ev_new_lead ev = None.
Proof.
  induction fuel as [|fuel IH]; intros st evs why st' ev; simpl; [discriminate|].
  assert (Hstep : forall e, In e (fst (scroll_step pg st)) ->
                            ev_successful e = 0 /\ ev_new_lead e = None).
  { intros e. unfold scroll_step.
    set (o := scroll_obs pg (scrolls st)).
    assert (Hsp : In e (cb 0 (obs_count o) 0 (scroll_message (scrolls st) (obs_count o))
                        :: spinner_events o)
                  -> ev_successful e = 0 /\ ev_new_lead e = None).
    { unfold spinner_events.
      destruct (obs_loading o); [destruct (obs_spinner_hides o)|]; simpl;
        intuition (subst; auto). }
    destruct (max_consecutive_no_new <=? _); [exact Hsp|].
    destruct (_ && _); [exact Hsp|].
    destruct (scroll_limit <? _); exact Hsp. }
  destruct (scroll_step pg st) as [e1 [[w s1]|s1]]; simpl in Hstep.
  - intros [= <- <- <-]. apply Hstep.
  - destruct (scroll_loop fuel pg s1) as [[[e2 w] s2]|] eqn:E; [|discriminate].
    intros [= <- <- <-] Hin. apply in_app_or in Hin as [Hin|Hin]; [auto|].
    eapply IH; eauto.
Qed.

Lemma scrape_counts pg evs res :
  scrape_with_progress pg = Some (evs, res) ->
  new_leads evs = match res with Returned leads => leads | Raised _ => [] end
  /\ counts_leads 0 evs
  /\ length (new_leads evs) <= final_count pg.
Proof.
  unfold scrape_with_progress, _scroll_and_load, _extract_all_listings.
  destruct (listings_found pg).
  - destruct (ScrollFacts.scroll_loop_total pg) as (se & why & st & Hloop).
    rewrite Hloop.
    destruct (extract_from_counts pg (final_count pg) (final_count pg) 0
                {| results := []; successful_extractions := 0 |})
      as (C & _ & R & L).
    destruct (extract_from pg (final_count pg) 0 (final_count pg) _)
      as [ee est]. cbn [fst snd results successful_extractions] in *.
    set (pre := navigation_events ++ [cb 0 0 0 "Scrolling to load all results..."]
                ++ se ++ [cb 0 (final_count pg) 0
                            ("Starting to extract data from "
                             +:+ pretty (final_count pg) +:+ " listings...")]).
    assert (Hpre : new_leads pre = [] /\ counts_leads 0 pre).
    { apply counts_leads_quiet. intros ev Hin. unfold pre in Hin.
      apply in_app_or in Hin as [Hin|Hin];
        [simpl in Hin; intuition (subst; auto)|].
      apply in_app_or in Hin as [[<-|[]]|Hin]; [auto|].
      apply in_app_or in Hin as [Hin|[<-|[]]]; [|auto].
      eapply scroll_loop_quiet; eauto. }
    destruct Hpre as [Hn Hc].
    replace (navigation_events ++ [cb 0 0 0 "Scrolling to load all results..."]
             ++ se ++ [cb 0 (final_count pg) 0
                         ("Starting to extract data from "
                          +:+ pretty (final_count pg) +:+ " listings...")]
             ++ ee) with (pre ++ ee)
      by (unfold pre; rewrite <- !app_assoc; reflexivity).
    intros [= <- <-].
    match goal with |- new_leads ?l = _ /\ _ => change l with (pre ++ ee) end.
    rewrite new_leads_app, Hn.
    change ([] ++ new_leads ee) with (new_leads ee) in *.
    split; [symmetry; exact R|]. split; [|exact L].
    apply counts_leads_app; [exact Hc|]. rewrite Hn. exact C.
  - intros [= <- <-].
    assert (H : new_leads navigation_events = []
                /\ counts_leads 0 navigation_events).
    { apply counts_leads_quiet. intros ev Hin. simpl in Hin.
      intuition (subst; auto). }
    destruct H as [Hn Hc]. rewrite Hn. split; [reflexivity|].
    split; [exact Hc|simpl; lia].
Qed.

Lemma extract_step_last pg total index st :
  exists ev, last (fst (extract_step pg total index st)) = Some ev
             /\ ev_progress ev = index + 1 /\ ev_total ev = total.
Proof.
  unfold extract_step.
  destruct (listing pg index) as [|[d|]]; cbn [fst]; [eexists; repeat split| |].
  - destruct (truthy_opt (name d)); [destruct (has_target_data d)|];
      cbn [fst]; eexists; repeat split.
  - eexists; repeat split.
Qed.

Lemma extract_from_last pg total :
  forall n index st,
    0 < n ->
    exists ev, last (fst (extract_from pg total index n st)) = Some ev
               /\ ev_progress ev = index + n /\ ev_total ev = total.
Proof.
  induction n as [|n IH]; intros index st Hn; [lia|]. simpl.
  destruct (extract_step_last pg total index st) as (e1 & L1 & P1 & T1).
  destruct (extract_step pg total index st) as [evs st1].
  destruct n as [|n].
  - simpl. rewrite app_nil_r. exists e1. cbn [fst] in L1.
    split; [exact L1|]. split; [lia|exact T1].
  - destruct (IH (index + 1) st1 ltac:(lia)) as (e2 & L2 & P2 & T2).
    destruct (extract_from pg total (index + 1) (S n) st1) as [evs' st2].
    cbn [fst] in *. rewrite last_app, L2. exists e2.
    split; [reflexivity|]. split; [lia|exact T2].
Qed.

(** The last callback of a scrape that returns. *)
Lemma scrape_last pg evs leads :
  scrape_with_progress pg = Some (evs, Returned leads) ->
  exists ev, last evs = Some ev
             /\ ev_progress ev = final_count pg
             /\ ev_total ev = final_count pg
             /\ ev_successful ev = length leads.
Proof.
  intros Hscrape.
  destruct (scrape_counts pg evs _ Hscrape) as (Hn & Hc & _).
  assert (Hlast : exists ev, last evs = Some ev
                             /\ ev_progress ev = final_count pg
                             /\ ev_total ev = final_count pg).
  { revert Hscrape.
    unfold scrape_with_progress, _scroll_and_load, _extract_all_listings.
    destruct (listings_found pg); [|discriminate].
    destruct (scroll_loop scroll_fuel pg scroll_init) as [[[se w] s]|];
      [|discriminate].
    destruct (final_count pg) as [|n] eqn:En.
    - simpl. intros [= <- _]. eexists.
      rewrite !app_comm_cons, last_snoc. repeat split.
    - destruct (extract_from_last pg (S n) (S n) 0
                  {| results := []; successful_extractions := 0 |}
                  ltac:(lia)) as (ev & L & P & T).
      destruct (extract_from pg (S n) 0 (S n) _) as [ee est].
      cbn [fst] in L. intros [= <- _]. exists ev.
      rewrite !last_cons, last_app, last_cons, L. repeat split; assumption. }
  destruct Hlast as (ev & Hl & Hp & Ht). exists ev.
  split; [exact Hl|]. split; [exact Hp|]. split; [exact Ht|].
  rewrite last_lookup in Hl. rewrite (Hc _ _ Hl), take_ge, Hn by lia.
  reflexivity.
Qed.

(** X10.  Whatever the page, [scrape_with_progress] ends.  When it returns,
    the list it returns is the list of dicts it passed to the callback as
    new leads, in that order, and has at most as many entries as listings
    were counted; when it raises, it has passed none.  Either way the
    success count of every callback is the number of new leads passed up
    to and including that callback. *)
Theorem returned_leads_are_the_forwarded_ones pg :
  match scrape_with_progress pg with
  | Some (evs, Returned leads) =>
      new_leads evs = leads /\ counts_leads 0 evs
      /\ length leads <= final_count pg
  | Some (evs, Raised _) => new_leads evs = [] /\ counts_leads 0 evs
  | None => False
  end.
Proof.
  destruct (ExtractFacts.scrape_total pg) as (evs & res & H). rewrite H.
  destruct (scrape_counts pg evs res H) as (Hn & Hc & Hl).
  destruct res as [leads|e]; [|split; assumption].
  split; [exact Hn|]. split; [exact Hc|]. rewrite <- Hn. exact Hl.
Qed.

(** ** The scroll loop *)

Lemma scroll_step_bounds pg st :
  same_count_repeats st = consecutive_no_new_results st ->
  ((previous_count st < 0)%Z /\ scrolls st = 0 /\ same_count_repeats st = 0)
  \/ same_count_repeats st < scrolls st ->
  match snd (scroll_step pg st) with
  | inl (why, st') =>
      same_count_repeats st' = consecutive_no_new_results st'
      /\ 9 <= iterations why st'
  | inr st' =>
      same_count_repeats st' = consecutive_no_new_results st'
      /\ same_count_repeats st' < scrolls st'
  end.
Proof.
  destruct st as [p c s n].
  unfold scroll_step, compare_counts, max_consecutive_no_new, max_same_count,
    scroll_limit.
  cbn [previous_count same_count_repeats scrolls consecutive_no_new_results].
  intros <- Hinv.
  destruct (Z.eqb_spec (Z.of_nat (obs_count (scroll_obs pg s))) p) as [Heq|Hne];
    cbn [previous_count same_count_repeats scrolls consecutive_no_new_results].
  - assert (Hc : c < s) by (destruct Hinv as [(Hp & _)|H]; lia).
    destruct (Nat.leb_spec 10 (c + 1)); cbn [snd iterations scrolls
      same_count_repeats consecutive_no_new_results]; [split; lia|].
    destruct (Nat.leb_spec 8 (c + 1));
      destruct (obs_loading (scroll_obs pg s));
      cbn [andb negb snd iterations scrolls same_count_repeats
           consecutive_no_new_results]; try (split; lia);
      destruct (Nat.ltb_spec 100 (s + 1));
      cbn [snd iterations scrolls same_count_repeats
           consecutive_no_new_results]; split; lia.
  - destruct (Nat.leb_spec 10 0); [lia|].
    destruct (Nat.leb_spec 8 0); [lia|]. cbn [andb].
    destruct (Nat.ltb_spec 100 (s + 1));
      cbn [snd iterations scrolls same_count_repeats
           consecutive_no_new_results]; split; lia.
Qed.

Lemma scroll_outcome_bounds pg :
  forall fuel st why st',
    same_count_repeats st = consecutive_no_new_results st ->
    ((previous_count st < 0)%Z /\ scrolls st = 0 /\ same_count_repeats st = 0)
    \/ same_count_repeats st < scrolls st ->
    scroll_outcome fuel pg st = Some (why, st') ->
    same_count_repeats st' = consecutive_no_new_results st'
    /\ 9 <= iterations why st'.
Proof.
  induction fuel as [|fuel IH]; intros st why st' He Hinv; [discriminate|].
  rewrite ScrollFacts.scroll_outcome_S.
  pose proof (scroll_step_bounds pg st He Hinv) as Hstep.
  destruct (snd (scroll_step pg st)) as [[w s1]|s1].
  - intros [= <- <-]. exact Hstep.
  - destruct Hstep as [He1 Hlt]. apply IH; [exact He1|right; exact Hlt].
Qed.

(** X11.  On every page the scroll loop of [_scroll_and_load] takes a
    [break] after at least 9 and at most 101 passes, and the counters
    same_count_repeats and consecutive_no_new_results are equal when it
    does. *)
Theorem scroll_passes_bounds pg :
  exists why st,
    scroll_outcome scroll_fuel pg scroll_init = Some (why, st)
    /\ passes pg = Some (iterations why st)
    /\ 9 <= iterations why st <= 101
    /\ same_count_repeats st = consecutive_no_new_results st.
Proof.
  destruct (ScrollFacts.scroll_outcome_total pg scroll_fuel scroll_init)
    as (why & st & Hout & Hle);
    [unfold scroll_fuel, scroll_init; simpl; lia ..|].
  exists why, st.
  destruct (scroll_outcome_bounds pg scroll_fuel scroll_init why st)
    as [He Hge]; [reflexivity|left; repeat split; reflexivity|exact Hout|].
  split; [exact Hout|]. split; [unfold passes; rewrite Hout; reflexivity|].
  split; [|exact He]. unfold scroll_init in Hle. simpl in Hle. lia.
Qed.

(** X12.  On a page whose count changes on each of the first hundred
    passes, whatever its spinner does, the scroll loop leaves through the
    safety [break] alone, after its 101st pass and 101 scrolls. *)
Theorem ever_changing_page_hits_limit pg :
  changing_until pg 100 ->
  exists st,
    scroll_outcome scroll_fuel pg scroll_init = Some (ScrollLimit, st)
    /\ scrolls st = 101
    /\ passes pg = Some 101.
Proof.
  intros Hch.
  assert (Hrun : scroll_outcome scroll_fuel pg scroll_init
                 = scroll_outcome 1 pg
                     (counters (Z.of_nat (obs_count (scroll_obs pg 99))) 0 100)).
  { change scroll_fuel with (100 + 1).
    change scroll_init with (counters (-1)%Z 0 0).
    rewrite (ScrollFacts.run_changing pg 100 1 (-1)%Z 0 0); [reflexivity|lia|lia|lia|].
    intros i Hi. apply (Hch i). lia. }
  assert (Hlast : exists st,
             scroll_outcome 1 pg
               (counters (Z.of_nat (obs_count (scroll_obs pg 99))) 0 100)
             = Some (ScrollLimit, st) /\ scrolls st = 101).
  { rewrite ScrollFacts.scroll_outcome_S.
    unfold scroll_step, compare_counts, counters, max_consecutive_no_new,
      max_same_count, scroll_limit.
    cbn [previous_count same_count_repeats scrolls consecutive_no_new_results].
    destruct (Z.eqb _ _);
      cbn [previous_count same_count_repeats scrolls consecutive_no_new_results];
      eexists; split; reflexivity. }
  destruct Hlast as (st & Hout & Hs). exists st.
  rewrite Hrun. split; [exact Hout|]. split; [exact Hs|].
  unfold passes. rewrite Hrun, Hout. simpl. rewrite Hs. reflexivity.
Qed.

Lemma ever_changing_page_hits_limit_witness :
  changing_until Examples.flickering_page 100
  /\ exists st,
       scroll_outcome scroll_fuel Examples.flickering_page scroll_init
       = Some (ScrollLimit, st)
       /\ scrolls st = 101
       /\ passes Examples.flickering_page = Some 101.
Proof.
  assert (H : changing_until Examples.flickering_page 100).
  { intros i Hi. simpl.
    replace i with (S (i - 1)) at 1 by lia. rewrite Nat.even_succ.
    rewrite <- Nat.negb_even. destruct (Nat.even (i - 1)); simpl; lia. }
  split; [exact H|]. apply (ever_changing_page_hits_limit _ H).
Defined.

End ScraperUse.

(* ===================================================================== *)
(** * The server as a whole: the endpoint and whole runs *)
(* ===================================================================== *)

Module ServerUse.

Import Server ServerFacts.

(** ** Strings *)

Lemma append_assoc (a b c : string) : (a +:+ b) +:+ c = a +:+ (b +:+ c).
Proof.
  induction a as [|x a IH]; [reflexivity|].
  change (String x ((a +:+ b) +:+ c) = String x (a +:+ (b +:+ c))). f_equal. exact IH.
Qed.

Lemma length_append (a b : string) :
  String.length (a +:+ b) = String.length a + String.length b.
Proof.
  induction a as [|x a IH]; [reflexivity|].
  change (S (String.length (a +:+ b)) = S (String.length a + String.length b)).
  f_equal. exact IH.
Qed.

Lemma prefix_append p : forall s t,
  String.length p <= String.length s ->
  String.prefix p (s +:+ t) = String.prefix p s.
Proof.
  induction p as [|a p IH]; intros s t Hlen;
    [destruct s; [destruct t|]; reflexivity|].
  destruct s as [|b s]; [simpl in Hlen; lia|].
  change (String b s +:+ t) with (String b (s +:+ t)). simpl.
  destruct (ascii_dec a b); [|reflexivity].
  apply IH. simpl in Hlen. lia.
Qed.

Lemma substring_prefix a : forall b,
  String.substring 0 (String.length a) (a +:+ b) = a.
Proof.
  induction a as [|x a IH]; intros b; [destruct b; reflexivity|].
  change (String x a +:+ b) with (String x (a +:+ b)). simpl. f_equal. apply IH.
Qed.

(** Where [" in "] first occurs in [bt + " in " + loc]. *)
Lemma first_in bt loc :
  contains " in " (bt +:+ " in") = false ->
  String.index 0 " in " (bt +:+ " in " +:+ loc) = Some (String.length bt).
Proof.
  unfold contains. induction bt as [|c bt IH]; intros H.
  - destruct loc; reflexivity.
  - change (String c bt +:+ " in") with (String c (bt +:+ " in")) in H.
    change (String c bt +:+ " in " +:+ loc)
      with (String c (bt +:+ " in " +:+ loc)).
    cbn [String.index] in *.
    destruct (String.prefix " in " (String c (bt +:+ " in"))) eqn:Hp;
      [discriminate|].
    assert (Hp' : String.prefix " in " (String c (bt +:+ " in " +:+ loc))
                  = String.prefix " in " (String c (bt +:+ " in"))).
    { change (String c (bt +:+ " in " +:+ loc))
        with (String c bt +:+ (" in" +:+ (" " +:+ loc))).
      rewrite <- append_assoc. apply prefix_append.
      pose proof (length_append bt " in") as Hl.
      change (4 <= S (String.length (bt +:+ " in"))).
      rewrite Hl. simpl. lia. }
    rewrite Hp', Hp.
    destruct (String.index 0 " in " (bt +:+ " in")) eqn:Hi; [discriminate|].
    rewrite (IH eq_refl). reflexivity.
Qed.

Lemma business_type_of_term bt loc :
  contains " in " (bt +:+ " in") = false ->
  business_type_of (bt +:+ " in " +:+ loc) = bt.
Proof.
  intros H. unfold business_type_of. rewrite (first_in bt loc H).
  apply substring_prefix.
Qed.

(** ** The endpoint *)

(** X13.  The endpoint [start_scraping].  A request that names neither a
    search term nor both a business type and a location is answered with
    status 500, not 400, and leaves registry and database as they were.
    Any other request is answered with the job id and the key of the row;
    the job is registered as running while its row says pending; its
    search term is the request's own when the request has one, and else
    the business type, " in " and the location. *)
Theorem start_scraping_answers r job_id id now s :
  if acceptable r then
    fst (start_scraping_endpoint r job_id id now s) = inr (job_id, id)
    /\ exists j row,
         job_of job_id (snd (start_scraping_endpoint r job_id id now s)) = Some j
         /\ db_id j = id /\ status j = Running
         /\ job_rows (db (snd (start_scraping_endpoint r job_id id now s))) !! id
            = Some row
         /\ sj_status row = Pending
         /\ (forall t, req_search_term r = Some t -> Scraper.truthy t = true ->
               search_term j = t)
         /\ (forall b l, Scraper.truthy_opt (req_search_term r) = false ->
               req_business_type r = Some b -> req_location r = Some l ->
               search_term j = b +:+ " in " +:+ l)
  else
    start_scraping_endpoint r job_id id now s = (inl (HTTP 500), s).
Proof.
  unfold acceptable, start_scraping_endpoint, resolve_search_term.
  destruct r as [[t|] [b|] [l|]]; cbn [req_search_term req_business_type
    req_location Scraper.truthy_opt];
    try destruct (Scraper.truthy t) eqn:Et;
    try destruct (Scraper.truthy b) eqn:Eb;
    try destruct (Scraper.truthy l) eqn:El;
    cbn [orb andb fst snd except_exception]; try reflexivity;
    (split; [reflexivity|]);
    eexists _, _; unfold job_of, start_scraping; cbn [active_jobs db job_rows];
    rewrite !lookup_insert_eq;
    (split; [reflexivity|]); cbn [db_id status search_term sj_status];
    repeat (split; [reflexivity|]);
    (split; [intros t' Ht' Htr|intros b' l' Htr Hb' Hl']);
    try congruence; try discriminate.
Qed.

Lemma start_scraping_answers_witness :
  (exists j,
     job_of "job-2"
       (snd (start_scraping_endpoint Examples.typed_request "job-2" 2 0%Z
               Examples.no_jobs)) = Some j
     /\ search_term j = "plumbers in Austin")
  /\ start_scraping_endpoint Examples.empty_request "job-2" 2 0%Z
       Examples.no_jobs
     = (inl (HTTP 500), Examples.no_jobs).
Proof.
  split.
  - destruct (start_scraping_answers Examples.typed_request "job-2" 2 0%Z
                Examples.no_jobs)
      as (_ & j & row & Hj & _ & _ & _ & _ & _ & Hterm).
    exists j. split; [exact Hj|].
    exact (Hterm "plumbers" "Austin" eq_refl eq_refl eq_refl).
  - exact (start_scraping_answers Examples.empty_request "job-2" 2 0%Z
             Examples.no_jobs).
Defined.

Section Runs.

Variable fmt : Z -> string.

Lemma track_phases_db_id now msg j :
  db_id (track_phases now msg j) = db_id j.
Proof.
  unfold track_phases.
  destruct (_ && _); [reflexivity|]. destruct (_ && _); reflexivity.
Qed.

Lemma lead_of_term d j j' :
  search_term j = search_term j' -> lead_of d j = lead_of d j'.
Proof. unfold lead_of. intros ->. reflexivity. Qed.

(** ** Status of the entry and of the row *)

Lemma update_agree job_id ev now s id st :
  agree job_id id st s ->
  agree job_id id st (update_progress_with_lead fmt job_id ev now s).
Proof.
  intros (j & r & Hj & Hid & Hst & Hr & Hrs).
  unfold update_progress_with_lead. unfold job_of in Hj. rewrite Hj.
  destruct (status_eqb (status j) Cancelled); [exists j, r; auto|].
  eexists _, (row_with_counters _ _ _ r). unfold agree, job_of. cbn [active_jobs db].
  rewrite lookup_insert_eq. split; [reflexivity|].
  cbn [db_id status with_counters].
  rewrite track_phases_db_id, (proj1 (track_phases_status now _ j)).
  split; [exact Hid|]. split; [exact Hst|].
  assert (Hrow : job_rows (alter_row (row_with_counters (Scraper.ev_progress ev)
                    (Scraper.ev_total ev) (Scraper.ev_successful ev))
                    (db_id j) (db s)) !! id
                 = Some (row_with_counters (Scraper.ev_progress ev)
                    (Scraper.ev_total ev) (Scraper.ev_successful ev) r)).
  { unfold alter_row. cbn [job_rows]. rewrite Hid, lookup_alter_eq, Hr. reflexivity. }
  destruct (Scraper.ev_new_lead ev) as [d|]; [destruct (Scraper.name d)|];
    cbn [job_rows add_lead]; rewrite Hrow; auto.
Qed.

Lemma serve_agree job_id t s id st :
  agree job_id id st s ->
  agree job_id id st (serve job_id t s)
  \/ agree job_id id Cancelled (serve job_id t s).
Proof.
  intros (j & r & Hj & Hid & Hst & Hr & Hrs). unfold serve.
  destruct (cancel_request t); [|left; exists j, r; auto].
  right. unfold cancel_scraping_job. unfold job_of in Hj. rewrite Hj.
  eexists _, (row_finished Cancelled (now t) r). unfold job_of. cbn [active_jobs db].
  rewrite lookup_insert_eq. split; [reflexivity|].
  split; [exact Hid|]. split; [reflexivity|].
  unfold alter_row. cbn [job_rows]. rewrite Hid, lookup_alter_eq, Hr. auto.
Qed.

Lemma deliver_agree job_id ticks id :
  forall evs k s st,
    agree job_id id st s ->
    agree job_id id st (deliver fmt job_id ticks k evs s)
    \/ agree job_id id Cancelled (deliver fmt job_id ticks k evs s).
Proof.
  induction evs as [|ev evs IH]; intros k s st Ha; simpl; [auto|].
  destruct (serve_agree job_id (ticks k) s id st Ha) as [H|H].
  - apply IH, update_agree, H.
  - destruct (IH (S k) _ Cancelled (update_agree job_id ev (now (ticks k)) _ _ _ H));
      auto.
Qed.

Lemma agree_is_cancelled job_id id st s :
  agree job_id id st s -> is_cancelled job_id s = status_eqb st Cancelled.
Proof.
  intros (j & r & Hj & _ & Hst & _). rewrite (is_cancelled_status _ _ _ Hj), Hst.
  reflexivity.
Qed.

Lemma on_exception_agree job_id id st e s :
  agree job_id id st s ->
  snd (on_exception job_id e s) = Returns
  /\ agree job_id id Failed (fst (on_exception job_id e s)).
Proof.
  intros (j & r & Hj & Hid & Hst & Hr & Hrs). unfold on_exception.
  unfold job_of in Hj.
  assert (Hm : active_jobs (mark job_id Failed ("Error: " +:+ e) s) !! job_id
               = Some (with_status Failed ("Error: " +:+ e) j)).
  { unfold mark. cbn [active_jobs]. rewrite lookup_alter_eq, Hj. reflexivity. }
  rewrite Hm. cbn [db_id with_status mark db]. rewrite Hid, Hr.
  split; [reflexivity|].
  eexists _, (row_failed e r). unfold job_of. cbn [fst active_jobs db].
  rewrite Hm. split; [reflexivity|]. split; [exact Hid|]. split; [reflexivity|].
  unfold alter_row. cbn [job_rows]. rewrite lookup_alter_eq, Hr. auto.
Qed.

(** X14.  [run_scraping_job] on a registered job whose row exists always
    returns, and leaves the registry entry and the row with the same
    status, one of completed, cancelled and failed, whatever the page and
    whenever cancel requests are served. *)
Theorem run_ends_terminal job_id sch pg s j :
  job_of job_id s = Some j ->
  is_Some (job_rows (db s) !! db_id j) ->
  exists s' st,
    run_scraping_job fmt job_id sch pg s = Some (s', Returns)
    /\ agree job_id (db_id j) st s'
    /\ terminal st = true.
Proof.
  intros Hj [row Hrow]. unfold run_scraping_job. unfold job_of in Hj.
  rewrite Hj. cbn [db enter_running]. rewrite Hrow.
  set (s2 := row_running (db_id j) (enter_running job_id (started sch) j s)).
  assert (H2 : agree job_id (db_id j) Running s2).
  { eexists _, (row_with_status Running row). unfold job_of, s2.
    cbn [active_jobs row_running enter_running db].
    rewrite lookup_insert_eq. split; [reflexivity|].
    split; [reflexivity|]. split; [reflexivity|].
    unfold alter_row. cbn [job_rows]. rewrite lookup_alter_eq, Hrow. auto. }
  rewrite (agree_is_cancelled _ _ _ _ H2). cbn [status_eqb].
  destruct (ExtractFacts.scrape_total pg) as (evs & res & ->).
  set (s3 := deliver fmt job_id (ticks sch) 0 evs s2).
  assert (H4 : agree job_id (db_id j) Running (serve job_id (teardown sch) s3)
               \/ agree job_id (db_id j) Cancelled (serve job_id (teardown sch) s3)).
  { destruct (deliver_agree job_id (ticks sch) (db_id j) evs 0 s2 Running H2) as [H|H];
      [apply serve_agree, H|].
    destruct (serve_agree job_id (teardown sch) s3 _ _ H); auto. }
  destruct res as [leads|e].
  - destruct H4 as [H|H]; rewrite (agree_is_cancelled _ _ _ _ H); cbn [status_eqb].
    + eexists _, Completed. split; [reflexivity|]. split; [|reflexivity].
      destruct H as (j4 & r4 & Hj4 & Hid & Hst & Hr & Hrs). unfold job_of in Hj4.
      eexists _, (row_completed _ _ r4). unfold job_of, complete, mark.
      cbn [active_jobs db]. rewrite lookup_alter_eq, Hj4.
      split; [reflexivity|]. split; [exact Hid|]. split; [reflexivity|].
      unfold alter_row. cbn [job_rows]. rewrite lookup_alter_eq, Hr. auto.
    + eexists _, Cancelled. split; [reflexivity|]. split; [exact H|reflexivity].
  - assert (Hany : exists st, agree job_id (db_id j) st (serve job_id (teardown sch) s3))
      by (destruct H4; eauto).
    destruct Hany as [st Ha].
    destruct (on_exception_agree job_id (db_id j) st e _ Ha) as [Hret Hf].
    eexists _, Failed. split; [|split; [exact Hf|reflexivity]].
    rewrite (surjective_pairing (on_exception _ _ _)), Hret. reflexivity.
Qed.


(** ** A run nobody interrupts *)

Lemma update_quiet job_id ev now s j r :
  job_of job_id s = Some j -> status j <> Cancelled ->
  job_rows (db s) !! db_id j = Some r ->
  exists j' r',
    job_of job_id (update_progress_with_lead fmt job_id ev now s) = Some j'
    /\ status j' = status j /\ search_term j' = search_term j
    /\ db_id j' = db_id j
    /\ progress j' = Scraper.ev_progress ev
    /\ total_listings j' = Scraper.ev_total ev
    /\ successful_extractions j' = Scraper.ev_successful ev
    /\ job_rows (db (update_progress_with_lead fmt job_id ev now s)) !! db_id j
       = Some r'
    /\ sj_status r' = sj_status r
    /\ sj_progress r' = Scraper.ev_progress ev
    /\ sj_total_listings r' = Scraper.ev_total ev
    /\ sj_successful_extractions r' = Scraper.ev_successful ev
    /\ lead_rows (db (update_progress_with_lead fmt job_id ev now s))
       = lead_rows (db s)
         ++ map (fun d => lead_of d j)
              (List.filter savable (Scraper.new_leads [ev])).
Proof.
  intros Hj Hst Hr. unfold update_progress_with_lead.
  unfold job_of in *. rewrite Hj.
  destruct (status_eqb (status j) Cancelled) eqn:E;
    [apply status_eqb_eq in E; contradiction|].
  destruct (track_phases_status now (Scraper.ev_message ev) j) as [Hs Ht].
  pose proof (track_phases_db_id now (Scraper.ev_message ev) j) as Hd.
  eexists _, (row_with_counters _ _ _ r). cbn [active_jobs db].
  rewrite lookup_insert_eq. split; [reflexivity|].
  cbn [status search_term db_id progress total_listings successful_extractions
       with_counters].
  rewrite Hs, Ht, Hd. do 6 (split; [reflexivity|]).
  assert (Hrow : job_rows (alter_row (row_with_counters (Scraper.ev_progress ev)
                    (Scraper.ev_total ev) (Scraper.ev_successful ev))
                    (db_id j) (db s)) !! db_id j
                 = Some (row_with_counters (Scraper.ev_progress ev)
                    (Scraper.ev_total ev) (Scraper.ev_successful ev) r)).
  { unfold alter_row. cbn [job_rows]. rewrite lookup_alter_eq, Hr. reflexivity. }
  unfold Scraper.new_leads. cbn [omap list_omap].
  destruct (Scraper.ev_new_lead ev) as [d|];
    [cbn [List.filter]; unfold savable; destruct (Scraper.name d)|];
    cbn [List.filter job_rows lead_rows add_lead alter_row map app];
    (split; [exact Hrow|]); do 4 (split; [reflexivity|]).
  - f_equal. f_equal. apply lead_of_term. cbn [search_term]. exact Ht.
  - rewrite app_nil_r. reflexivity.
  - rewrite app_nil_r. reflexivity.
Qed.

Lemma deliver_quiet job_id ticks :
  (forall i, cancel_request (ticks i) = false) ->
  forall evs k s j r,
    job_of job_id s = Some j -> status j <> Cancelled ->
    job_rows (db s) !! db_id j = Some r ->
    exists j' r',
      job_of job_id (deliver fmt job_id ticks k evs s) = Some j'
      /\ status j' = status j /\ search_term j' = search_term j
      /\ db_id j' = db_id j
      /\ job_rows (db (deliver fmt job_id ticks k evs s)) !! db_id j = Some r'
      /\ sj_status r' = sj_status r
      /\ lead_rows (db (deliver fmt job_id ticks k evs s))
         = lead_rows (db s)
           ++ map (fun d => lead_of d j)
                (List.filter savable (Scraper.new_leads evs))
      /\ (forall ev, last evs = Some ev ->
            progress j' = Scraper.ev_progress ev
            /\ total_listings j' = Scraper.ev_total ev
            /\ successful_extractions j' = Scraper.ev_successful ev
            /\ sj_progress r' = Scraper.ev_progress ev
            /\ sj_total_listings r' = Scraper.ev_total ev
            /\ sj_successful_extractions r' = Scraper.ev_successful ev).
Proof.
  intros Hquiet. induction evs as [|ev evs IH]; intros k s j r Hj Hst Hr.
  - exists j, r. cbn [deliver]. do 6 (split; [auto|]).
    split; [|intros e He; discriminate].
    unfold Scraper.new_leads. simpl. rewrite app_nil_r. reflexivity.
  - cbn [deliver].
    assert (Hserve : serve job_id (ticks k) s = s)
      by (unfold serve; rewrite Hquiet; reflexivity).
    rewrite Hserve.
    destruct (update_quiet job_id ev (now (ticks k)) s j r Hj Hst Hr)
      as (j1 & r1 & Hj1 & Hs1 & Ht1 & Hd1 & Hp1 & Htl1 & Hn1 & Hr1 & Hrs1
          & Hrp1 & Hrt1 & Hrn1 & Hl1).
    set (s1 := update_progress_with_lead fmt job_id ev (now (ticks k)) s) in *.
    rewrite <- Hd1 in Hr1.
    destruct (IH (S k) s1 j1 r1 Hj1 ltac:(congruence) Hr1)
      as (j' & r' & Hj' & Hs' & Ht' & Hd' & Hr' & Hrs' & Hl' & Hlast).
    exists j', r'. split; [exact Hj'|]. split; [congruence|].
    split; [congruence|]. split; [congruence|].
    split; [rewrite <- Hd1; exact Hr'|]. split; [congruence|]. split.
    + rewrite Hl', Hl1, <- app_assoc. f_equal.
      change (ev :: evs) with ([ev] ++ evs).
      unfold Scraper.new_leads. rewrite omap_app, List.filter_app, map_app. f_equal.
      apply map_ext. intros d. apply lead_of_term, Ht1.
    + intros e He. destruct evs as [|e2 evs].
      * cbn [deliver] in Hj', Hr'. rewrite Hj1 in Hj'. rewrite Hr1 in Hr'.
        injection Hj' as <-. injection Hr' as <-. injection He as <-.
        repeat split; assumption.
      * apply Hlast. rewrite last_cons_cons in He. exact He.
Qed.

(** The table takes every dict a scrape passes on. *)
Lemma scrape_leads_savable pg evs res :
  Scraper.scrape_with_progress pg = Some (evs, res) ->
  List.filter savable (Scraper.new_leads evs) = Scraper.new_leads evs.
Proof.
  intros Hscrape. apply forallb_filter_id, forallb_forall. intros d Hd.
  apply list_elem_of_In, list_elem_of_omap in Hd as (ev & Hin & Hev).
  assert (Hfw : forwarded evs d)
    by (exists ev; split; [apply list_elem_of_In, Hin|exact Hev]).
  pose proof (LeadFacts.forwarded_accepted pg evs res d Hscrape Hfw) as Ha.
  apply andb_prop in Ha as [Hn _]. unfold savable.
  destruct (Scraper.name d); [reflexivity|discriminate].
Qed.

Lemma run_quiet job_id sch pg s j row evs leads :
  job_of job_id s = Some j ->
  job_rows (db s) !! db_id j = Some row ->
  uninterrupted sch ->
  Scraper.scrape_with_progress pg = Some (evs, Scraper.Returned leads) ->
  exists s',
    run_scraping_job fmt job_id sch pg s = Some (s', Returns)
    /\ lead_rows (db s') = lead_rows (db s) ++ map (fun d => lead_of d j) leads
    /\ shows job_id (db_id j) Completed (Scraper.final_count pg)
         (Scraper.final_count pg) (length leads) s'.
Proof.
  intros Hj Hrow [Hquiet Htd] Hscrape.
  unfold run_scraping_job. unfold job_of in Hj. rewrite Hj.
  cbn [db enter_running]. rewrite Hrow.
  set (j2 := with_start (started sch)
               (with_status Running "Initializing scraper..." j)).
  set (s2 := row_running (db_id j) (enter_running job_id (started sch) j s)).
  assert (Hj2 : job_of job_id s2 = Some j2)
    by (unfold job_of, s2; simpl; apply lookup_insert_eq).
  assert (Hr2 : job_rows (db s2) !! db_id j2
                = Some (row_with_status Running row)).
  { unfold s2, alter_row. cbn [db row_running enter_running job_rows alter_row].
    change (db_id j2) with (db_id j). rewrite lookup_alter_eq, Hrow. reflexivity. }
  rewrite (is_cancelled_status job_id s2 _ Hj2). cbn [status j2 with_start
    with_status status_eqb].
  rewrite Hscrape.
  destruct (deliver_quiet job_id (ticks sch) Hquiet evs 0 s2 j2 _ Hj2
              ltac:(discriminate) Hr2)
    as (j3 & r3 & Hj3 & Hs3 & Ht3 & Hd3 & Hr3 & Hrs3 & Hl3 & Hlast).
  assert (Hserve : serve job_id (teardown sch)
                     (deliver fmt job_id (ticks sch) 0 evs s2)
                   = deliver fmt job_id (ticks sch) 0 evs s2)
    by (unfold serve; rewrite Htd; reflexivity).
  rewrite Hserve, (is_cancelled_status job_id _ _ Hj3), Hs3.
  cbn [status j2 with_start with_status status_eqb].
  destruct (ScraperUse.scrape_counts pg evs _ Hscrape) as (Hn & _ & _).
  destruct (ScraperUse.scrape_last pg evs leads Hscrape)
    as (ev & Hev & Hp & Ht & Hsucc).
  destruct (Hlast ev Hev) as (Pj & Tj & Nj & Pr & Tr & Nr).
  eexists. split; [reflexivity|]. split.
  - unfold complete, mark. cbn [db lead_rows alter_row].
    rewrite Hl3, (scrape_leads_savable pg evs _ Hscrape), Hn. reflexivity.
  - unfold job_of in Hj3.
    eexists _, (row_completed _ _ r3). unfold job_of, complete, mark.
    cbn [active_jobs db]. rewrite lookup_alter_eq, Hj3.
    split; [reflexivity|].
    cbn [db_id status progress total_listings successful_extractions
         with_status].
    split; [exact Hd3|]. split; [reflexivity|].
    split; [congruence|]. split; [congruence|]. split; [congruence|].
    unfold alter_row. cbn [job_rows].
    change (db_id j2) with (db_id j) in Hr3.
    rewrite lookup_alter_eq, Hr3.
    split; [reflexivity|]. cbn [row_completed sj_status sj_progress
      sj_total_listings sj_successful_extractions].
    split; [reflexivity|]. split; [congruence|]. split; [congruence|reflexivity].
Qed.

(** X15.  A run that no cancel request interrupts, on a page where listings
    are found.  The rows it adds to the table of leads are those of the
    leads the scraper returns, in that order, each with the job's search
    term as its location.  Entry and row end completed, with progress and
    total both at the number of listings counted and the success count at
    the number of leads returned. *)
Theorem uninterrupted_run_saves_leads job_id sch pg s j :
  job_of job_id s = Some j ->
  is_Some (job_rows (db s) !! db_id j) ->
  uninterrupted sch ->
  Scraper.listings_found pg = true ->
  exists s' evs leads,
    Scraper.scrape_with_progress pg = Some (evs, Scraper.Returned leads)
    /\ run_scraping_job fmt job_id sch pg s = Some (s', Returns)
    /\ lead_rows (db s') = lead_rows (db s) ++ map (fun d => lead_of d j) leads
    /\ shows job_id (db_id j) Completed (Scraper.final_count pg)
         (Scraper.final_count pg) (length leads) s'.
Proof.
  intros Hj [row Hrow] Hq Hfound.
  destruct (LeadFacts.scrape_found pg Hfound) as (pre & Hscrape).
  destruct (run_quiet job_id sch pg s j row _ _ Hj Hrow Hq Hscrape)
    as (s' & Hrun & Hl & Hshow).
  eexists s', _, _. split; [exact Hscrape|]. auto.
Qed.


(** X16.  A job cancelled before [run_scraping_job] starts is run all the
    same: entry and row say cancelled, but the run sets the status back to
    running before it looks for a cancellation, so with no further cancel
    request the job ends completed. *)
Theorem cancel_before_run_is_lost job_id t sch pg s j :
  job_of job_id s = Some j ->
  is_Some (job_rows (db s) !! db_id j) ->
  uninterrupted sch ->
  Scraper.listings_found pg = true ->
  agree job_id (db_id j) Cancelled (cancel_scraping_job job_id t s)
  /\ exists s',
       run_scraping_job fmt job_id sch pg (cancel_scraping_job job_id t s)
       = Some (s', Returns)
       /\ agree job_id (db_id j) Completed s'.
Proof.
  intros Hj [row Hrow] Hq Hfound.
  assert (Hj1 : job_of job_id (cancel_scraping_job job_id t s)
                = Some (with_status Cancelled "Job cancelled by user" j)).
  { unfold cancel_scraping_job, job_of in *. rewrite Hj. cbn [active_jobs].
    apply lookup_insert_eq. }
  assert (Hr1 : job_rows (db (cancel_scraping_job job_id t s)) !! db_id j
                = Some (row_finished Cancelled t row)).
  { unfold cancel_scraping_job, job_of in *. rewrite Hj.
    cbn [db alter_row job_rows]. rewrite lookup_alter_eq, Hrow. reflexivity. }
  split.
  - eexists _, _. split; [exact Hj1|]. split; [reflexivity|].
    split; [reflexivity|]. split; [exact Hr1|reflexivity].
  - destruct (LeadFacts.scrape_found pg Hfound) as (pre & Hscrape).
    destruct (run_quiet job_id sch pg _ _ _ _ _ Hj1 Hr1 Hq Hscrape)
      as (s' & Hrun & _ & (j' & r' & A & B & C & _ & _ & _ & D & E & _)).
    exists s'. split; [exact Hrun|]. exists j', r'. auto.
Qed.


(** X17.  A job started from a business type and a location, where " in "
    occurs neither inside the business type nor across its end.  A dict
    with a name that is passed as new lead is saved with that business
    type, and with the whole search term as its location; for a dict whose
    name is [None] no row is saved. *)
Theorem business_type_round_trip r bt loc job_id id t0 s ev d now :
  Scraper.truthy_opt (req_search_term r) = false ->
  req_business_type r = Some bt -> req_location r = Some loc ->
  Scraper.truthy bt = true -> Scraper.truthy loc = true ->
  contains " in " (bt +:+ " in") = false ->
  Scraper.ev_new_lead ev = Some d ->
  lead_rows (db (update_progress_with_lead fmt job_id ev now
                   (snd (start_scraping_endpoint r job_id id t0 s))))
  = lead_rows (db s)
    ++ match Scraper.name d with
       | Some n =>
           [{| lead_name := Some n; lead_phone := Scraper.phone d;
               lead_website := Scraper.website d;
               lead_email := Scraper.email d;
               lead_location := bt +:+ " in " +:+ loc;
               lead_business_type := bt; lead_status := "new" |}]
       | None => []
       end.
Proof.
  intros Hst Hb Hl Htb Htl Hin Hd.
  assert (Hend : snd (start_scraping_endpoint r job_id id t0 s)
                 = start_scraping job_id (bt +:+ " in " +:+ loc) id t0 s).
  { unfold start_scraping_endpoint, resolve_search_term.
    rewrite Hb, Hl, Htb, Htl.
    destruct (req_search_term r) as [t|]; [simpl in Hst; rewrite Hst|];
      reflexivity. }
  rewrite Hend. unfold update_progress_with_lead, start_scraping.
  cbn [active_jobs]. rewrite lookup_insert_eq. cbn [status status_eqb].
  rewrite Hd. destruct (Scraper.name d) as [n|] eqn:En;
    cbn [db add_lead lead_rows alter_row]; [|rewrite app_nil_r; reflexivity].
  f_equal. f_equal.
  unfold lead_of. cbn [search_term with_counters].
  rewrite (proj2 (track_phases_status _ _ _)). cbn [search_term].
  rewrite (business_type_of_term bt loc Hin), En. reflexivity.
Qed.


End Runs.

Lemma run_ends_terminal_witness :
  exists s' st,
    run_scraping_job Examples.show_seconds "job-1" (Examples.schedule (Some 14))
      Examples.three_listings Examples.one_job = Some (s', Returns)
    /\ agree "job-1" (db_id Examples.job_1) st s'
    /\ terminal st = true.
Proof.
  apply (run_ends_terminal Examples.show_seconds "job-1" (Examples.schedule (Some 14))
           Examples.three_listings Examples.one_job Examples.job_1).
  - reflexivity.
  - eexists. reflexivity.
Defined.

Lemma uninterrupted_run_saves_leads_witness :
  uninterrupted (Examples.schedule None)
  /\ exists s' evs leads,
       Scraper.scrape_with_progress Examples.three_listings
       = Some (evs, Scraper.Returned leads)
       /\ run_scraping_job Examples.show_seconds "job-1" (Examples.schedule None)
            Examples.three_listings Examples.one_job = Some (s', Returns)
       /\ lead_rows (db s')
          = lead_rows (db Examples.one_job)
            ++ map (fun d => lead_of d Examples.job_1) leads
       /\ shows "job-1" (db_id Examples.job_1) Completed 3 3 (length leads) s'.
Proof.
  assert (Hq : uninterrupted (Examples.schedule None))
    by (split; [intros i|]; reflexivity).
  split; [exact Hq|].
  apply (uninterrupted_run_saves_leads Examples.show_seconds "job-1" (Examples.schedule None)
           Examples.three_listings Examples.one_job Examples.job_1).
  - reflexivity.
  - eexists. reflexivity.
  - exact Hq.
  - reflexivity.
Defined.

Lemma cancel_before_run_is_lost_witness :
  agree "job-1" (db_id Examples.job_1) Cancelled
    (cancel_scraping_job "job-1" 5%Z Examples.one_job)
  /\ exists s',
       run_scraping_job Examples.show_seconds "job-1" (Examples.schedule None)
         Examples.three_listings
         (cancel_scraping_job "job-1" 5%Z Examples.one_job)
       = Some (s', Returns)
       /\ agree "job-1" (db_id Examples.job_1) Completed s'.
Proof.
  apply (cancel_before_run_is_lost Examples.show_seconds "job-1" 5%Z (Examples.schedule None)
           Examples.three_listings Examples.one_job Examples.job_1).
  - reflexivity.
  - eexists. reflexivity.
  - split; [intros i|]; reflexivity.
  - reflexivity.
Defined.

Lemma business_type_round_trip_witness :
  lead_rows (db (update_progress_with_lead Examples.show_seconds "job-2"
                   (Scraper.cb_lead 1 3 1 "Found lead: Acme Plumbing"
                      Examples.named_site) 5%Z
                   (snd (start_scraping_endpoint Examples.typed_request
                           "job-2" 2 0%Z Examples.no_jobs))))
  = lead_rows (db Examples.no_jobs)
    ++ [{| lead_name := Some "Acme Plumbing"; lead_phone := "";
           lead_website := "https://acme.example"; lead_email := "";
           lead_location := "plumbers in Austin";
           lead_business_type := "plumbers"; lead_status := "new" |}].
Proof.
  apply (business_type_round_trip Examples.show_seconds Examples.typed_request "plumbers" "Austin"
           "job-2" 2 0%Z Examples.no_jobs
           (Scraper.cb_lead 1 3 1 "Found lead: Acme Plumbing"
              Examples.named_site)
           Examples.named_site 5%Z); reflexivity.
Defined.

End ServerUse.

(* ===================================================================== *)
(** * The pages of [get_leads] *)
(* ===================================================================== *)

Module PagesUse.
Import Server.

(** The first [m] chunks of [n] elements make up the first [m * n]. *)
Lemma chunks_take {A} (n : nat) (l : list A) :
  forall m,
    concat (map (fun k => take n (drop (k * n) l)) (seq 0 m)) = take (m * n) l.
Proof.
  induction m as [|m IH]; [reflexivity|].
  rewrite seq_S, map_app, concat_app, IH. simpl.
  rewrite app_nil_r, take_take_drop. f_equal. lia.
Qed.

Lemma sqlite_int_spec n :
  sqlite_int n = true <-> (- 2 ^ 63 <= n <= 2 ^ 63 - 1)%Z.
Proof.
  unfold sqlite_int. rewrite andb_true_iff, !Z.leb_le. reflexivity.
Qed.

Lemma get_leads_answer page limit st rows :
  (1 <= limit <= 2 ^ 63 - 1)%Z ->
  (0 <= (page - 1) * limit <= 2 ^ 63 - 1)%Z ->
  get_leads page limit st rows
  = inr {| lp_leads := take (Z.to_nat limit)
                         (drop (Z.to_nat ((page - 1) * limit))
                            (status_filter st rows));
           lp_page := page; lp_limit := limit;
           lp_total := Z.of_nat (length (status_filter st rows));
           lp_pages := (Z.of_nat (length (status_filter st rows))
                        + limit - 1) / limit |}.
Proof.
  intros Hl Ho. unfold get_leads, limit_rows, offset_rows.
  assert (H1 : sqlite_int ((page - 1) * limit) = true)
    by (apply sqlite_int_spec; lia).
  assert (H2 : sqlite_int limit = true) by (apply sqlite_int_spec; lia).
  rewrite H1, H2. cbn [andb negb].
  destruct (Z.eqb_spec limit 0); [lia|].
  destruct (Z.ltb_spec limit 0); [lia|]. reflexivity.
Qed.

Lemma pages_cover (total limit : Z) :
  (0 <= total)%Z -> (1 <= limit)%Z ->
  (0 <= (total + limit - 1) / limit
   /\ total <= (total + limit - 1) / limit * limit
   /\ ((total + limit - 1) / limit - 1) * limit < total
      \/ total = 0 /\ (total + limit - 1) / limit = 0)%Z.
Proof.
  intros Ht Hl.
  pose proof (Z.div_mod (total + limit - 1) limit ltac:(lia)) as Hdm.
  pose proof (Z.mod_pos_bound (total + limit - 1) limit ltac:(lia)) as Hb.
  destruct (Z.eq_dec total 0%Z) as [->|Hne].
  - right. split; [reflexivity|]. apply Z.div_small. lia.
  - left. split; [apply Z.div_pos; lia|]. nia.
Qed.

(** X18.  [get_leads] on a table of fewer than 2^63 leads, with a limit
    from 1 to 2^63 - 1.  A page from the first on whose offset
    (page - 1) * limit is at most 2^63 - 1 is answered, and every such
    page with the same number of pages and with the number of leads of
    the asked status as total; it holds at most limit leads, at least one
    if its number is at most the number of pages and none if it is above.
    A page whose offset is larger ends in OverflowError.  Pages 1 to the
    number of pages, one after the other, are the leads of the asked
    status, each once and in the order of the query. *)
Theorem lead_pages_partition limit st rows :
  (1 <= limit <= 2 ^ 63 - 1)%Z ->
  (Z.of_nat (length rows) <= 2 ^ 63 - 1)%Z ->
  exists pages,
    (forall page, (1 <= page)%Z -> ((page - 1) * limit <= 2 ^ 63 - 1)%Z ->
       exists r, get_leads page limit st rows = inr r
         /\ lp_pages r = pages
         /\ lp_total r = Z.of_nat (length (status_filter st rows))
         /\ lp_leads r = page_leads page limit st rows
         /\ (Z.of_nat (length (lp_leads r)) <= limit)%Z
         /\ ((pages < page)%Z -> lp_leads r = [])
         /\ ((page <= pages)%Z -> lp_leads r <> []))
    /\ (forall page, (2 ^ 63 - 1 < (page - 1) * limit)%Z ->
          get_leads page limit st rows = inl OverflowError)
    /\ (0 <= pages)%Z
    /\ concat (map (fun k => page_leads (Z.of_nat k) limit st rows)
                 (seq 1 (Z.to_nat pages)))
       = status_filter st rows.
Proof.
  intros Hl Hrows.
  set (q := status_filter st rows).
  set (total := Z.of_nat (length q)).
  assert (Htot : (total <= 2 ^ 63 - 1)%Z).
  { unfold total, q, status_filter.
    destruct (Scraper.truthy_opt st); [|exact Hrows].
    pose proof (List.filter_length_le
                  (fun l => bool_decide (Some (lead_status l) = st)) rows).
    lia. }
  pose proof (pages_cover total limit ltac:(lia) ltac:(lia)) as Hcov.
  set (pages := ((total + limit - 1) / limit)%Z) in *.
  exists pages.
  split; [|split; [|split]].
  - intros page Hp Hfit.
    assert (Ho : (0 <= (page - 1) * limit <= 2 ^ 63 - 1)%Z) by nia.
    pose proof (get_leads_answer page limit st rows Hl Ho) as Hans.
    unfold page_leads. rewrite Hans. fold q. fold total. fold pages.
    eexists. split; [reflexivity|]. cbn [lp_pages lp_total lp_leads].
    do 3 (split; [reflexivity|]).
    set (o := ((page - 1) * limit)%Z) in *.
    split; [|split].
    + rewrite length_take. lia.
    + intros Hlt. rewrite drop_ge; [apply take_nil|].
      assert (total <= o)%Z
        by (unfold o; destruct Hcov as [(? & ? & ?)|(? & ?)]; nia).
      unfold total in *. lia.
    + intros Hle Hnil.
      assert (Hlen : length (take (Z.to_nat limit) (drop (Z.to_nat o) q)) = 0)
        by (rewrite Hnil; reflexivity).
      rewrite length_take, length_drop in Hlen.
      assert (o < total)%Z
        by (unfold o; destruct Hcov as [(? & ? & ?)|(? & ?)]; nia).
      unfold total in *. lia.
  - intros page Hover. unfold get_leads.
    assert (H1 : sqlite_int ((page - 1) * limit) = false).
    { apply Bool.not_true_iff_false. rewrite sqlite_int_spec. lia. }
    rewrite H1. reflexivity.
  - destruct Hcov as [(H & _)|(_ & H)]; lia.
  - transitivity (concat (map (fun k => take (Z.to_nat limit)
                                          (drop (k * Z.to_nat limit) q))
                            (seq 0 (Z.to_nat pages)))).
    + rewrite <- (fmap_S_seq 0), <- list_fmap_compose. f_equal.
      apply map_ext_in. intros k Hk. unfold compose.
      apply in_seq in Hk.
      assert (Hkp : (Z.of_nat k < pages)%Z) by lia.
      assert (Ho : (0 <= (Z.of_nat (S k) - 1) * limit <= 2 ^ 63 - 1)%Z).
      { replace (Z.of_nat (S k) - 1)%Z with (Z.of_nat k) by lia.
        destruct Hcov as [(? & ? & ?)|(? & ?)]; nia. }
      unfold page_leads.
      rewrite (get_leads_answer _ limit st rows Hl Ho). cbn [lp_leads].
      fold q. do 2 f_equal.
      replace ((Z.of_nat (S k) - 1) * limit)%Z with (Z.of_nat k * limit)%Z
        by lia.
      rewrite Z2Nat.inj_mul, Nat2Z.id by lia. reflexivity.
    + rewrite chunks_take. apply take_ge.
      rewrite <- Z2Nat.inj_mul by lia.
      assert (total <= pages * limit)%Z
        by (destruct Hcov as [(_ & H & _)|(H0 & H1)]; lia).
      unfold total in *. lia.
Qed.

Lemma lead_pages_partition_witness :
  exists pages,
    (forall page, (1 <= page)%Z -> ((page - 1) * 2 <= 2 ^ 63 - 1)%Z ->
       exists r, get_leads page 2 (Some "new") Examples.three_rows = inr r
         /\ lp_pages r = pages
         /\ lp_total r
            = Z.of_nat (length (status_filter (Some "new") Examples.three_rows))
         /\ lp_leads r = page_leads page 2 (Some "new") Examples.three_rows
         /\ (Z.of_nat (length (lp_leads r)) <= 2)%Z
         /\ ((pages < page)%Z -> lp_leads r = [])
         /\ ((page <= pages)%Z -> lp_leads r <> []))
    /\ (forall page, (2 ^ 63 - 1 < (page - 1) * 2)%Z ->
          get_leads page 2 (Some "new") Examples.three_rows
          = inl OverflowError)
    /\ (0 <= pages)%Z
    /\ concat (map (fun k => page_leads (Z.of_nat k) 2 (Some "new")
                              Examples.three_rows)
                 (seq 1 (Z.to_nat pages)))
       = status_filter (Some "new") Examples.three_rows.
Proof.
  apply (lead_pages_partition 2 (Some "new") Examples.three_rows).
  - lia.
  - simpl. lia.
Defined.

End PagesUse.

(* ===================================================================== *)
(** * The phone number test *)
(* ===================================================================== *)

Module PhoneUse.
Import Phone.

Lemma append_cons c (s t : string) : String c s +:+ t = String c (s +:+ t).
Proof. reflexivity. Qed.

Lemma append_nil_l (s : string) : "" +:+ s = s.
Proof. destruct s; reflexivity. Qed.

Lemma append_eq_nil (s t : string) : s +:+ t = "" -> s = "" /\ t = "".
Proof.
  destruct s as [|c s].
  - rewrite append_nil_l. auto.
  - rewrite append_cons. discriminate.
Qed.

(** ** The matcher and the strings of a pattern *)

Lemma nullable_lang r : nullable r = true <-> lang r "".
Proof.
  induction r as [| |p|r1 IH1 r2 IH2|r1 IH1 r2 IH2|r IH]; simpl.
  - split; [discriminate|]. intros H. inversion H.
  - split; [constructor|reflexivity].
  - split; [discriminate|]. intros H. inversion H.
  - rewrite andb_true_iff, IH1, IH2. split.
    + intros [H1 H2]. change "" with ("" +:+ ""). constructor; assumption.
    + intros H. inversion H as [| |? ? s1 s2 H1 H2| | | |]; subst.
      match goal with E : _ +:+ _ = "" |- _ =>
        apply append_eq_nil in E as [-> ->] end. auto.
  - rewrite orb_true_iff, IH1, IH2. split.
    + intros [H|H]; [apply lang_or_l|apply lang_or_r]; exact H.
    + intros H. inversion H; subst; auto.
  - split; [constructor|reflexivity].
Qed.

(** A string of [Star r] that begins with [c] begins with a string of [r]
    that begins with [c]. *)
Lemma lang_star_cons_inv r c s :
  lang (Star r) (String c s) ->
  exists s1 s2, s = s1 +:+ s2 /\ lang r (String c s1) /\ lang (Star r) s2.
Proof.
  intros H. remember (Star r) as r' eqn:Er. remember (String c s) as t eqn:Et.
  revert s Et.
  induction H as [| | | | | |r0 s1 s2 H1 _ H2 IH2]; try discriminate.
  injection Er as ->. intros s Et.
  destruct s1 as [|c1 s1].
  - rewrite append_nil_l in Et. apply IH2; [reflexivity|exact Et].
  - rewrite append_cons in Et. injection Et as -> <-.
    exists s1, s2. auto.
Qed.

Lemma deriv_lang c r : forall s, lang (deriv c r) s <-> lang r (String c s).
Proof.
  induction r as [| |p|r1 IH1 r2 IH2|r1 IH1 r2 IH2|r IH]; intros s; simpl.
  - split; intros H; inversion H.
  - split; intros H; inversion H.
  - destruct (p c) eqn:Ep; split; intros H; inversion H; subst.
    + constructor. exact Ep.
    + constructor.
    + congruence.
  - assert (Hcat : lang (Cat (deriv c r1) r2) s ->
                   lang (Cat r1 r2) (String c s)).
    { intros H. inversion H as [| |? ? s1 s2 H1 H2| | | |]; subst.
      rewrite <- append_cons. constructor; [apply IH1, H1|exact H2]. }
    assert (Hinv : lang (Cat r1 r2) (String c s) ->
                   lang (Cat (deriv c r1) r2) s
                   \/ (lang r1 "" /\ lang r2 (String c s))).
    { intros H. inversion H as [| |? ? s1 s2 H1 H2| | | |]; subst.
      match goal with E : _ +:+ _ = String c s |- _ => rename E into E0 end.
      destruct s1 as [|c1 s1].
      - right. rewrite append_nil_l in E0. subst. auto.
      - left. rewrite append_cons in E0. injection E0 as -> <-.
        constructor; [apply IH1, H1|exact H2]. }
    destruct (nullable r1) eqn:En.
    + split.
      * intros H. inversion H; subst; [auto|].
        change (String c s) with ("" +:+ String c s).
        constructor; [apply nullable_lang, En|apply IH2; assumption].
      * intros H. destruct (Hinv H) as [H'|[_ H']];
          [apply lang_or_l, H'|apply lang_or_r, IH2, H'].
    + split; [exact Hcat|].
      intros H. destruct (Hinv H) as [H'|[H' _]]; [exact H'|].
      apply nullable_lang in H'. congruence.
  - split; intros H; inversion H; subst;
      solve [apply lang_or_l, IH1; assumption
            |apply lang_or_r, IH2; assumption].
  - split.
    + intros H. inversion H as [| |? ? s1 s2 H1 H2| | | |]; subst.
      rewrite <- append_cons. constructor; [apply IH, H1|exact H2].
    + intros H. apply lang_star_cons_inv in H as (s1 & s2 & -> & H1 & H2).
      constructor; [apply IH, H1|exact H2].
Qed.

Lemma matches_lang : forall s r, matches r s = true <-> lang r s.
Proof.
  induction s as [|c s IH]; intros r; simpl.
  - apply nullable_lang.
  - rewrite IH. apply deriv_lang.
Qed.

(** ** What the patterns accept *)

Lemma all_chars_app P (s1 s2 : string) :
  all_chars P (s1 +:+ s2) = all_chars P s1 && all_chars P s2.
Proof.
  induction s1 as [|c s1 IH]; [rewrite append_nil_l; reflexivity|].
  rewrite append_cons. simpl. rewrite IH, andb_assoc. reflexivity.
Qed.

Lemma lang_within P r s :
  lang r s -> within P r -> all_chars P s = true.
Proof.
  induction 1 as [|p c Hp|r1 r2 s1 s2 _ IH1 _ IH2|r1 r2 s _ IH|r1 r2 s _ IH
                  |r|r s1 s2 _ IH1 _ IH2]; simpl; intros Hw.
  - reflexivity.
  - rewrite (Hw c Hp). reflexivity.
  - rewrite all_chars_app, IH1, IH2 by apply Hw. reflexivity.
  - apply IH, Hw.
  - apply IH, Hw.
  - reflexivity.
  - rewrite all_chars_app, IH1, IH2 by exact Hw. reflexivity.
Qed.

Lemma all_chars_star P s :
  all_chars P s = true -> lang (Star (Class P)) s.
Proof.
  induction s as [|c s IH]; simpl; [constructor|].
  intros H. apply andb_true_iff in H as [Hc Hs].
  change (String c s) with (String c "" +:+ s).
  constructor; [constructor; exact Hc|apply IH, Hs].
Qed.

Lemma digit_phone_char c : is_digit c = true -> phone_char c = true.
Proof. unfold phone_char. intros ->. reflexivity. Qed.

Lemma space_phone_char c : is_space c = true -> phone_char c = true.
Proof.
  unfold phone_char, separator. intros ->. rewrite orb_true_r. reflexivity.
Qed.

Lemma chr_phone_char a c :
  phone_char a = true -> Ascii.eqb a c = true -> phone_char c = true.
Proof. intros Ha Hc. apply Ascii.eqb_eq in Hc. subst. exact Ha. Qed.

Lemma digit_not_separator c : is_digit c = true -> separator c = false.
Proof.
  destruct c as [[] [] [] [] [] [] [] []]; vm_compute; congruence.
Qed.

Lemma count_digits_cleaned s :
  count_chars is_digit (remove_chars separator s) = count_chars is_digit s.
Proof.
  induction s as [|c s IH]; [reflexivity|]. simpl.
  destruct (separator c) eqn:Es.
  - destruct (is_digit c) eqn:Ed.
    + apply digit_not_separator in Ed. congruence.
    + exact IH.
  - simpl. rewrite IH. reflexivity.
Qed.

(** The four national patterns accept nothing the first one does not
    accept as well. *)
Lemma national_within r :
  In r [us_parentheses; us_dashes; Times 10 digit; Times 11 digit] ->
  within phone_char r /\ nullable r = false.
Proof.
  intros [<-|[<-|[<-|[<-|[]]]]]; (split; [|reflexivity]);
    unfold us_parentheses, us_dashes, digit, Chr; cbn [within Times];
    repeat match goal with |- _ /\ _ => split | |- True => exact I end;
    intros c Hc;
    first [apply digit_phone_char, Hc | apply space_phone_char, Hc
          | eapply chr_phone_char; [|exact Hc]; reflexivity].
Qed.

Lemma class_plain s :
  s <> "" -> all_chars phone_char s = true -> plain_number s = true.
Proof.
  destruct s as [|c s]; [congruence|]. intros _ H. unfold plain_number.
  assert (Hc : c <> "+"%char).
  { intros ->. simpl in H. discriminate. }
  destruct c as [[] [] [] [] [] [] [] []]; try exact H.
  congruence.
Qed.

Lemma plain_lang s : plain_number s = true <-> lang international s.
Proof.
  unfold international, Opt, Plus, Chr. split.
  - unfold plain_number. intros H. apply andb_true_iff in H as [Hn Ha].
    assert (Hbody : forall b, Scraper.truthy b = true ->
                      all_chars phone_char b = true ->
                      lang (Cat (Class phone_char) (Star (Class phone_char))) b).
    { intros [|c b] Hb Hall; [discriminate|]. simpl in Hall.
      apply andb_true_iff in Hall as [Hc Hr].
      change (String c b) with (String c "" +:+ b).
      constructor; [constructor; exact Hc|apply all_chars_star, Hr]. }
    destruct s as [|c s']; [discriminate|].
    destruct (Ascii.eqb_spec c "+") as [->|Hne].
    + change (String "+" s') with (String "+" "" +:+ s').
      constructor; [apply lang_or_l; constructor; reflexivity|].
      apply Hbody; assumption.
    + assert (Hsame : match String c s' with
                      | String "+"%char t => t
                      | _ => String c s'
                      end = String c s').
      { destruct c as [[] [] [] [] [] [] [] []]; try reflexivity. congruence. }
      rewrite Hsame in Hn, Ha.
      rewrite <- (append_nil_l (String c s')).
      constructor; [apply lang_or_r; constructor|].
      apply Hbody; assumption.
  - intros H. inversion H as [| |? ? s1 s2 H1 H2| | | |]; subst.
    assert (Hbody : s2 <> "" /\ all_chars phone_char s2 = true).
    { split.
      - intros ->. apply nullable_lang in H2. discriminate.
      - apply (lang_within phone_char _ _ H2). simpl. auto. }
    destruct Hbody as [Hne Hall].
    inversion H1 as [| | |? ? ? Hplus|? ? ? Hemp| |]; subst.
    + inversion Hplus as [|? c Hc| | | | |]; subst.
      apply Ascii.eqb_eq in Hc. subst c. rewrite append_cons, append_nil_l.
      unfold plain_number. rewrite Hall.
      destruct s2; [congruence|reflexivity].
    + inversion Hemp; subst. rewrite append_nil_l.
      apply class_plain; assumption.
Qed.

Lemma chop_newline_app s : forall s',
  chop_newline s = Some s' -> s = s' +:+ String "010" "".
Proof.
  induction s as [|c s IH]; intros s'; [discriminate|]. simpl.
  destruct s as [|c2 s].
  - destruct (Ascii.eqb_spec c "010") as [->|]; [|discriminate].
    intros [= <-]. reflexivity.
  - destruct (chop_newline (String c2 s)) as [t|]; [|discriminate].
    intros [= <-]. rewrite append_cons, <- (IH t eq_refl). reflexivity.
Qed.

Lemma class_newline s :
  s <> "" -> all_chars phone_char s = true ->
  s +:+ String "010" "" <> ""
  /\ all_chars phone_char (s +:+ String "010" "") = true.
Proof.
  intros Hne Hall. split.
  - intros E. apply append_eq_nil in E as [_ E]. discriminate.
  - rewrite all_chars_app, Hall. reflexivity.
Qed.

Lemma plain_number_newline s :
  plain_number s = true -> plain_number (s +:+ String "010" "") = true.
Proof.
  unfold plain_number. intros H. apply andb_true_iff in H as [Hn Ha].
  destruct s as [|c s]; [discriminate|]. rewrite append_cons.
  assert (Hgen : forall b, Scraper.truthy b = true ->
                   all_chars phone_char b = true ->
                   Scraper.truthy (b +:+ String "010" "")
                   && all_chars phone_char (b +:+ String "010" "") = true).
  { intros [|x b] Hb Hall; [discriminate|].
    rewrite all_chars_app, Hall. reflexivity. }
  destruct c as [[] [] [] [] [] [] [] []];
    solve [apply Hgen; assumption
          | rewrite <- append_cons; apply Hgen; assumption].
Qed.

Lemma matches_international s : matches international s = plain_number s.
Proof.
  destruct (plain_number s) eqn:Hp.
  - apply matches_lang, plain_lang, Hp.
  - destruct (matches international s) eqn:Hm; [|reflexivity].
    apply matches_lang, plain_lang in Hm. congruence.
Qed.

Lemma re_match_international s : re_match international s = plain_number s.
Proof.
  unfold re_match. rewrite matches_international.
  destruct (plain_number s) eqn:Hp; [reflexivity|]. simpl.
  destruct (chop_newline s) as [s'|] eqn:Hc; [|reflexivity].
  rewrite matches_international.
  destruct (plain_number s') eqn:Hp'; [|reflexivity].
  apply chop_newline_app in Hc. subst s.
  rewrite (plain_number_newline s' Hp') in Hp. discriminate.
Qed.

Lemma re_match_national r s :
  In r [us_parentheses; us_dashes; Times 10 digit; Times 11 digit] ->
  re_match r s = true -> plain_number s = true.
Proof.
  intros Hin. destruct (national_within r Hin) as [Hw Hnull].
  assert (Hm : forall t, matches r t = true ->
                 t <> "" /\ all_chars phone_char t = true).
  { intros t Ht. apply matches_lang in Ht. split.
    - intros ->. apply nullable_lang in Ht. congruence.
    - apply (lang_within _ _ _ Ht Hw). }
  unfold re_match. intros H. apply orb_true_iff in H as [H|H].
  - destruct (Hm s H). apply class_plain; assumption.
  - destruct (chop_newline s) as [s'|] eqn:Hc; [|discriminate].
    apply chop_newline_app in Hc. subst s.
    destruct (Hm s' H) as [Hne Hall].
    destruct (class_newline s' Hne Hall). apply class_plain; assumption.
Qed.

(** X19.  [_is_valid_phone] on texts of code points below 256.  Of its five
    patterns only the first ever decides: whatever the other four match,
    the first matches too.  So a text is accepted exactly when it holds
    seven digits or more and, once stripped, is made of one or more
    digits, white space, hyphens, parentheses and full stops, after a
    plus sign or without one. *)
Theorem valid_phone_characterised :
  (forall s,
      existsb (fun pattern => re_match pattern s) phone_patterns
      = re_match international s)
  /\ (forall text,
        _is_valid_phone text
        = (7 <=? count_chars is_digit text) && plain_number (strip text)).
Proof.
  assert (H1 : forall s,
             existsb (fun pattern => re_match pattern s) phone_patterns
             = re_match international s).
  { intros s. unfold phone_patterns. cbn [existsb].
    destruct (re_match international s) eqn:Hi; [reflexivity|].
    rewrite re_match_international in Hi.
    assert (Hno : forall r,
               In r [us_parentheses; us_dashes; Times 10 digit; Times 11 digit] ->
               re_match r s = false).
    { intros r Hin. destruct (re_match r s) eqn:Hr; [|reflexivity].
      rewrite (re_match_national r s Hin Hr) in Hi. discriminate. }
    rewrite !Hno by (simpl; auto). reflexivity. }
  split; [exact H1|].
  intros text. unfold _is_valid_phone.
  destruct text as [|c text]; [reflexivity|].
  cbn [Scraper.truthy negb]. rewrite count_digits_cleaned.
  destruct (Nat.ltb_spec (count_chars is_digit (String c text)) 7);
    destruct (Nat.leb_spec 7 (count_chars is_digit (String c text)));
    try (exfalso; lia); [reflexivity|].
  rewrite H1, re_match_international. reflexivity.
Qed.

End PhoneUse.
